(** * DebugVisualizer: the flow-graph builder, the runtime API and the tree
    transformer of [debug_analizer.py], embedded as Rocq definitions.

    Layout: the syntax trees the transformer works on (module [ast]), the
    run-time values of instrumented programs, the graph builder
    ([DebugFlowVisualizer]), the runtime API ([debug_function], [debug_loop],
    ...), the transformer ([DebugTransformer]), an evaluator for transformed
    programs standing for Python's [exec], and then the theorems. *)

From stdpp Require Import base strings list gmap pretty.

Set Default Proof Using "Type".
Set Warnings "-register-all".

(** ** Syntax trees *)

(** The fragment of Python's [ast] node classes that the transformer
    distinguishes, with the class and field names of the [ast] module.
    [Assign.targets] is never empty in a parsed tree; the first target, the
    one [visit_Assign] inspects, is a field of its own here. *)
Module ast.

Inductive constant :=
| CNone
| CBool (b : bool)
| CInt (z : Z)
| CStr (s : string).

Inductive operator := Add | Sub | Mult.
Inductive cmpop := Eq | NotEq | Lt | LtE | Gt | GtE.

Inductive expr :=
| Constant (value : constant)
| Name (id : string)
| Call (func : expr) (args : list expr) (keywords : list (string * expr))
| List (elts : list expr)
| Tuple (elts : list expr)
| BinOp (left : expr) (op : operator) (right : expr)
| Compare (left : expr) (op : cmpop) (right : expr)
| Attribute (value : expr) (attr : string)
| Subscript (value : expr) (slice : expr).

Inductive stmt :=
| FunctionDef (name : string) (args : list string) (body : list stmt)
    (decorator_list : list expr)
| For (target iter : expr) (body orelse : list stmt)
| While (test : expr) (body orelse : list stmt)
| If (test : expr) (body orelse : list stmt)
| Assign (target0 : expr) (targets : list expr) (value : expr)
| Expr (value : expr)
| Return (value : option expr)
| Pass.

End ast.

(** ** Run-time values *)

(** Python objects an instrumented program handles.  [VWrapper] is the
    closure [wrapper] that [debug_function] returns, [VConditionDecorator]
    and [VConditionWrapper] the two closures of [debug_condition], each
    holding the variables it captured. *)
Inductive value :=
| VNone
| VBool (b : bool)
| VInt (z : Z)
| VStr (s : string)
| VList (items : list value)
| VTuple (items : list value)
| VFunction (name : string) (params : list string) (body : list ast.stmt)
| VBuiltin (name : string)
| VWrapper (func : value)
| VConditionDecorator (condition : value)
| VConditionWrapper (condition : value) (func : value)
| VStream (name : string)
| VModule (name : string).

Definition kwargs_t : Type := list (string * value).

(** Python's text conversions and the [ast] module's parser and printer are
    library code outside the repository: they are parameters of the
    development.  [py_str] of a string is the string itself. *)
Class PyText := {
  py_repr : value → string;
  py_str : value → string;
  py_str_VStr : ∀ s, py_str (VStr s) = s;
  ast_unparse : ast.expr → string;
  ast_parse : string → option (list ast.stmt)
}.

Definition newline : string := String (Ascii.ascii_of_nat 10) EmptyString.

(** [sep.join(parts)] *)
Definition join (sep : string) (parts : list string) : string :=
  String.concat sep parts.

(** ** The flow-graph builder *)

Module DebugFlowVisualizer.
Section with_text.
Context `{PyText}.

(** A line of the [graphviz.Digraph] body: [dot.node] and [dot.edge] each
    append one. *)
Inductive dot_line :=
| dot_node (name label shape : string)
| dot_edge (tail head : string).

Record t := mk {
  dot : list dot_line;
  node_count : nat;
  current_function : option string;
  execution_path : list string;
  loop_stack : list value
}.

Definition init : t :=
  {| dot := []; node_count := 0; current_function := None;
     execution_path := []; loop_stack := [] |}.

Definition set_current_function (f : option string) (self : t) : t :=
  {| dot := dot self; node_count := node_count self; current_function := f;
     execution_path := execution_path self; loop_stack := loop_stack self |}.

(** [f'node_{self.node_count}'] *)
Definition node_name (n : nat) : string := "node_" +:+ pretty n.

Definition add_node (label : string) (result : value) (shape : string)
    (self : t) : string * t :=
  let node_id := node_name (node_count self) in
  let label :=
    match result with
    | VNone => label
    | _ => label +:+ newline +:+ "Result: " +:+ py_str result
    end in
  let dot1 := dot self ++ [dot_node node_id label shape] in
  let dot2 :=
    match last (execution_path self) with
    | Some prev => dot1 ++ [dot_edge prev node_id]
    | None => dot1
    end in
  (node_id,
   {| dot := dot2; node_count := S (node_count self);
      current_function := current_function self;
      execution_path := execution_path self ++ [node_id];
      loop_stack := loop_stack self |}).

Definition start_function (func_name : string) (args : list value)
    (kwargs : kwargs_t) (self : t) : t :=
  let self := set_current_function (Some func_name) self in
  let args_str :=
    join ", " (((λ kv, kv.1 +:+ "=" +:+ py_repr kv.2) <$> kwargs)
               ++ (py_repr <$> args)) in
  (add_node ("Function: " +:+ func_name +:+ "(" +:+ args_str +:+ ")")
     VNone "ellipse" self).2.

Definition end_function (result : value) (self : t) : t :=
  let self := (add_node ("Return: " +:+ py_repr result) VNone "diamond" self).2 in
  set_current_function None self.

Definition start_loop (loop_info : value) (self : t) : t :=
  (add_node ("Loop Start: " +:+ py_str loop_info) VNone "parallelogram" self).2.

Definition loop_iteration (iteration : value) (self : t) : t :=
  (add_node ("Loop Iteration: " +:+ py_str iteration) VNone "parallelogram" self).2.

Definition end_loop (self : t) : t :=
  (add_node "Loop End" VNone "parallelogram" self).2.

Definition add_condition (condition result : value) (self : t) : t :=
  (add_node ("Condition: " +:+ py_str condition) result "diamond" self).2.

Definition add_variable (var_name value : value) (self : t) : t :=
  (add_node ("Variable: " +:+ py_str var_name +:+ " = " +:+ py_repr value)
     VNone "plaintext" self).2.

Definition add_print (content : string) (self : t) : t :=
  (add_node ("Print: " +:+ content) VNone "oval" self).2.

Definition add_if_branch (condition branch : value) (self : t) : t :=
  (add_node ("If Branch: " +:+ py_str condition +:+ newline +:+ "Taken: "
             +:+ py_str branch) VNone "diamond" self).2.

(** The nodes and the edges of the graph, in the order they were added. *)
Definition nodes (self : t) : list (string * string * string) :=
  omap (λ l, match l with
             | dot_node n lbl sh => Some (n, lbl, sh)
             | dot_edge _ _ => None
             end) (dot self).

Definition edges (self : t) : list (string * string) :=
  omap (λ l, match l with
             | dot_edge a b => Some (a, b)
             | dot_node _ _ _ => None
             end) (dot self).

Definition node_ids (self : t) : list string := (λ n, n.1.1) <$> nodes self.
Definition labels (self : t) : list string := (λ n, n.1.2) <$> nodes self.

(** The text [add_node] stores for a call: the label, with the result
    appended when there is one. *)
Definition stored_label (label : string) (result : value) : string :=
  match result with
  | VNone => label
  | _ => label +:+ newline +:+ "Result: " +:+ py_str result
  end.

(** [n] calls of [add_node], one after the other. *)
Definition add_nodes (calls : list (string * value * string)) (self : t) : t :=
  foldl (λ g c, (add_node c.1.1 c.1.2 c.2 g).2) self calls.

(** The path invariant of the builder: after [k] nodes the identifiers are
    [node_0 .. node_(k-1)], the path lists them in order, and the edges join
    consecutive ones. *)
Definition chain (g : t) : Prop :=
  node_ids g = node_name <$> seq 0 (node_count g)
  ∧ execution_path g = node_name <$> seq 0 (node_count g)
  ∧ edges g = (λ i, (node_name i, node_name (S i))) <$> seq 0 (pred (node_count g)).

End with_text.
End DebugFlowVisualizer.

(** ** Program state and the evaluation monad *)

(** One executed report: a call from instrumented code into the runtime API.
    The wrapper of [debug_function] makes two, on entry and on return;
    [condition_call] is the call [debug_condition(condition)] itself and
    [condition_result] the call of the wrapper its decorator builds. *)
Inductive report :=
| function_enter (func_name : string) (args : list value) (kwargs : kwargs_t)
| function_exit (result : value)
| loop_start (loop_info : value)
| loop_iterate (iteration : value)
| loop_end
| condition_call (condition : value)
| condition_result (condition result : value)
| variable_bound (var_name value : value)
| print_call (args : list value) (kwargs : kwargs_t)
| if_branch (condition branch : value).

(** [globals] is the namespace of the module, which [exec] runs the program
    in; [locals] the frame of the function being executed, if any; [output]
    the texts written so far, each with the stream it went to; [visualizer]
    the module's [DebugFlowVisualizer] instance.  [api_log] is a ghost field
    that no function reads: the reports executed so far. *)
Record state := mk_state {
  globals : gmap string value;
  locals : option (gmap string value);
  output : list (string * string);
  visualizer : DebugFlowVisualizer.t;
  api_log : list report
}.

Definition set_visualizer (g : DebugFlowVisualizer.t) (σ : state) : state :=
  {| globals := globals σ; locals := locals σ; output := output σ;
     visualizer := g; api_log := api_log σ |}.

(** A computation ends with a value, with a Python exception (its class
    name; ["Unsupported"] marks what the evaluator does not cover), or runs
    out of fuel. *)
Inductive result (A : Type) :=
| Ok (a : A) (σ : state)
| Raise (exc : string) (σ : state)
| OutOfFuel.
Arguments Ok {A} a σ.
Arguments Raise {A} exc σ.
Arguments OutOfFuel {A}.

Definition M (A : Type) : Type := state → result A.

#[global] Instance M_ret : MRet M := λ A a σ, Ok a σ.
#[global] Instance M_bind : MBind M := λ A B f m σ,
  match m σ with
  | Ok a σ' => f a σ'
  | Raise exc σ' => Raise exc σ'
  | OutOfFuel => OutOfFuel
  end.

Definition raise {A} (exc : string) : M A := λ σ, Raise exc σ.
Definition out_of_fuel {A} : M A := λ _, OutOfFuel.

Definition from_option {A} (exc : string) (o : option A) : M A :=
  match o with Some a => mret a | None => raise exc end.

(** Names defined by the interpreter rather than by the module. *)
Definition builtins (id : string) : option value :=
  if bool_decide (id = "print") then Some (VBuiltin "print") else None.

Definition lookup_name (id : string) : M value := λ σ,
  let found :=
    match locals σ ≫= (.!! id) with
    | Some v => Some v
    | None =>
      match globals σ !! id with
      | Some v => Some v
      | None => builtins id
      end
    end in
  match found with Some v => Ok v σ | None => Raise "NameError" σ end.

Definition store_name (id : string) (v : value) : M () := λ σ,
  match locals σ with
  | Some frame =>
    Ok () {| globals := globals σ; locals := Some (<[id:=v]> frame);
             output := output σ; visualizer := visualizer σ;
             api_log := api_log σ |}
  | None =>
    Ok () {| globals := <[id:=v]> (globals σ); locals := None;
             output := output σ; visualizer := visualizer σ;
             api_log := api_log σ |}
  end.

Definition get_locals : M (option (gmap string value)) := λ σ, Ok (locals σ) σ.

Definition set_locals (frame : option (gmap string value)) : M () := λ σ,
  Ok () {| globals := globals σ; locals := frame; output := output σ;
           visualizer := visualizer σ; api_log := api_log σ |}.

Definition write (stream text : string) : M () := λ σ,
  Ok () {| globals := globals σ; locals := locals σ;
           output := output σ ++ [(stream, text)];
           visualizer := visualizer σ; api_log := api_log σ |}.

(** A method call on the module's [visualizer] object. *)
Definition on_visualizer (method : DebugFlowVisualizer.t → DebugFlowVisualizer.t)
    : M () := λ σ, Ok () (set_visualizer (method (visualizer σ)) σ).

(** Ghost: record an executed report. *)
Definition log (r : report) : M () := λ σ,
  Ok () {| globals := globals σ; locals := locals σ; output := output σ;
           visualizer := visualizer σ; api_log := api_log σ ++ [r] |}.

(** ** Built-in operations of the evaluator *)

Section builtins.
Context `{PyText}.

Fixpoint kw_lookup (key : string) (kwargs : kwargs_t) : option value :=
  match kwargs with
  | [] => None
  | (k, v) :: rest => if bool_decide (k = key) then Some v else kw_lookup key rest
  end.

(** Binding of call arguments to the parameters of a function without
    defaults: positional arguments first, the rest by keyword; [None] is
    Python's [TypeError] for a wrong call. *)
Definition bind_params (params : list string) (args : list value)
    (kwargs : kwargs_t) : option (list (string * value)) :=
  if bool_decide (length args ≤ length params) then
    let named := drop (length args) params in
    if forallb (λ kv, bool_decide (kv.1 ∈ named)) kwargs then
      rest ← mapM (λ p, v ← kw_lookup p kwargs; Some (p, v)) named;
      Some (zip (take (length args) params) args ++ rest)
    else None
  else None.

(** [func.__name__]; [functools.wraps] gives a wrapper the name of the
    function it wraps. *)
Fixpoint get_name (func : value) : option string :=
  match func with
  | VFunction name _ _ => Some name
  | VBuiltin name => Some name
  | VWrapper func => get_name func
  | VConditionWrapper _ func => get_name func
  | _ => None
  end.

Definition truthy (v : value) : bool :=
  match v with
  | VNone => false
  | VBool b => b
  | VInt z => bool_decide (z ≠ 0%Z)
  | VStr s => bool_decide (s ≠ "")
  | VList items | VTuple items => match items with [] => false | _ => true end
  | _ => true
  end.

Definition constant_value (c : ast.constant) : value :=
  match c with
  | ast.CNone => VNone
  | ast.CBool b => VBool b
  | ast.CInt z => VInt z
  | ast.CStr s => VStr s
  end.

Definition as_int (v : value) : option Z :=
  match v with
  | VInt z => Some z
  | VBool b => Some (if b then 1 else 0)%Z
  | _ => None
  end.

Definition binop (op : ast.operator) (a b : value) : M value :=
  match op, a, b with
  | ast.Add, VStr x, VStr y => mret (VStr (x +:+ y))
  | ast.Add, VList x, VList y => mret (VList (x ++ y))
  | _, _, _ =>
    match as_int a, as_int b with
    | Some x, Some y =>
      mret (VInt match op with
                 | ast.Add => x + y
                 | ast.Sub => x - y
                 | ast.Mult => x * y
                 end%Z)
    | _, _ => raise "Unsupported"
    end
  end.

Definition compare (op : ast.cmpop) (a b : value) : M value :=
  match as_int a, as_int b with
  | Some x, Some y =>
    mret (VBool match op with
                | ast.Eq => bool_decide (x = y)
                | ast.NotEq => bool_decide (x ≠ y)
                | ast.Lt => bool_decide (x < y)%Z
                | ast.LtE => bool_decide (x ≤ y)%Z
                | ast.Gt => bool_decide (y < x)%Z
                | ast.GtE => bool_decide (y ≤ x)%Z
                end)
  | _, _ => raise "Unsupported"
  end.

Definition getattr (v : value) (attr : string) : M value :=
  match v with
  | VModule name =>
    if bool_decide (name = "sys" ∧ attr = "stdout") then mret (VStream "stdout")
    else if bool_decide (name = "sys" ∧ attr = "stderr") then mret (VStream "stderr")
    else raise "Unsupported"
  | _ => raise "Unsupported"
  end.

Definition getitem (v index : value) : M value :=
  match v, index with
  | VList items, VInt i | VTuple items, VInt i =>
    let k := (if bool_decide (i < 0) then Z.of_nat (length items) + i else i)%Z in
    if bool_decide (0 ≤ k)%Z
    then from_option "IndexError" (items !! Z.to_nat k)
    else raise "IndexError"
  | _, _ => raise "Unsupported"
  end.

(** The items a [for] loop or an unpacking draws from a value. *)
Definition iterate (v : value) : M (list value) :=
  match v with
  | VList items | VTuple items => mret items
  | VStr s => mret ((λ c, VStr (String c EmptyString)) <$> String.list_ascii_of_string s)
  | _ => raise "TypeError"
  end.

(** Python's [print], called with positional arguments and the keywords
    [sep], [end], [file] and [flush]: the [str] of
    the arguments, joined by [sep] and followed by [end], goes to [file]
    (to [sys.stdout] by default). *)
Definition print_text_option (key default : string) (kwargs : kwargs_t)
    : option string :=
  match kw_lookup key kwargs with
  | None | Some VNone => Some default
  | Some (VStr s) => Some s
  | Some _ => None
  end.

Definition print_file (kwargs : kwargs_t) : option string :=
  match kw_lookup "file" kwargs with
  | None | Some VNone => Some "stdout"
  | Some (VStream name) => Some name
  | Some _ => None
  end.

Definition py_print (args : list value) (kwargs : kwargs_t) : M value :=
  if forallb (λ kv, bool_decide (kv.1 ∈ ["sep"; "end"; "file"; "flush"])) kwargs
  then
    sep ← from_option "TypeError" (print_text_option "sep" " " kwargs);
    end_ ← from_option "TypeError" (print_text_option "end" newline kwargs);
    file ← from_option "AttributeError" (print_file kwargs);
    write file (join sep (py_str <$> args) +:+ end_);;
    mret VNone
  else raise "TypeError".

End builtins.

(** ** The runtime API *)

Section runtime_api.
Context `{PyText}.

#[local] Abbreviation call_t := (value → list value → kwargs_t → M value).

(** [debug_function(func)] returns the closure [wrapper]. *)
Definition debug_function (func : value) : M value := mret (VWrapper func).

(** The body of [wrapper] in [debug_function]; [call] calls [func]. *)
Definition debug_function_wrapper (call : call_t) (func : value)
    (args : list value) (kwargs : kwargs_t) : M value :=
  func_name ← from_option "AttributeError" (get_name func);
  log (function_enter func_name args kwargs);;
  on_visualizer (DebugFlowVisualizer.start_function func_name args kwargs);;
  result ← call func args kwargs;
  log (function_exit result);;
  on_visualizer (DebugFlowVisualizer.end_function result);;
  mret result.

Definition debug_loop (loop_info : value) : M value :=
  log (loop_start loop_info);;
  on_visualizer (DebugFlowVisualizer.start_loop loop_info);;
  mret VNone.

Definition debug_loop_iteration (iteration : value) : M value :=
  log (loop_iterate iteration);;
  on_visualizer (DebugFlowVisualizer.loop_iteration iteration);;
  mret VNone.

Definition debug_loop_end : M value :=
  log loop_end;;
  on_visualizer DebugFlowVisualizer.end_loop;;
  mret VNone.

(** [debug_condition(condition)] only builds and returns the closure
    [decorator]; it calls no method of the visualizer. *)
Definition debug_condition (condition : value) : M value :=
  log (condition_call condition);;
  mret (VConditionDecorator condition).

(** [decorator(func)] returns the closure [wrapper] of [debug_condition]. *)
Definition debug_condition_decorator (condition func : value) : M value :=
  mret (VConditionWrapper condition func).

(** The body of [wrapper] in [debug_condition]. *)
Definition debug_condition_wrapper (call : call_t) (condition func : value)
    (args : list value) (kwargs : kwargs_t) : M value :=
  result ← call func args kwargs;
  log (condition_result condition result);;
  on_visualizer (DebugFlowVisualizer.add_condition condition result);;
  mret result.

Definition debug_variable (var_name val : value) : M value :=
  log (variable_bound var_name val);;
  on_visualizer (DebugFlowVisualizer.add_variable var_name val);;
  mret VNone.

Definition debug_print (args : list value) (kwargs : kwargs_t) : M value :=
  let content := join " " (py_repr <$> args) in
  log (print_call args kwargs);;
  on_visualizer (DebugFlowVisualizer.add_print content);;
  py_print args kwargs.

Definition debug_if_branch (condition branch : value) : M value :=
  log (if_branch condition branch);;
  on_visualizer (DebugFlowVisualizer.add_if_branch condition branch);;
  mret VNone.

(** The names the module [debug_analizer] defines for the programs it runs:
    [exec(modified_code, globals())] runs them in this namespace. *)
Definition module_globals : gmap string value :=
  list_to_map
    [("sys", VModule "sys");
     ("debug_function", VBuiltin "debug_function");
     ("debug_loop", VBuiltin "debug_loop");
     ("debug_loop_iteration", VBuiltin "debug_loop_iteration");
     ("debug_loop_end", VBuiltin "debug_loop_end");
     ("debug_condition", VBuiltin "debug_condition");
     ("debug_variable", VBuiltin "debug_variable");
     ("debug_print", VBuiltin "debug_print");
     ("debug_if_branch", VBuiltin "debug_if_branch")].

(** The state of the process when [__main__] starts: [visualizer =
    DebugFlowVisualizer()]. *)
Definition initial_state : state :=
  {| globals := module_globals; locals := None; output := [];
     visualizer := DebugFlowVisualizer.init; api_log := [] |}.

(** A call of one of the functions above or of [print], by name. *)
Definition call_builtin (name : string) (args : list value) (kwargs : kwargs_t)
    : M value :=
  if bool_decide (name = "print") then py_print args kwargs
  else if bool_decide (name = "debug_print") then debug_print args kwargs
  else if bool_decide (name = "debug_function") then
    match bind_params ["func"] args kwargs with
    | Some [(_, func)] => debug_function func
    | _ => raise "TypeError"
    end
  else if bool_decide (name = "debug_loop") then
    match bind_params ["loop_info"] args kwargs with
    | Some [(_, loop_info)] => debug_loop loop_info
    | _ => raise "TypeError"
    end
  else if bool_decide (name = "debug_loop_iteration") then
    match bind_params ["iteration"] args kwargs with
    | Some [(_, iteration)] => debug_loop_iteration iteration
    | _ => raise "TypeError"
    end
  else if bool_decide (name = "debug_loop_end") then
    match bind_params [] args kwargs with
    | Some [] => debug_loop_end
    | _ => raise "TypeError"
    end
  else if bool_decide (name = "debug_condition") then
    match bind_params ["condition"] args kwargs with
    | Some [(_, condition)] => debug_condition condition
    | _ => raise "TypeError"
    end
  else if bool_decide (name = "debug_variable") then
    match bind_params ["var_name"; "value"] args kwargs with
    | Some [(_, var_name); (_, val)] => debug_variable var_name val
    | _ => raise "TypeError"
    end
  else if bool_decide (name = "debug_if_branch") then
    match bind_params ["condition"; "branch"] args kwargs with
    | Some [(_, condition); (_, branch)] => debug_if_branch condition branch
    | _ => raise "TypeError"
    end
  else raise "Unsupported".

End runtime_api.

(** ** The tree transformer *)

(** [ast.NodeTransformer.visit] dispatches on the class of the node: to the
    [visit_] method of that class when [DebugTransformer] has one, to
    [generic_visit] otherwise, which visits the children and puts the results
    in their place.  A statement visitor may return a list, which is spliced
    into the enclosing body, so [visit_stmt] returns a list. *)
Module DebugTransformer.
Section with_text.
Context `{PyText}.

(** [ast.Expr(ast.Call(func=ast.Name(id=f), args=args, keywords=[]))] *)
Definition report_stmt (f : string) (args : list ast.expr) : ast.stmt :=
  ast.Expr (ast.Call (ast.Name f) args []).

(** [visit_Call] does not call [generic_visit]: the children of a call are
    not visited. *)
Definition visit_Call (node : ast.expr) : ast.expr :=
  match node with
  | ast.Call (ast.Name id) args keywords =>
    if bool_decide (id = "print")
    then ast.Call (ast.Name "debug_print") args keywords
    else node
  | _ => node
  end.

Fixpoint visit_expr (node : ast.expr) : ast.expr :=
  match node with
  | ast.Call _ _ _ => visit_Call node
  | ast.Constant _ | ast.Name _ => node
  | ast.List elts => ast.List (map visit_expr elts)
  | ast.Tuple elts => ast.Tuple (map visit_expr elts)
  | ast.BinOp lhs op rhs => ast.BinOp (visit_expr lhs) op (visit_expr rhs)
  | ast.Compare lhs op rhs => ast.Compare (visit_expr lhs) op (visit_expr rhs)
  | ast.Attribute value attr => ast.Attribute (visit_expr value) attr
  | ast.Subscript value slice =>
    ast.Subscript (visit_expr value) (visit_expr slice)
  end.

(** The argument of the [debug_loop_iteration] call is the very object
    [node.target].  [generic_visit] then visits the [target] field of the
    loop: a node that is not a call is rewritten in place, which the argument
    sees; the inserted call itself is not descended into. *)
Definition loop_iteration_arg (target : ast.expr) : ast.expr :=
  match target with
  | ast.Call _ _ _ => target
  | _ => visit_expr target
  end.

(** [new_body] of [visit_For], before [generic_visit]. *)
Definition For_new_body (loop_info : string) (target : ast.expr)
    (body : list ast.stmt) : list ast.stmt :=
  [report_stmt "debug_loop" [ast.Constant (ast.CStr loop_info)];
   report_stmt "debug_loop_iteration" [target]]
  ++ body ++ [report_stmt "debug_loop_end" []].

(** [new_body] and [new_orelse] of [visit_If], before [generic_visit]. *)
Definition If_new_body (condition : string) (body : list ast.stmt)
    : list ast.stmt :=
  [report_stmt "debug_condition" [ast.Constant (ast.CStr condition)];
   report_stmt "debug_if_branch"
     [ast.Constant (ast.CStr condition); ast.Constant (ast.CStr "True")]]
  ++ body.

Definition If_new_orelse (condition : string) (orelse : list ast.stmt)
    : list ast.stmt :=
  match orelse with
  | [] => []
  | _ =>
    report_stmt "debug_if_branch"
      [ast.Constant (ast.CStr condition); ast.Constant (ast.CStr "False")]
    :: orelse
  end.

Definition visit_Assign (node : ast.stmt) : list ast.stmt :=
  match node with
  | ast.Assign (ast.Name var_name) _ _ =>
    [node;
     report_stmt "debug_variable"
       [ast.Constant (ast.CStr var_name); ast.Name var_name]]
  | _ => [node]
  end.

(** The visit of a statement.  In [visit_For] and [visit_If] the recursion
    is written on the original body: visiting an inserted report statement
    returns it unchanged ([visit_report_stmt] below), so this is the visit of
    [For_new_body], [If_new_body] and [If_new_orelse]
    ([visit_For_generic_visit], [visit_If_generic_visit]). *)
Fixpoint visit_stmt (node : ast.stmt) : list ast.stmt :=
  match node with
  | ast.FunctionDef name args body decorator_list =>
    [ast.FunctionDef name args (flat_map visit_stmt body)
       (map visit_expr (decorator_list ++ [ast.Name "debug_function"]))]
  | ast.For target iter body orelse =>
    let loop_info := ast_unparse target +:+ " in " +:+ ast_unparse iter in
    [ast.For (visit_expr target) (visit_expr iter)
       (For_new_body loop_info (loop_iteration_arg target)
          (flat_map visit_stmt body))
       (flat_map visit_stmt orelse)]
  | ast.If test body orelse =>
    let condition := ast_unparse test in
    [ast.If (visit_expr test)
       (If_new_body condition (flat_map visit_stmt body))
       (If_new_orelse condition (flat_map visit_stmt orelse))]
  | ast.Assign _ _ _ => visit_Assign node
  | ast.While test body orelse =>
    [ast.While (visit_expr test) (flat_map visit_stmt body)
       (flat_map visit_stmt orelse)]
  | ast.Expr value => [ast.Expr (visit_expr value)]
  | ast.Return value => [ast.Return (visit_expr <$> value)]
  | ast.Pass => [ast.Pass]
  end.

(** [generic_visit] of a list of statements. *)
Definition visit_block (body : list ast.stmt) : list ast.stmt :=
  flat_map visit_stmt body.

(** [transformer.visit(tree)] for the module [tree]. *)
Definition visit_Module (body : list ast.stmt) : list ast.stmt :=
  visit_block body.

End with_text.
End DebugTransformer.

(** ** Evaluation of programs *)

(** [exec] of a program of the fragment.  The rewritten tree is run as it
    is: [ast.unparse] followed by compilation is taken to give back the same
    program.  Fuel bounds the nesting of evaluation steps. *)
Inductive outcome :=
| Normal
| Returned (v : value).

Section evaluation.
Context `{PyText}.

#[local] Abbreviation eval_t := (ast.expr → M value).
#[local] Abbreviation exec_t := (ast.stmt → M outcome).
#[local] Abbreviation call_t := (value → list value → kwargs_t → M value).

(** The statements of a body, in order, until one returns. *)
Fixpoint exec_block (exec : exec_t) (body : list ast.stmt) : M outcome :=
  match body with
  | [] => mret Normal
  | s :: rest =>
    out ← exec s;
    match out with
    | Normal => exec_block exec rest
    | Returned _ => mret out
    end
  end.

(** One round of a [for] loop per item, until one returns. *)
Fixpoint for_each (round : value → M outcome) (items : list value) : M outcome :=
  match items with
  | [] => mret Normal
  | item :: rest =>
    out ← round item;
    match out with
    | Normal => for_each round rest
    | Returned _ => mret out
    end
  end.

Definition assign_name (target : ast.expr) (v : value) : M () :=
  match target with
  | ast.Name id => store_name id v
  | _ => raise "Unsupported"
  end.

(** Binding of an assignment target: a name, or a tuple or list of names
    that unpacks the value. *)
Definition assign (target : ast.expr) (v : value) : M () :=
  match target with
  | ast.Name id => store_name id v
  | ast.Tuple elts | ast.List elts =>
    items ← iterate v;
    if bool_decide (length elts = length items)
    then mapM (λ p, assign_name p.1 p.2) (zip elts items);; mret ()
    else raise "ValueError"
  | _ => raise "Unsupported"
  end.

(** Decorators are applied from the last one to the first. *)
Definition apply_decorators (call : call_t) (decorators : list value)
    (func : value) : M value :=
  foldr (λ d acc, f ← acc; call d [f] []) (mret func) decorators.

Definition eval_expr_body (eval : eval_t) (call : call_t) (e : ast.expr)
    : M value :=
  match e with
  | ast.Constant c => mret (constant_value c)
  | ast.Name id => lookup_name id
  | ast.Call func args keywords =>
    f ← eval func;
    vargs ← mapM eval args;
    vkwargs ← mapM (λ kw, v ← eval kw.2; mret (kw.1, v)) keywords;
    call f vargs vkwargs
  | ast.List elts => items ← mapM eval elts; mret (VList items)
  | ast.Tuple elts => items ← mapM eval elts; mret (VTuple items)
  | ast.BinOp lhs op rhs => a ← eval lhs; b ← eval rhs; binop op a b
  | ast.Compare lhs op rhs => a ← eval lhs; b ← eval rhs; compare op a b
  | ast.Attribute value attr => v ← eval value; getattr v attr
  | ast.Subscript value slice => v ← eval value; i ← eval slice; getitem v i
  end.

Definition exec_stmt_body (eval : eval_t) (exec : exec_t) (call : call_t)
    (s : ast.stmt) : M outcome :=
  match s with
  | ast.FunctionDef name args body decorator_list =>
    decorators ← mapM eval decorator_list;
    func ← apply_decorators call decorators (VFunction name args body);
    store_name name func;;
    mret Normal
  | ast.For target iter body orelse =>
    v ← eval iter;
    items ← iterate v;
    out ← for_each (λ item, assign target item;; exec_block exec body) items;
    match out with
    | Normal => exec_block exec orelse
    | Returned _ => mret out
    end
  | ast.While test body orelse =>
    v ← eval test;
    if truthy v then
      out ← exec_block exec body;
      match out with
      | Normal => exec s
      | Returned _ => mret out
      end
    else exec_block exec orelse
  | ast.If test body orelse =>
    v ← eval test;
    if truthy v then exec_block exec body else exec_block exec orelse
  | ast.Assign target0 targets value =>
    v ← eval value;
    assign target0 v;;
    mapM (λ target, assign target v) targets;;
    mret Normal
  | ast.Expr value => eval value;; mret Normal
  | ast.Return None => mret (Returned VNone)
  | ast.Return (Some value) => v ← eval value; mret (Returned v)
  | ast.Pass => mret Normal
  end.

Definition call_value_body (exec : exec_t) (call : call_t) (f : value)
    (args : list value) (kwargs : kwargs_t) : M value :=
  match f with
  | VFunction name params body =>
    bound ← from_option "TypeError" (bind_params params args kwargs);
    caller ← get_locals;
    set_locals (Some (list_to_map bound));;
    out ← exec_block exec body;
    set_locals caller;;
    mret (match out with Returned v => v | Normal => VNone end)
  | VBuiltin name => call_builtin name args kwargs
  | VWrapper func => debug_function_wrapper call func args kwargs
  | VConditionDecorator condition =>
    match bind_params ["func"] args kwargs with
    | Some [(_, func)] => debug_condition_decorator condition func
    | _ => raise "TypeError"
    end
  | VConditionWrapper condition func =>
    debug_condition_wrapper call condition func args kwargs
  | _ => raise "TypeError"
  end.

Fixpoint eval_expr (fuel : nat) (e : ast.expr) : M value :=
  match fuel with
  | 0 => out_of_fuel
  | S n => eval_expr_body (eval_expr n) (call_value n) e
  end
with exec_stmt (fuel : nat) (s : ast.stmt) : M outcome :=
  match fuel with
  | 0 => out_of_fuel
  | S n => exec_stmt_body (eval_expr n) (exec_stmt n) (call_value n) s
  end
with call_value (fuel : nat) (f : value) (args : list value)
    (kwargs : kwargs_t) : M value :=
  match fuel with
  | 0 => out_of_fuel
  | S n => call_value_body (exec_stmt n) (call_value n) f args kwargs
  end.

(** [exec(code, globals())] for the code of the tree [body]. *)
Definition exec_module (fuel : nat) (body : list ast.stmt) : M outcome :=
  exec_block (exec_stmt fuel) body.

(** [DebugFlowVisualizer.instrument_file]; [files] maps the names of the
    readable files to their contents. *)
Definition instrument_file (fuel : nat) (files : gmap string string)
    (filename : string) : M () :=
  match files !! filename with
  | None => raise "FileNotFoundError"
  | Some source =>
    match ast_parse source with
    | None => raise "SyntaxError"
    | Some tree =>
      let modified_tree := DebugTransformer.visit_Module tree in
      exec_module fuel modified_tree;;
      mret ()
    end
  end.

End evaluation.

(** ** A concrete text instance and example programs *)

(** [repr], [str] and [ast.unparse] on plain data, for running examples:
    integers, [None], booleans, strings without quotes, backslashes or
    control characters, and lists and tuples of these print as in Python.
    A function prints without its address.  Operands of operators are
    printed without parentheses, which is Python's output when they are
    names or constants. *)
Module data.

Definition tuple_text (parts : list string) : string :=
  match parts with
  | [p] => "(" +:+ p +:+ ",)"
  | _ => "(" +:+ join ", " parts +:+ ")"
  end.

Fixpoint repr (v : value) : string :=
  match v with
  | VNone => "None"
  | VBool b => if b then "True" else "False"
  | VInt z => pretty z
  | VStr s => "'" +:+ s +:+ "'"
  | VList items => "[" +:+ join ", " (map repr items) +:+ "]"
  | VTuple items => tuple_text (map repr items)
  | VFunction name _ _ => "<function " +:+ name +:+ ">"
  | VBuiltin name => "<built-in function " +:+ name +:+ ">"
  | VWrapper func => repr func
  | VConditionDecorator _ => "<function debug_condition.<locals>.decorator>"
  | VConditionWrapper _ func => repr func
  | VStream name => "<" +:+ name +:+ ">"
  | VModule name => "<module '" +:+ name +:+ "'>"
  end.

Definition str (v : value) : string :=
  match v with
  | VStr s => s
  | _ => repr v
  end.

Definition operator_text (op : ast.operator) : string :=
  match op with ast.Add => "+" | ast.Sub => "-" | ast.Mult => "*" end.

Definition cmpop_text (op : ast.cmpop) : string :=
  match op with
  | ast.Eq => "==" | ast.NotEq => "!=" | ast.Lt => "<"
  | ast.LtE => "<=" | ast.Gt => ">" | ast.GtE => ">="
  end.

Fixpoint unparse (e : ast.expr) : string :=
  match e with
  | ast.Constant c => repr (constant_value c)
  | ast.Name id => id
  | ast.Call func args keywords =>
    unparse func +:+ "("
    +:+ join ", " (map unparse args
                   ++ map (λ kw, kw.1 +:+ "=" +:+ unparse kw.2) keywords)
    +:+ ")"
  | ast.List elts => "[" +:+ join ", " (map unparse elts) +:+ "]"
  | ast.Tuple elts => tuple_text (map unparse elts)
  | ast.BinOp lhs op rhs =>
    unparse lhs +:+ " " +:+ operator_text op +:+ " " +:+ unparse rhs
  | ast.Compare lhs op rhs =>
    unparse lhs +:+ " " +:+ cmpop_text op +:+ " " +:+ unparse rhs
  | ast.Attribute value attr => unparse value +:+ "." +:+ attr
  | ast.Subscript value slice => unparse value +:+ "[" +:+ unparse slice +:+ "]"
  end.

(** A parser for the programs that consist of [pass] statements, one per
    line; any other text is a syntax error. *)
Fixpoint parse_lines (lines : list string) : option (list ast.stmt) :=
  match lines with
  | [] => Some []
  | line :: rest =>
    if bool_decide (line = "pass")
    then (ast.Pass ::.) <$> parse_lines rest
    else if bool_decide (line = "") then parse_lines rest
    else None
  end.

Fixpoint split_lines (current : string) (s : string) : list string :=
  match s with
  | EmptyString => [current]
  | String c rest =>
    if bool_decide (c = Ascii.ascii_of_nat 10)
    then current :: split_lines "" rest
    else split_lines (current +:+ String c EmptyString) rest
  end.

Definition parse (source : string) : option (list ast.stmt) :=
  parse_lines (split_lines "" source).

Definition text : PyText :=
  {| py_repr := repr; py_str := str; py_str_VStr := λ _, eq_refl;
     ast_unparse := unparse; ast_parse := parse |}.

End data.

Module programs.

Definition int (z : Z) : ast.expr := ast.Constant (ast.CInt z).
Definition text (s : string) : ast.expr := ast.Constant (ast.CStr s).

(** [for i in [1, 2, 3]: x = i] *)
Definition loop3 : list ast.stmt :=
  [ast.For (ast.Name "i") (ast.List [int 1; int 2; int 3])
     [ast.Assign (ast.Name "x") [] (ast.Name "i")] []].

(** [x = 5], then [if x > 0: y = 1] with [else: y = 2] *)
Definition branch : list ast.stmt :=
  [ast.Assign (ast.Name "x") [] (int 5);
   ast.If (ast.Compare (ast.Name "x") ast.Gt (int 0))
     [ast.Assign (ast.Name "y") [] (int 1)]
     [ast.Assign (ast.Name "y") [] (int 2)]].

(** [if True: pass] *)
Definition if_pass : list ast.stmt :=
  [ast.If (ast.Constant (ast.CBool true)) [ast.Pass] []].

(** [def greet(): print('hi')], then [greet()] *)
Definition call_greet : list ast.stmt :=
  [ast.FunctionDef "greet" []
     [ast.Expr (ast.Call (ast.Name "print") [text "hi"] [])] [];
   ast.Expr (ast.Call (ast.Name "greet") [] [])].

(** [a, b = 1, 2] *)
Definition tuple_assign : list ast.stmt :=
  [ast.Assign (ast.Tuple [ast.Name "a"; ast.Name "b"]) []
     (ast.Tuple [int 1; int 2])].

(** [a = b = 1] *)
Definition chained_assign : list ast.stmt :=
  [ast.Assign (ast.Name "a") [ast.Name "b"] (int 1)].

(** [x = print('hi')] *)
Definition assigned_print : list ast.stmt :=
  [ast.Assign (ast.Name "x") []
     (ast.Call (ast.Name "print") [text "hi"] [])].

(** The instrumented program, run in a fresh process. *)
Definition run (program : list ast.stmt) : result outcome :=
  @exec_module data.text 30
    (@DebugTransformer.visit_Module data.text program) initial_state.

End programs.

(** ** Notions the statements use *)

Section notions.
Context `{PyText}.

(** What an executed report does to the builder: the table of the runtime
    API, entry point by entry point. *)
Definition report_effect (r : report)
    : DebugFlowVisualizer.t → DebugFlowVisualizer.t :=
  match r with
  | function_enter func_name args kwargs =>
    DebugFlowVisualizer.start_function func_name args kwargs
  | function_exit result => DebugFlowVisualizer.end_function result
  | loop_start loop_info => DebugFlowVisualizer.start_loop loop_info
  | loop_iterate iteration => DebugFlowVisualizer.loop_iteration iteration
  | loop_end => DebugFlowVisualizer.end_loop
  | condition_call _ => id
  | condition_result condition result =>
    DebugFlowVisualizer.add_condition condition result
  | variable_bound var_name val => DebugFlowVisualizer.add_variable var_name val
  | print_call args _ =>
    DebugFlowVisualizer.add_print (join " " (py_repr <$> args))
  | if_branch condition branch =>
    DebugFlowVisualizer.add_if_branch condition branch
  end.

(** The state once the report [r] has been executed. *)
Definition after_report (r : report) (σ : state) : state :=
  {| globals := globals σ; locals := locals σ; output := output σ;
     visualizer := report_effect r (visualizer σ);
     api_log := api_log σ ++ [r] |}.

(** The label of the node a report creates, if it creates one. *)
Definition report_label (r : report) : option string :=
  match r with
  | function_enter func_name args kwargs =>
    Some ("Function: " +:+ func_name +:+ "("
          +:+ join ", " (((λ kv, kv.1 +:+ "=" +:+ py_repr kv.2) <$> kwargs)
                         ++ (py_repr <$> args)) +:+ ")")
  | function_exit result => Some ("Return: " +:+ py_repr result)
  | loop_start loop_info => Some ("Loop Start: " +:+ py_str loop_info)
  | loop_iterate iteration => Some ("Loop Iteration: " +:+ py_str iteration)
  | loop_end => Some "Loop End"
  | condition_call _ => None
  | condition_result condition result =>
    Some (DebugFlowVisualizer.stored_label
            ("Condition: " +:+ py_str condition) result)
  | variable_bound var_name val =>
    Some ("Variable: " +:+ py_str var_name +:+ " = " +:+ py_repr val)
  | print_call args _ => Some ("Print: " +:+ join " " (py_repr <$> args))
  | if_branch condition branch =>
    Some ("If Branch: " +:+ py_str condition +:+ newline +:+ "Taken: "
          +:+ py_str branch)
  end.

(** The state a result ends in, if it ends. *)
Definition final_state {A} (r : result A) : option state :=
  match r with
  | Ok _ σ | Raise _ σ => Some σ
  | OutOfFuel => None
  end.

(** The result [r] with [f] applied to the state it ends in. *)
Definition map_state {A} (f : state → state) (r : result A) : result A :=
  match r with
  | Ok a σ => Ok a (f σ)
  | Raise exc σ => Raise exc (f σ)
  | OutOfFuel => OutOfFuel
  end.

Definition replay_reports (rs : list report) (g : DebugFlowVisualizer.t)
    : DebugFlowVisualizer.t :=
  foldl (λ g r, report_effect r g) g rs.

(** A computation that always ends and neither reads nor changes the
    builder and the log. *)
Definition quiet {A} (m : M A) : Prop :=
  ∀ σ, m σ ≠ OutOfFuel
    ∧ (∀ g, m (set_visualizer g σ) = map_state (set_visualizer g) (m σ))
    ∧ (∀ σ', final_state (m σ) = Some σ' →
         api_log σ' = api_log σ ∧ visualizer σ' = visualizer σ).

(** A computation that does not read the builder: started with another
    builder [g] it does the same, and it leaves [g] changed by the reports
    it executes, in order; these are what it appends to the log. *)
Definition oblivious {A} (m : M A) : Prop :=
  ∀ σ, ∃ rs,
    (∀ g, m (set_visualizer g σ)
          = map_state (set_visualizer (replay_reports rs g)) (m σ))
    ∧ (∀ σ', final_state (m σ) = Some σ' → api_log σ' = api_log σ ++ rs).

(** The state once [id] has been bound to [v]: in the frame of the running
    function if there is one, in the module namespace otherwise. *)
Definition with_name (id : string) (v : value) (σ : state) : state :=
  match locals σ with
  | Some frame =>
    {| globals := globals σ; locals := Some (<[id:=v]> frame);
       output := output σ; visualizer := visualizer σ; api_log := api_log σ |}
  | None =>
    {| globals := <[id:=v]> (globals σ); locals := None;
       output := output σ; visualizer := visualizer σ; api_log := api_log σ |}
  end.

(** The names of the runtime API that rewritten programs call. *)
Definition api_names : list string :=
  ["debug_function"; "debug_loop"; "debug_loop_iteration"; "debug_loop_end";
   "debug_condition"; "debug_variable"; "debug_print"; "debug_if_branch"].

(** The program has not rebound a name of the runtime API. *)
Definition api_bound (σ : state) : Prop :=
  ∀ f, f ∈ api_names → lookup_name f σ = Ok (VBuiltin f) σ.

(** The reports of one iteration of an instrumented loop whose body is the
    assignment of [val] to [x]. *)
Definition round_reports (loop_info x : string) (item val : value)
    : list report :=
  [loop_start (VStr loop_info); loop_iterate item;
   variable_bound (VStr x) val; loop_end].

End notions.

(** ** The shape of an instrumented tree *)

Section shapes.

(** [s] is an expression statement that calls the name [f]. *)
Definition is_call_stmt (f : string) (s : ast.stmt) : bool :=
  match s with
  | ast.Expr (ast.Call (ast.Name g) _ _) => bool_decide (g = f)
  | _ => false
  end.

(** Every construct of the statement, at any depth, carries its
    instrumentation: a function definition has [debug_function] as last
    decorator; the body of a [for] loop starts with the calls of
    [debug_loop] and [debug_loop_iteration] and ends with the call of
    [debug_loop_end]; the body of a conditional starts with the calls of
    [debug_condition] and [debug_if_branch], and its [else] part, if there
    is one, with the call of [debug_if_branch]. *)
Fixpoint traced (s : ast.stmt) : bool :=
  match s with
  | ast.FunctionDef _ _ body decorator_list =>
    match last decorator_list with
    | Some (ast.Name d) => bool_decide (d = "debug_function")
    | _ => false
    end
    && forallb traced body
  | ast.For _ _ body orelse =>
    match body with
    | r1 :: r2 :: rest =>
      is_call_stmt "debug_loop" r1
      && is_call_stmt "debug_loop_iteration" r2
      && match last rest with
         | Some r3 => is_call_stmt "debug_loop_end" r3
         | None => false
         end
    | _ => false
    end
    && forallb traced body && forallb traced orelse
  | ast.If _ body orelse =>
    match body with
    | r1 :: r2 :: _ =>
      is_call_stmt "debug_condition" r1 && is_call_stmt "debug_if_branch" r2
    | _ => false
    end
    && match orelse with
       | [] => true
       | r :: _ => is_call_stmt "debug_if_branch" r
       end
    && forallb traced body && forallb traced orelse
  | ast.While _ body orelse => forallb traced body && forallb traced orelse
  | _ => true
  end.

End shapes.

(** ** The command line *)

(** How the script ends: [sys.exit(status)], the call
    [visualizer.render(output_file)] (the renderer is outside the
    repository; [σ] holds the graph it is given), or an uncaught exception.
    [Unfinished] is a run that is out of fuel. *)
Inductive process_end :=
| Exit (status : Z) (σ : state)
| Render (output_file : string) (σ : state)
| Traceback (exc : string) (σ : state)
| Unfinished.

Section command_line.
Context `{PyText}.

Definition usage : string := "Usage: python debug_analizer.py <filename>".

(** The block under [if __name__ == "__main__"], for [sys.argv = argv]. *)
Definition main (fuel : nat) (files : gmap string string) (argv : list string)
    (σ : state) : process_end :=
  if bool_decide (length argv < 2) then
    match py_print [VStr usage] [] σ with
    | Ok _ σ' => Exit 1 σ'
    | Raise exc σ' => Traceback exc σ'
    | OutOfFuel => Unfinished
    end
  else
    match argv !! 1 with
    | Some filename =>
      match instrument_file fuel files filename σ with
      | Ok _ σ' => Render "debug_flow" σ'
      | Raise exc σ' => Traceback exc σ'
      | OutOfFuel => Unfinished
      end
    | None => Traceback "IndexError" σ
    end.

End command_line.

(** ** A program and its instrumented form, side by side *)

(** The names an instrumented program must leave alone: those of the
    runtime API, which the inserted calls look up in the shared module
    namespace, and [print], which [visit_Call] recognises by name. *)
Definition reserved : list string := "print" :: api_names.

(** The expression mentions none of [names]. *)
Fixpoint free_of (names : list string) (e : ast.expr) : bool :=
  match e with
  | ast.Constant _ => true
  | ast.Name id => bool_decide (id ∉ names)
  | ast.Call func args keywords =>
    free_of names func && forallb (free_of names) args
    && forallb (λ kw, free_of names kw.2) keywords
  | ast.List elts | ast.Tuple elts => forallb (free_of names) elts
  | ast.BinOp lhs _ rhs | ast.Compare lhs _ rhs =>
    free_of names lhs && free_of names rhs
  | ast.Attribute value _ => free_of names value
  | ast.Subscript value slice => free_of names value && free_of names slice
  end.

Definition is_name (e : ast.expr) : bool :=
  match e with ast.Name _ => true | _ => false end.

(** A statement that does not bind a reserved name (as a function, a
    parameter, a loop variable or an assignment target), does not read a
    name of the runtime API, and whose loops run over a plain variable. *)
Fixpoint clean (s : ast.stmt) : bool :=
  match s with
  | ast.FunctionDef name params body decorator_list =>
    bool_decide (name ∉ reserved)
    && forallb (λ p, bool_decide (p ∉ reserved)) params
    && forallb clean body
    && forallb (free_of api_names) decorator_list
  | ast.For target iter body orelse =>
    is_name target && free_of reserved target && free_of api_names iter
    && forallb clean body && forallb clean orelse
  | ast.While test body orelse | ast.If test body orelse =>
    free_of api_names test && forallb clean body && forallb clean orelse
  | ast.Assign target0 targets value =>
    free_of reserved target0 && forallb (free_of reserved) targets
    && free_of api_names value
  | ast.Expr value => free_of api_names value
  | ast.Return None => true
  | ast.Return (Some value) => free_of api_names value
  | ast.Pass => true
  end.

Section side_by_side.
Context `{PyText}.

(** A value of the original program and the value the instrumented program
    has in its place: the same data, and for a function the [wrapper] of
    [debug_function] around the function with the rewritten body. *)
Inductive value_rel : value → value → Prop :=
| value_rel_none : value_rel VNone VNone
| value_rel_bool b : value_rel (VBool b) (VBool b)
| value_rel_int z : value_rel (VInt z) (VInt z)
| value_rel_str s : value_rel (VStr s) (VStr s)
| value_rel_list l l' : Forall2 value_rel l l' → value_rel (VList l) (VList l')
| value_rel_tuple l l' :
    Forall2 value_rel l l' → value_rel (VTuple l) (VTuple l')
| value_rel_function name params body :
    forallb clean body = true →
    forallb (λ p, bool_decide (p ∉ reserved)) params = true →
    value_rel (VFunction name params body)
      (VWrapper (VFunction name params (DebugTransformer.visit_block body)))
| value_rel_print : value_rel (VBuiltin "print") (VBuiltin "print")
| value_rel_stream name : value_rel (VStream name) (VStream name)
| value_rel_module name : value_rel (VModule name) (VModule name).

Definition keyword_rel (a b : string * value) : Prop :=
  a.1 = b.1 ∧ value_rel a.2 b.2.

Inductive outcome_rel : outcome → outcome → Prop :=
| outcome_rel_normal : outcome_rel Normal Normal
| outcome_rel_returned v v' :
    value_rel v v' → outcome_rel (Returned v) (Returned v').

(** Frames of two running functions: the same variables with corresponding
    values, none of them reserved. *)
Definition frame_rel (lo li : gmap string value) : Prop :=
  ∀ x, option_Forall2 value_rel (lo !! x) (li !! x)
       ∧ (x ∈ reserved → lo !! x = None ∧ li !! x = None).

(** The state [σo] of the original program and the state [σi] of the
    instrumented one: the same output so far and corresponding bindings of
    every name but those of the runtime API, which [σi] binds to the API;
    [print] is not rebound.  The builder and the log are left free. *)
Record state_rel (σo σi : state) : Prop := {
  sr_globals : ∀ x, x ∉ api_names →
     option_Forall2 value_rel (globals σo !! x) (globals σi !! x);
  sr_api : ∀ f, f ∈ api_names → globals σi !! f = Some (VBuiltin f);
  sr_print : globals σo !! "print" = None;
  sr_locals : option_Forall2 frame_rel (locals σo) (locals σi);
  sr_output : output σo = output σi
}.

(** Two runs end alike: both return, or both raise the same exception, in
    corresponding states. *)
Definition result_rel {A B} (RA : A → B → Prop) (ro : result A)
    (ri : result B) : Prop :=
  match ro, ri with
  | Ok a σo, Ok b σi => RA a b ∧ state_rel σo σi
  | Raise e σo, Raise e' σi => e = e' ∧ state_rel σo σi
  | _, _ => False
  end.

(** From corresponding states, when the computation [o] ends, [i] ends
    alike whenever it is given enough fuel. *)
Definition simulates {A B} (RA : A → B → Prop) (o : M A) (i : nat → M B)
    : Prop :=
  ∀ σo σi, state_rel σo σi → o σo ≠ OutOfFuel →
    ∃ m ri, result_rel RA (o σo) ri ∧ ∀ k, m ≤ k → i k σi = ri.

(** [str] does not tell a function from its wrapper; [functools.wraps]
    gives both the same name. *)
Definition text_respects : Prop :=
  ∀ v v', value_rel v v' → py_str v = py_str v'.

(** Statements that only report: run in a state that satisfies [Q], they
    end normally and leave the program's view of the state as it was. *)
Definition reports_only (pre : list ast.stmt) (Q : state → Prop) : Prop :=
  ∀ σo σi, state_rel σo σi → Q σi →
    ∃ σi', state_rel σo σi'
      ∧ ∀ k, 3 ≤ k → exec_block (exec_stmt k) pre σi = Ok Normal σi'.

Definition is_bound (x : string) (σ : state) : Prop :=
  ∃ v, lookup_name x σ = Ok v σ.

(** The simulation, for the evaluations the original program does with
    fuel [n]: of an expression against itself, of an expression against its
    visit, of a statement against its visit, and of a call. *)
Definition sim_eval (n : nat) : Prop :=
  ∀ e, free_of api_names e = true →
    simulates value_rel (eval_expr n e) (λ k, eval_expr k e).

Definition sim_eval_visited (n : nat) : Prop :=
  ∀ e, free_of api_names e = true →
    simulates value_rel (eval_expr n e)
      (λ k, eval_expr k (DebugTransformer.visit_expr e)).

Definition sim_exec (n : nat) : Prop :=
  ∀ s, clean s = true →
    simulates outcome_rel (exec_stmt n s)
      (λ k, exec_block (exec_stmt k) (DebugTransformer.visit_stmt s)).

Definition sim_call (n : nat) : Prop :=
  ∀ f f' args args' kws kws',
    value_rel f f' → Forall2 value_rel args args' →
    Forall2 keyword_rel kws kws' →
    simulates value_rel (call_value n f args kws)
      (λ k, call_value k f' args' kws').

End side_by_side.

Module more_programs.

(** [def greet(name): print('hi', name); return name], then
    [for i in [1, 2]: greet(i)], [x = 5] and
    [if x > 3: y = greet(x)] with [else: y = 0]. *)
Definition greetings : list ast.stmt :=
  [ast.FunctionDef "greet" ["name"]
     [ast.Expr (ast.Call (ast.Name "print")
                  [programs.text "hi"; ast.Name "name"] []);
      ast.Return (Some (ast.Name "name"))] [];
   ast.For (ast.Name "i") (ast.List [programs.int 1; programs.int 2])
     [ast.Expr (ast.Call (ast.Name "greet") [ast.Name "i"] [])] [];
   ast.Assign (ast.Name "x") [] (programs.int 5);
   ast.If (ast.Compare (ast.Name "x") ast.Gt (programs.int 3))
     [ast.Assign (ast.Name "y") []
        (ast.Call (ast.Name "greet") [ast.Name "x"] [])]
     [ast.Assign (ast.Name "y") [] (programs.int 0)]].

End more_programs.

(** ** What a run writes *)

Section printing.
Context `{PyText}.

(** What a call of [print] writes, and where; [None] when the call raises. *)
Definition print_text (args : list value) (kwargs : kwargs_t)
    : option (string * string) :=
  if forallb (λ kv, bool_decide (kv.1 ∈ ["sep"; "end"; "file"; "flush"])) kwargs
  then
    sep ← print_text_option "sep" " " kwargs;
    end_ ← print_text_option "end" newline kwargs;
    file ← print_file kwargs;
    Some (file, join sep (py_str <$> args) +:+ end_)
  else None.

(** What the call behind a report writes: only [debug_print] calls
    [print]. *)
Definition written (r : report) : option (string * string) :=
  match r with
  | print_call args kwargs => print_text args kwargs
  | _ => None
  end.

End printing.

(** The statement does not read the name [print]. *)
Fixpoint print_free (s : ast.stmt) : bool :=
  match s with
  | ast.FunctionDef _ _ body decorator_list =>
    forallb print_free body && forallb (free_of ["print"]) decorator_list
  | ast.For _ iter body orelse =>
    free_of ["print"] iter && forallb print_free body
    && forallb print_free orelse
  | ast.While test body orelse | ast.If test body orelse =>
    free_of ["print"] test && forallb print_free body
    && forallb print_free orelse
  | ast.Assign _ _ value => free_of ["print"] value
  | ast.Expr value => free_of ["print"] value
  | ast.Return None => true
  | ast.Return (Some value) => free_of ["print"] value
  | ast.Pass => true
  end.

(** A value through which [print] cannot be reached: it is not [print], it
    does not contain it, and the functions in it do not read the name. *)
Fixpoint guarded (v : value) : bool :=
  match v with
  | VList items | VTuple items => forallb guarded items
  | VFunction _ _ body => forallb print_free body
  | VBuiltin name => bool_decide (name ≠ "print")
  | VWrapper func => guarded func
  | VConditionDecorator condition => guarded condition
  | VConditionWrapper condition func => guarded condition && guarded func
  | _ => true
  end.

Definition guarded_frame (frame : gmap string value) : Prop :=
  ∀ x v, frame !! x = Some v → guarded v = true.

Definition guarded_locals (fr : option (gmap string value)) : Prop :=
  ∀ frame, fr = Some frame → guarded_frame frame.

Definition guarded_state (σ : state) : Prop :=
  guarded_frame (globals σ) ∧ guarded_locals (locals σ).

Definition guarded_outcome (out : outcome) : Prop :=
  match out with
  | Normal => True
  | Returned v => guarded v = true
  end.

Section printing_notions.
Context `{PyText}.

#[local] Abbreviation guarded_values := (Forall (λ v : value, guarded v = true)).
#[local] Abbreviation guarded_kwargs :=
  (Forall (λ kv : string * value, guarded kv.2 = true)).

(** From [σ] to [σ'] the output grew by what the executed reports wrote. *)
Definition traced_prints (σ σ' : state) : Prop :=
  ∃ rs, api_log σ' = api_log σ ++ rs
        ∧ output σ' = output σ ++ omap written rs.

(** A computation that keeps [print] out of reach, writes only through
    executed reports, and gives a result that satisfies [G]. *)
Definition keeps {A} (G : A → Prop) (m : M A) : Prop :=
  ∀ σ, guarded_state σ →
    match m σ with
    | Ok a σ' => G a ∧ guarded_state σ' ∧ traced_prints σ σ'
    | Raise _ σ' => guarded_state σ' ∧ traced_prints σ σ'
    | OutOfFuel => True
    end.

Definition keeps_calls (call : value → list value → kwargs_t → M value)
    : Prop :=
  ∀ f args kwargs,
    guarded f = true → guarded_values args → guarded_kwargs kwargs →
    keeps (λ v, guarded v = true) (call f args kwargs).

Definition keeps_evals (eval : ast.expr → M value) : Prop :=
  ∀ e, free_of ["print"] e = true → keeps (λ v, guarded v = true) (eval e).

Definition keeps_execs (exec : ast.stmt → M outcome) : Prop :=
  ∀ s, print_free s = true → keeps guarded_outcome (exec s).

End printing_notions.

(** ** Theorems *)

Module GraphFacts.
Import DebugFlowVisualizer.
Section with_text.
Context `{PyText}.

Lemma node_name_inj : Inj (=) (=) node_name.
Proof.
  intros a b Hab. unfold node_name in Hab.
  apply (inj pretty). by simplify_eq/=.
Qed.

Lemma chain_init : chain init.
Proof. done. Qed.

Lemma nodes_app g l :
  omap (λ l, match l with dot_node n lbl sh => Some (n, lbl, sh) | dot_edge _ _ => None end)
    (dot g ++ l) = nodes g ++
  omap (λ l, match l with dot_node n lbl sh => Some (n, lbl, sh) | dot_edge _ _ => None end) l.
Proof. apply omap_app. Qed.

Lemma chain_add_node label result shape g :
  chain g → chain (add_node label result shape g).2.
Proof.
  intros (Hn & Hp & He). unfold chain, node_ids, nodes, edges in *.
  cbn [add_node snd dot node_count execution_path]. rewrite Hp.
  destruct (node_count g) as [|k] eqn:Hk.
  - cbn in *. rewrite !omap_app, fmap_app, Hn, He. done.
  - assert (last (node_name <$> seq 0 (S k)) = Some (node_name k)) as ->.
    { rewrite seq_S, fmap_app. apply last_snoc. }
    cbn [pred]. rewrite !omap_app, !fmap_app, Hn, He.
    rewrite (seq_S (S k)), !fmap_app. split_and!.
    + simpl. by rewrite app_nil_r.
    + done.
    + change (Init.Nat.pred (S k)) with k. rewrite (seq_S k), fmap_app.
      simpl. by rewrite app_nil_r.
Qed.

Lemma chain_add_nodes calls g : chain g → chain (add_nodes calls g).
Proof.
  revert g. induction calls as [|c calls IH]; intros g Hg; [done|].
  apply IH. by apply chain_add_node.
Qed.

Lemma node_count_add_nodes calls g :
  node_count (add_nodes calls g) = node_count g + length calls.
Proof.
  revert g. induction calls as [|c calls IH]; intros g; simpl; [lia|].
  change (foldl _ ?g0 calls) with (add_nodes calls g0).
  rewrite IH. simpl. lia.
Qed.

Lemma nodes_add_node label result shape g :
  nodes (add_node label result shape g).2
  = nodes g ++ [(node_name (node_count g), stored_label label result, shape)].
Proof.
  unfold nodes. cbn [add_node snd dot].
  destruct (last (execution_path g)); rewrite !omap_app; simpl;
    by rewrite ?app_nil_r.
Qed.

Lemma labels_add_nodes calls g :
  (λ n, (n.1.2, n.2)) <$> nodes (add_nodes calls g)
  = ((λ n, (n.1.2, n.2)) <$> nodes g)
    ++ ((λ c, (stored_label c.1.1 c.1.2, c.2)) <$> calls).
Proof.
  revert g. induction calls as [|c calls IH]; intros g.
  { simpl. by rewrite app_nil_r. }
  change (add_nodes (c :: calls) g)
    with (add_nodes calls (add_node c.1.1 c.1.2 c.2 g).2).
  rewrite IH, nodes_add_node, fmap_app.
  by rewrite <- (assoc_L (++)).
Qed.

(** C1: [n] calls of [add_node] in a fresh session give [n] nodes and
    [n - 1] edges; the identifiers are [node_0 .. node_(n-1)] in creation
    order, hence increasing and pairwise distinct; the edges join each node
    to the next one created and nothing else, so the first node has no
    incoming edge and every later node has exactly the node created just
    before it as predecessor; every node keeps the label of its call. *)
Theorem add_node_sequence_is_path (calls : list (string * value * string)) :
  let g := add_nodes calls init in
  let n := length calls in
  node_count g = n
  ∧ length (nodes g) = n
  ∧ length (edges g) = n - 1
  ∧ node_ids g = node_name <$> seq 0 n
  ∧ NoDup (node_ids g)
  ∧ edges g = (λ i, (node_name i, node_name (S i))) <$> seq 0 (n - 1)
  ∧ (∀ a b, (a, b) ∈ edges g ↔ ∃ i, S i < n ∧ a = node_name i ∧ b = node_name (S i))
  ∧ (∀ a, (a, node_name 0) ∉ edges g)
  ∧ (∀ a i, (a, node_name (S i)) ∈ edges g → a = node_name i)
  ∧ (λ n, (n.1.2, n.2)) <$> nodes g
    = (λ c, (stored_label c.1.1 c.1.2, c.2)) <$> calls.
Proof.
  intros g n.
  assert (Hc : node_count g = n).
  { unfold g. rewrite node_count_add_nodes. done. }
  destruct (chain_add_nodes calls init chain_init) as (Hn & Hp & He).
  fold g in Hn, Hp, He. rewrite Hc in Hn, Hp, He.
  replace (Init.Nat.pred n) with (n - 1) in He by lia.
  assert (Hmem : ∀ a b, (a, b) ∈ edges g
            ↔ ∃ i, S i < n ∧ a = node_name i ∧ b = node_name (S i)).
  { intros a b. rewrite He, list_elem_of_fmap. split.
    - intros (i & [= -> ->] & Hi). apply elem_of_seq in Hi.
      exists i. split; [lia|done].
    - intros (i & Hi & -> & ->). exists i. split; [done|].
      apply elem_of_seq. lia. }
  split_and!; try done.
  - unfold node_ids in Hn. apply (f_equal length) in Hn.
    by rewrite !length_fmap, length_seq in Hn.
  - by rewrite He, length_fmap, length_seq.
  - rewrite Hn. apply (NoDup_fmap_2 _), NoDup_seq.
  - intros a (i & _ & _ & Hi)%Hmem. by apply node_name_inj in Hi.
  - intros a i (j & _ & -> & Hj)%Hmem. apply node_name_inj in Hj.
    by simplify_eq.
  - unfold g. by rewrite labels_add_nodes.
Qed.

End with_text.
End GraphFacts.

(** ** Facts about the transformer *)

Section transformer_facts.
Context `{PyText}.
Import DebugTransformer.

(** Visiting an inserted report statement returns it unchanged: its call is
    not a call of [print], and [visit_Call] does not look at the arguments. *)
Lemma visit_report_stmt f args :
  f ≠ "print" → visit_stmt (report_stmt f args) = [report_stmt f args].
Proof.
  intros Hf. unfold report_stmt. cbn [visit_stmt visit_expr visit_Call].
  by rewrite bool_decide_eq_false_2.
Qed.

Lemma visit_block_app body1 body2 :
  visit_block (body1 ++ body2) = visit_block body1 ++ visit_block body2.
Proof. apply flat_map_app. Qed.

Lemma visit_stmt_nonempty node : visit_stmt node ≠ [].
Proof. destruct node as [| | | |target0 ? ?| | |]; try done. by destruct target0. Qed.

Lemma visit_block_nonempty s body : visit_block (s :: body) ≠ [].
Proof.
  unfold visit_block. cbn [flat_map]. pose proof (visit_stmt_nonempty s).
  by destruct (visit_stmt s).
Qed.

(** [visit_For] is [generic_visit] applied to the loop whose body is
    [new_body]. *)
Lemma visit_For_generic_visit target iter body orelse :
  visit_stmt (ast.For target iter body orelse)
  = [ast.For (visit_expr target) (visit_expr iter)
       (visit_block
          (For_new_body (ast_unparse target +:+ " in " +:+ ast_unparse iter)
             (loop_iteration_arg target) body))
       (visit_block orelse)].
Proof.
  cbn [visit_stmt]. do 2 f_equal. unfold For_new_body.
  rewrite !visit_block_app. unfold visit_block at 1 3. cbn [flat_map].
  by rewrite !visit_report_stmt.
Qed.

(** [visit_If] is [generic_visit] applied to the new conditional built from
    [new_body] and [new_orelse]. *)
Lemma visit_If_generic_visit test body orelse :
  visit_stmt (ast.If test body orelse)
  = [ast.If (visit_expr test)
       (visit_block (If_new_body (ast_unparse test) body))
       (visit_block (If_new_orelse (ast_unparse test) orelse))].
Proof.
  cbn [visit_stmt]. do 2 f_equal.
  destruct orelse as [|s orelse]; [done|].
  unfold If_new_orelse at 2.
  change (visit_block (?r :: s :: orelse))
    with (visit_stmt r ++ visit_block (s :: orelse)).
  rewrite visit_report_stmt by done.
  fold (visit_block (s :: orelse)). unfold If_new_orelse.
  pose proof (visit_block_nonempty s orelse).
  by destruct (visit_block (s :: orelse)).
Qed.

(** A call of [print] that is the expression visited becomes a call of
    [debug_print] with the same arguments and keywords. *)
Lemma visit_print_call args keywords :
  visit_expr (ast.Call (ast.Name "print") args keywords)
  = ast.Call (ast.Name "debug_print") args keywords.
Proof. done. Qed.

End transformer_facts.

(** ** Facts about the runtime API *)

Section api_facts.
Context `{PyText}.

Lemma debug_loop_run loop_info σ :
  debug_loop loop_info σ = Ok VNone (after_report (loop_start loop_info) σ).
Proof. done. Qed.

Lemma debug_loop_iteration_run iteration σ :
  debug_loop_iteration iteration σ
  = Ok VNone (after_report (loop_iterate iteration) σ).
Proof. done. Qed.

Lemma debug_loop_end_run σ :
  debug_loop_end σ = Ok VNone (after_report loop_end σ).
Proof. done. Qed.

Lemma debug_condition_run condition σ :
  debug_condition condition σ
  = Ok (VConditionDecorator condition) (after_report (condition_call condition) σ).
Proof. by destruct σ as [? ? ? []]. Qed.

Lemma debug_variable_run var_name val σ :
  debug_variable var_name val σ
  = Ok VNone (after_report (variable_bound var_name val) σ).
Proof. done. Qed.

Lemma debug_if_branch_run condition branch σ :
  debug_if_branch condition branch σ
  = Ok VNone (after_report (if_branch condition branch) σ).
Proof. done. Qed.

Lemma debug_print_run args kwargs σ :
  debug_print args kwargs σ
  = py_print args kwargs (after_report (print_call args kwargs) σ).
Proof. done. Qed.

End api_facts.

(** ** Computations that leave the builder alone *)

Section quiet_facts.
Context `{PyText}.

Lemma quiet_ret {A} (a : A) : quiet (mret a).
Proof. intros σ. split_and!; [done|done|]. by intros σ' [= <-]. Qed.

Lemma quiet_raise {A} exc : quiet (@raise A exc).
Proof. intros σ. split_and!; [done|done|]. by intros σ' [= <-]. Qed.

Lemma quiet_bind {A B} (m : M A) (f : A → M B) :
  quiet m → (∀ a, quiet (f a)) → quiet (m ≫= f).
Proof.
  intros Hm Hf σ. destruct (Hm σ) as (Hend & Hg & Hσ).
  unfold mbind, M_bind. split_and!.
  - destruct (m σ) as [a σ'| |] eqn:E; [|done..]. apply Hf.
  - intros g. rewrite Hg. destruct (m σ) as [a σ'| |]; [|done..].
    apply Hf.
  - intros σ''. destruct (m σ) as [a σ'| |] eqn:E.
    + destruct (Hσ σ' eq_refl) as [Hl Hv]. intros Hfin.
      destruct (Hf a σ') as (_ & _ & Hσ'). destruct (Hσ' σ'' Hfin).
      split; congruence.
    + intros [= <-]. by apply Hσ.
    + done.
Qed.

Lemma quiet_from_option {A} exc (o : option A) : quiet (from_option exc o).
Proof. destruct o; [apply quiet_ret|apply quiet_raise]. Qed.

Lemma quiet_mapM {A B} (f : A → M B) l : (∀ x, quiet (f x)) → quiet (mapM f l).
Proof.
  intros Hf. induction l as [|x l IH]; [apply quiet_ret|].
  apply quiet_bind; [done|]. intros y.
  apply quiet_bind; [done|]. intros k. apply quiet_ret.
Qed.

Lemma quiet_lookup_name id : quiet (lookup_name id).
Proof.
  intros σ. unfold lookup_name. cbn [locals globals set_visualizer].
  destruct (match locals σ ≫= _ with Some _ => _ | None => _ end);
    split_and!; try done; by intros σ' [= <-].
Qed.

Lemma quiet_store_name id v : quiet (store_name id v).
Proof.
  intros σ. unfold store_name. cbn [locals globals set_visualizer].
  destruct (locals σ); split_and!; try done; by intros σ' [= <-].
Qed.

Lemma quiet_get_locals : quiet get_locals.
Proof. intros σ. split_and!; try done; by intros σ' [= <-]. Qed.

Lemma quiet_set_locals frame : quiet (set_locals frame).
Proof. intros σ. split_and!; try done; by intros σ' [= <-]. Qed.

Lemma quiet_write stream text : quiet (write stream text).
Proof. intros σ. split_and!; try done; by intros σ' [= <-]. Qed.

Create HintDb quiet.
#[local] Hint Resolve quiet_ret quiet_raise quiet_from_option quiet_lookup_name
  quiet_store_name quiet_get_locals quiet_set_locals quiet_write : quiet.

Ltac quiet_step :=
  first
    [ apply quiet_bind; [|intros ?]
    | apply quiet_mapM; intros ?
    | solve [auto with quiet]
    | match goal with
      | |- quiet (match ?x with _ => _ end) => destruct x
      end ].

Lemma quiet_binop op a b : quiet (binop op a b).
Proof. unfold binop. repeat quiet_step. Qed.

Lemma quiet_compare op a b : quiet (compare op a b).
Proof. unfold compare. repeat quiet_step. Qed.

Lemma quiet_getattr v attr : quiet (getattr v attr).
Proof. unfold getattr. repeat quiet_step. Qed.

Lemma quiet_getitem v i : quiet (getitem v i).
Proof. unfold getitem. repeat quiet_step. Qed.

Lemma quiet_iterate v : quiet (iterate v).
Proof. unfold iterate. repeat quiet_step. Qed.

Lemma quiet_py_print args kwargs : quiet (py_print args kwargs).
Proof. unfold py_print. repeat quiet_step. Qed.

Lemma quiet_assign_name target v : quiet (assign_name target v).
Proof. unfold assign_name. repeat quiet_step. Qed.

Lemma quiet_assign target v : quiet (assign target v).
Proof.
  unfold assign.
  destruct target; try apply quiet_raise; try apply quiet_store_name.
  all: apply quiet_bind; [apply quiet_iterate|]; intros items.
  all: destruct (bool_decide _); [|apply quiet_raise].
  all: apply quiet_bind; [|intros ?; apply quiet_ret].
  all: apply quiet_mapM; intros ?; apply quiet_assign_name.
Qed.


End quiet_facts.


(** ** Evaluation does not read the builder *)

Section oblivious_facts.
Context `{PyText}.

Lemma replay_reports_app rs1 rs2 g :
  replay_reports (rs1 ++ rs2) g = replay_reports rs2 (replay_reports rs1 g).
Proof. apply foldl_app. Qed.

Lemma quiet_oblivious {A} (m : M A) : quiet m → oblivious m.
Proof.
  intros Hq σ. destruct (Hq σ) as (_ & Hg & Hσ). exists []. split; [done|].
  intros σ' Hfin. rewrite app_nil_r. by apply Hσ.
Qed.

Lemma oblivious_ext {A} (m m' : M A) :
  (∀ σ, m σ = m' σ) → oblivious m' → oblivious m.
Proof.
  intros Heq Hm σ. destruct (Hm σ) as (rs & Hg & Hσ). exists rs.
  split; [intros g|intros σ']; rewrite !Heq; auto.
Qed.

Lemma oblivious_ret {A} (a : A) : oblivious (mret a).
Proof. apply quiet_oblivious, quiet_ret. Qed.

Lemma oblivious_raise {A} exc : oblivious (@raise A exc).
Proof. apply quiet_oblivious, quiet_raise. Qed.

Lemma oblivious_out_of_fuel {A} : oblivious (@out_of_fuel A).
Proof. intros σ. by exists []. Qed.

Lemma oblivious_bind {A B} (m : M A) (f : A → M B) :
  oblivious m → (∀ a, oblivious (f a)) → oblivious (m ≫= f).
Proof.
  intros Hm Hf σ. destruct (Hm σ) as (rs1 & Hg1 & Hσ1).
  unfold mbind, M_bind.
  destruct (m σ) as [a σ1|exc σ1|] eqn:E.
  - destruct (Hf a σ1) as (rs2 & Hg2 & Hσ2). exists (rs1 ++ rs2). split.
    + intros g. rewrite Hg1. cbn [map_state].
      by rewrite Hg2, replay_reports_app.
    + intros σ' Hfin. rewrite (Hσ2 σ' Hfin), (Hσ1 σ1 eq_refl).
      by rewrite (assoc_L (++)).
  - exists rs1. split.
    + intros g. by rewrite Hg1.
    + intros σ' [= <-]. by apply Hσ1.
  - exists []. split; [|done]. intros g. by rewrite Hg1.
Qed.

(** An executed report, in one step. *)
Lemma oblivious_report {A} (r : report) (a : A) :
  oblivious (λ σ, Ok a (after_report r σ)).
Proof.
  intros σ. exists [r]. split; [done|]. by intros σ' [= <-].
Qed.

Lemma oblivious_log_effect {A} (r : report) (k : M A) :
  oblivious k →
  oblivious (log r;; on_visualizer (report_effect r);; k).
Proof.
  intros Hk.
  apply (oblivious_ext _ ((λ σ, Ok () (after_report r σ)) ≫= λ _, k)); [done|].
  apply oblivious_bind; [apply oblivious_report|done].
Qed.

Lemma oblivious_mapM {A B} (f : A → M B) l :
  (∀ x, oblivious (f x)) → oblivious (mapM f l).
Proof.
  intros Hf. induction l as [|x l IH]; [apply oblivious_ret|].
  apply oblivious_bind; [done|]. intros y.
  apply oblivious_bind; [done|]. intros k. apply oblivious_ret.
Qed.

Lemma oblivious_exec_block exec body :
  (∀ s, oblivious (exec s)) → oblivious (exec_block exec body).
Proof.
  intros Hexec. induction body as [|s body IH]; [apply oblivious_ret|].
  apply oblivious_bind; [done|]. intros [|v]; [done|apply oblivious_ret].
Qed.

Lemma oblivious_for_each round items :
  (∀ item, oblivious (round item)) → oblivious (for_each round items).
Proof.
  intros Hround. induction items as [|item items IH]; [apply oblivious_ret|].
  apply oblivious_bind; [done|]. intros [|v]; [done|apply oblivious_ret].
Qed.

Lemma oblivious_apply_decorators call decorators func :
  (∀ f args kwargs, oblivious (call f args kwargs)) →
  oblivious (apply_decorators call decorators func).
Proof.
  intros Hcall. induction decorators as [|d ds IH]; [apply oblivious_ret|].
  apply oblivious_bind; [done|]. intros f. apply Hcall.
Qed.

Lemma oblivious_debug_print args kwargs : oblivious (debug_print args kwargs).
Proof.
  apply (oblivious_log_effect (print_call args kwargs)).
  apply quiet_oblivious, quiet_py_print.
Qed.

Lemma oblivious_debug_function_wrapper call func args kwargs :
  (∀ f a k, oblivious (call f a k)) →
  oblivious (debug_function_wrapper call func args kwargs).
Proof.
  intros Hcall. apply oblivious_bind.
  { apply quiet_oblivious, quiet_from_option. }
  intros name. apply (oblivious_log_effect (function_enter name args kwargs)).
  apply oblivious_bind; [apply Hcall|]. intros result.
  apply (oblivious_log_effect (function_exit result)), oblivious_ret.
Qed.

Lemma oblivious_debug_condition_wrapper call condition func args kwargs :
  (∀ f a k, oblivious (call f a k)) →
  oblivious (debug_condition_wrapper call condition func args kwargs).
Proof.
  intros Hcall. apply oblivious_bind; [apply Hcall|]. intros result.
  apply (oblivious_log_effect (condition_result condition result)), oblivious_ret.
Qed.

Lemma oblivious_call_builtin name args kwargs :
  oblivious (call_builtin name args kwargs).
Proof.
  unfold call_builtin.
  repeat first
    [ apply oblivious_debug_print
    | apply oblivious_raise
    | apply quiet_oblivious, quiet_py_print
    | apply (oblivious_report _ VNone)
    | apply oblivious_ret
    | match goal with
      | |- oblivious (debug_loop ?v) => apply (oblivious_report (loop_start v) VNone)
      | |- oblivious (debug_loop_iteration ?v) =>
          apply (oblivious_report (loop_iterate v) VNone)
      | |- oblivious debug_loop_end => apply (oblivious_report loop_end VNone)
      | |- oblivious (debug_condition ?c) =>
          apply (oblivious_ext _ _ (debug_condition_run c)),
                (oblivious_report (condition_call c))
      | |- oblivious (debug_variable ?n ?v) =>
          apply (oblivious_report (variable_bound n v) VNone)
      | |- oblivious (debug_if_branch ?c ?b) =>
          apply (oblivious_report (if_branch c b) VNone)
      | |- oblivious (debug_function ?f) => apply oblivious_ret
      | |- oblivious (match ?x with _ => _ end) => destruct x
      end ].
Qed.

Lemma oblivious_eval_expr_body eval call e :
  (∀ e, oblivious (eval e)) →
  (∀ f a k, oblivious (call f a k)) →
  oblivious (eval_expr_body eval call e).
Proof.
  intros Heval Hcall. destruct e; cbn [eval_expr_body].
  - apply oblivious_ret.
  - apply quiet_oblivious, quiet_lookup_name.
  - apply oblivious_bind; [done|]. intros f.
    apply oblivious_bind; [by apply oblivious_mapM|]. intros vargs.
    apply oblivious_bind; [|done]. apply oblivious_mapM. intros kw.
    apply oblivious_bind; [done|]. intros v. apply oblivious_ret.
  - apply oblivious_bind; [by apply oblivious_mapM|]. intros ?.
    apply oblivious_ret.
  - apply oblivious_bind; [by apply oblivious_mapM|]. intros ?.
    apply oblivious_ret.
  - apply oblivious_bind; [done|]. intros a.
    apply oblivious_bind; [done|]. intros b.
    apply quiet_oblivious, quiet_binop.
  - apply oblivious_bind; [done|]. intros a.
    apply oblivious_bind; [done|]. intros b.
    apply quiet_oblivious, quiet_compare.
  - apply oblivious_bind; [done|]. intros v.
    apply quiet_oblivious, quiet_getattr.
  - apply oblivious_bind; [done|]. intros v.
    apply oblivious_bind; [done|]. intros i.
    apply quiet_oblivious, quiet_getitem.
Qed.

Lemma oblivious_exec_stmt_body eval exec call s :
  (∀ e, oblivious (eval e)) →
  (∀ s, oblivious (exec s)) →
  (∀ f a k, oblivious (call f a k)) →
  oblivious (exec_stmt_body eval exec call s).
Proof.
  intros Heval Hexec Hcall.
  pose proof (oblivious_exec_block exec) as Hblock.
  destruct s; cbn [exec_stmt_body].
  - apply oblivious_bind; [by apply oblivious_mapM|]. intros decorators.
    apply oblivious_bind; [by apply oblivious_apply_decorators|]. intros func.
    apply oblivious_bind; [apply quiet_oblivious, quiet_store_name|].
    intros _. apply oblivious_ret.
  - apply oblivious_bind; [done|]. intros v.
    apply oblivious_bind; [apply quiet_oblivious, quiet_iterate|]. intros items.
    apply oblivious_bind.
    + apply oblivious_for_each. intros item.
      apply oblivious_bind; [apply quiet_oblivious, quiet_assign|].
      intros _. by apply Hblock.
    + intros [|v']; [by apply Hblock|apply oblivious_ret].
  - apply oblivious_bind; [done|]. intros v. destruct (truthy v).
    + apply oblivious_bind; [by apply Hblock|].
      intros [|v']; [done|apply oblivious_ret].
    + by apply Hblock.
  - apply oblivious_bind; [done|]. intros v.
    destruct (truthy v); by apply Hblock.
  - apply oblivious_bind; [done|]. intros v.
    apply oblivious_bind; [apply quiet_oblivious, quiet_assign|]. intros _.
    apply oblivious_bind; [|intros _; apply oblivious_ret].
    apply oblivious_mapM. intros target. apply quiet_oblivious, quiet_assign.
  - apply oblivious_bind; [done|]. intros _. apply oblivious_ret.
  - destruct value0 as [value0|]; [|apply oblivious_ret].
    apply oblivious_bind; [done|]. intros v. apply oblivious_ret.
  - apply oblivious_ret.
Qed.

Lemma oblivious_call_value_body exec call f args kwargs :
  (∀ s, oblivious (exec s)) →
  (∀ f a k, oblivious (call f a k)) →
  oblivious (call_value_body exec call f args kwargs).
Proof.
  intros Hexec Hcall. destruct f; cbn [call_value_body];
    try apply oblivious_raise.
  - apply oblivious_bind; [apply quiet_oblivious, quiet_from_option|].
    intros bound.
    apply oblivious_bind; [apply quiet_oblivious, quiet_get_locals|].
    intros caller.
    apply oblivious_bind; [apply quiet_oblivious, quiet_set_locals|]. intros _.
    apply oblivious_bind; [by apply oblivious_exec_block|]. intros out.
    apply oblivious_bind; [apply quiet_oblivious, quiet_set_locals|]. intros _.
    apply oblivious_ret.
  - apply oblivious_call_builtin.
  - by apply oblivious_debug_function_wrapper.
  - repeat match goal with
           | |- oblivious (match ?x with _ => _ end) => destruct x
           end; first [apply oblivious_raise|apply oblivious_ret].
  - by apply oblivious_debug_condition_wrapper.
Qed.

Lemma oblivious_interpreter fuel :
  (∀ e, oblivious (eval_expr fuel e))
  ∧ (∀ s, oblivious (exec_stmt fuel s))
  ∧ (∀ f args kwargs, oblivious (call_value fuel f args kwargs)).
Proof.
  induction fuel as [|n (IHeval & IHexec & IHcall)].
  { split_and!; intros; apply oblivious_out_of_fuel. }
  split_and!; intros.
  - by apply oblivious_eval_expr_body.
  - by apply oblivious_exec_stmt_body.
  - by apply oblivious_call_value_body.
Qed.

Lemma oblivious_instrument_file fuel files filename :
  oblivious (instrument_file fuel files filename).
Proof.
  unfold instrument_file. destruct (files !! filename); [|apply oblivious_raise].
  destruct (ast_parse _); [|apply oblivious_raise].
  apply oblivious_bind; [|intros _; apply oblivious_ret].
  apply oblivious_exec_block, oblivious_interpreter.
Qed.

End oblivious_facts.

(** ** Running the inserted report statements *)

Section report_statements.
Context `{PyText}.
Import DebugFlowVisualizer.

Lemma eval_expr_S n e :
  eval_expr (S n) e = eval_expr_body (eval_expr n) (call_value n) e.
Proof. done. Qed.

Lemma exec_stmt_S n s :
  exec_stmt (S n) s
  = exec_stmt_body (eval_expr n) (exec_stmt n) (call_value n) s.
Proof. done. Qed.

Lemma call_value_S n f args kwargs :
  call_value (S n) f args kwargs
  = call_value_body (exec_stmt n) (call_value n) f args kwargs.
Proof. done. Qed.

Lemma bind_Ok {A B} (m : M A) (f : A → M B) σ a σ' :
  m σ = Ok a σ' → (m ≫= f) σ = f a σ'.
Proof. intros Hm. unfold mbind, M_bind. by rewrite Hm. Qed.

Lemma store_name_run id v σ : store_name id v σ = Ok () (with_name id v σ).
Proof. unfold store_name, with_name. by destruct (locals σ). Qed.

Lemma lookup_with_name_eq id v σ :
  lookup_name id (with_name id v σ) = Ok v (with_name id v σ).
Proof.
  unfold lookup_name, with_name. destruct (locals σ) as [frame|]; cbn.
  - by rewrite lookup_insert_eq.
  - by rewrite lookup_insert_eq.
Qed.

Lemma lookup_with_name_ne id id' v σ :
  id ≠ id' →
  lookup_name id' (with_name id v σ)
  = map_state (with_name id v) (lookup_name id' σ).
Proof.
  intros Hne. unfold lookup_name, with_name.
  destruct (locals σ) as [frame|] eqn:E; cbn; rewrite lookup_insert_ne by done.
  - destruct (frame !! id'); [cbn; by rewrite E|].
    destruct (globals σ !! id'); [cbn; by rewrite E|].
    destruct (builtins id'); cbn; by rewrite E.
  - destruct (globals σ !! id'); [cbn; by rewrite E|].
    destruct (builtins id'); cbn; by rewrite E.
Qed.

Lemma lookup_after_report id r σ :
  lookup_name id (after_report r σ)
  = map_state (after_report r) (lookup_name id σ).
Proof.
  unfold lookup_name. cbn [after_report locals globals].
  by destruct (match locals σ ≫= _ with Some _ => _ | None => _ end).
Qed.

Lemma api_bound_with_name id v σ :
  id ∉ api_names → api_bound σ → api_bound (with_name id v σ).
Proof.
  intros Hid Hσ f Hf. rewrite lookup_with_name_ne, (Hσ f Hf); [done|].
  by intros ->.
Qed.

Lemma api_bound_after_report r σ : api_bound σ → api_bound (after_report r σ).
Proof. intros Hσ f Hf. by rewrite lookup_after_report, (Hσ f Hf). Qed.

Lemma api_bound_initial_state : api_bound initial_state.
Proof.
  intros f Hf. unfold api_names in Hf.
  repeat (apply elem_of_cons in Hf as [->|Hf]; [by vm_compute|]).
  by apply elem_of_nil in Hf.
Qed.

(** A report statement whose arguments evaluate without changing the state
    is a call of the runtime API. *)
Lemma exec_report_stmt n f args vs σ :
  lookup_name f σ = Ok (VBuiltin f) σ →
  mapM (eval_expr (S n)) args σ = Ok vs σ →
  exec_stmt (S (S (S n))) (DebugTransformer.report_stmt f args) σ
  = (call_builtin f vs [];; mret Normal) σ.
Proof.
  intros Hf Hargs. unfold DebugTransformer.report_stmt.
  rewrite exec_stmt_S. cbn [exec_stmt_body].
  rewrite eval_expr_S. cbn [eval_expr_body].
  unfold mbind at 1. unfold M_bind at 1.
  erewrite bind_Ok; [|by rewrite eval_expr_S].
  erewrite bind_Ok; [|done].
  erewrite bind_Ok; [|done].
  by rewrite call_value_S.
Qed.

Lemma visualizer_with_name id v σ :
  visualizer (with_name id v σ) = visualizer σ.
Proof. unfold with_name. by destruct (locals σ). Qed.

Lemma api_log_with_name id v σ : api_log (with_name id v σ) = api_log σ.
Proof. unfold with_name. by destruct (locals σ). Qed.

Lemma exec_debug_loop n loop_info σ :
  api_bound σ →
  exec_stmt (S (S (S n)))
    (DebugTransformer.report_stmt "debug_loop"
       [ast.Constant (ast.CStr loop_info)]) σ
  = Ok Normal (after_report (loop_start (VStr loop_info)) σ).
Proof.
  intros Hσ.
  rewrite (exec_report_stmt _ _ _ [VStr loop_info]); [done| |done].
  apply Hσ. unfold api_names. set_solver.
Qed.

Lemma exec_debug_loop_iteration n i v σ :
  api_bound σ →
  lookup_name i σ = Ok v σ →
  exec_stmt (S (S (S n)))
    (DebugTransformer.report_stmt "debug_loop_iteration" [ast.Name i]) σ
  = Ok Normal (after_report (loop_iterate v) σ).
Proof.
  intros Hσ Hi.
  rewrite (exec_report_stmt _ _ _ [v]); [done| |].
  - apply Hσ. unfold api_names. set_solver.
  - cbn [mapM]. erewrite bind_Ok; [done|]. by rewrite eval_expr_S.
Qed.

Lemma exec_debug_variable n x v σ :
  api_bound σ →
  lookup_name x σ = Ok v σ →
  exec_stmt (S (S (S n)))
    (DebugTransformer.report_stmt "debug_variable"
       [ast.Constant (ast.CStr x); ast.Name x]) σ
  = Ok Normal (after_report (variable_bound (VStr x) v) σ).
Proof.
  intros Hσ Hx.
  rewrite (exec_report_stmt _ _ _ [VStr x; v]); [done| |].
  - apply Hσ. unfold api_names. set_solver.
  - cbn [mapM]. erewrite bind_Ok; [|by rewrite eval_expr_S].
    erewrite bind_Ok; [done|].
    erewrite bind_Ok; [done|]. by rewrite eval_expr_S.
Qed.

Lemma exec_debug_loop_end n σ :
  api_bound σ →
  exec_stmt (S (S (S n))) (DebugTransformer.report_stmt "debug_loop_end" []) σ
  = Ok Normal (after_report loop_end σ).
Proof.
  intros Hσ.
  rewrite (exec_report_stmt _ _ _ []); [done| |done].
  apply Hσ. unfold api_names. set_solver.
Qed.

Lemma exec_debug_condition n condition σ :
  api_bound σ →
  exec_stmt (S (S (S n)))
    (DebugTransformer.report_stmt "debug_condition"
       [ast.Constant (ast.CStr condition)]) σ
  = Ok Normal (after_report (condition_call (VStr condition)) σ).
Proof.
  intros Hσ.
  rewrite (exec_report_stmt _ _ _ [VStr condition]); [|  |done].
  - change (call_builtin "debug_condition" [VStr condition] [])
      with (debug_condition (VStr condition)).
    erewrite bind_Ok; [done|]. apply debug_condition_run.
  - apply Hσ. unfold api_names. set_solver.
Qed.

Lemma exec_debug_if_branch n condition branch σ :
  api_bound σ →
  exec_stmt (S (S (S n)))
    (DebugTransformer.report_stmt "debug_if_branch"
       [ast.Constant (ast.CStr condition); ast.Constant (ast.CStr branch)]) σ
  = Ok Normal (after_report (if_branch (VStr condition) (VStr branch)) σ).
Proof.
  intros Hσ.
  rewrite (exec_report_stmt _ _ _ [VStr condition; VStr branch]); [done| |done].
  apply Hσ. unfold api_names. set_solver.
Qed.

Lemma exec_assign_name n x rhs v σ σ' :
  eval_expr n rhs σ = Ok v σ' →
  exec_stmt (S n) (ast.Assign (ast.Name x) [] rhs) σ
  = Ok Normal (with_name x v σ').
Proof.
  intros Hrhs. rewrite exec_stmt_S. cbn [exec_stmt_body].
  erewrite bind_Ok; [|done]. cbn [assign mapM].
  erewrite bind_Ok; [done|]. apply store_name_run.
Qed.

Lemma labels_report_effect r g :
  labels (report_effect r g) = labels g ++ option_list (report_label r).
Proof.
  unfold labels.
  destruct r; cbn [report_effect report_label option_list];
    unfold start_function, end_function, start_loop, loop_iteration, end_loop,
      add_condition, add_variable, add_print, add_if_branch;
    rewrite ?app_nil_r; try done;
    change (nodes (set_current_function ?f ?g)) with (nodes g);
    rewrite GraphFacts.nodes_add_node, fmap_app; try done.
Qed.

Lemma labels_replay_reports rs g :
  labels (replay_reports rs g) = labels g ++ omap report_label rs.
Proof.
  revert g. induction rs as [|r rs IH]; intros g.
  { by rewrite app_nil_r. }
  change (replay_reports (r :: rs) g)
    with (replay_reports rs (report_effect r g)).
  rewrite IH, labels_report_effect, <- (assoc_L (++)). f_equal.
  cbn [omap list_omap]. by destruct (report_label r).
Qed.

End report_statements.

(** ** Loops *)

Section loop_facts.
Context `{PyText}.
Import DebugFlowVisualizer.

Lemma loop_round n i x rhs loop_info item val τ :
  i ∉ api_names → x ∉ api_names →
  api_bound τ →
  (∀ τ', lookup_name i τ' = Ok item τ' →
         eval_expr (S (S n)) rhs τ' = Ok val τ') →
  ∃ τ',
    (assign (ast.Name i) item;;
     exec_block (exec_stmt (S (S (S n))))
       (DebugTransformer.For_new_body loop_info (ast.Name i)
          (DebugTransformer.visit_Assign (ast.Assign (ast.Name x) [] rhs)))) τ
    = Ok Normal τ'
    ∧ api_bound τ'
    ∧ api_log τ' = api_log τ ++ round_reports loop_info x item val
    ∧ visualizer τ'
      = replay_reports (round_reports loop_info x item val) (visualizer τ).
Proof.
  intros Hi Hx Hτ Hrhs.
  set (τ1 := with_name i item τ).
  set (τ2 := after_report (loop_start (VStr loop_info)) τ1).
  set (τ3 := after_report (loop_iterate item) τ2).
  set (τ4 := with_name x val τ3).
  set (τ5 := after_report (variable_bound (VStr x) val) τ4).
  set (τ6 := after_report loop_end τ5).
  assert (H1 : api_bound τ1) by by apply api_bound_with_name.
  assert (H2 : api_bound τ2) by by apply api_bound_after_report.
  assert (H3 : api_bound τ3) by by apply api_bound_after_report.
  assert (H4 : api_bound τ4) by by apply api_bound_with_name.
  assert (H5 : api_bound τ5) by by apply api_bound_after_report.
  assert (Hi3 : lookup_name i τ3 = Ok item τ3).
  { unfold τ3, τ2. rewrite !lookup_after_report. unfold τ1.
    by rewrite lookup_with_name_eq. }
  assert (Hi2 : lookup_name i τ2 = Ok item τ2).
  { unfold τ2. rewrite !lookup_after_report. unfold τ1.
    by rewrite lookup_with_name_eq. }
  assert (Hx4 : lookup_name x τ4 = Ok val τ4) by apply lookup_with_name_eq.
  exists τ6. split_and!.
  - erewrite bind_Ok; [|apply store_name_run]. fold τ1.
    cbn [DebugTransformer.For_new_body DebugTransformer.visit_Assign app
         exec_block].
    erewrite bind_Ok; [|by apply exec_debug_loop]. cbn [exec_block].
    erewrite bind_Ok; [|by apply exec_debug_loop_iteration]. cbn [exec_block].
    erewrite bind_Ok; [|by apply exec_assign_name, Hrhs]. cbn [exec_block].
    erewrite bind_Ok; [|by apply exec_debug_variable]. cbn [exec_block].
    erewrite bind_Ok; [|by apply exec_debug_loop_end].
    done.
  - by apply api_bound_after_report.
  - unfold τ6, τ5. cbn [after_report api_log]. unfold τ4.
    rewrite api_log_with_name. unfold τ3, τ2. cbn [after_report api_log].
    unfold τ1. rewrite api_log_with_name. unfold round_reports.
    by rewrite <- !(assoc_L (++)).
  - unfold τ6, τ5. cbn [after_report visualizer]. unfold τ4.
    rewrite visualizer_with_name. unfold τ3, τ2. cbn [after_report visualizer].
    unfold τ1. by rewrite visualizer_with_name.
Qed.


End loop_facts.


(** ** Conditionals *)

Section condition_facts.
Context `{PyText}.
Import DebugFlowVisualizer.

(** X16: what the instrumented conditional does when its test holds: the call
    [debug_condition(...)] is executed and creates no node, the branch
    report creates the node "If Branch: ... Taken: True", and the run goes on
    with the visited true branch; the false branch is not run. *)
Lemma visit_If_true_run n test body orelse σ v σ1 :
  eval_expr (S (S (S n))) (DebugTransformer.visit_expr test) σ = Ok v σ1 →
  truthy v = true →
  api_bound σ1 →
  let condition := VStr (ast_unparse test) in
  let σ2 := after_report (if_branch condition (VStr "True"))
              (after_report (condition_call condition) σ1) in
  ∃ node,
    DebugTransformer.visit_stmt (ast.If test body orelse) = [node]
    ∧ exec_stmt (S (S (S (S n)))) node σ
      = exec_block (exec_stmt (S (S (S n)))) (DebugTransformer.visit_block body) σ2
    ∧ api_log σ2
      = api_log σ1 ++ [condition_call condition; if_branch condition (VStr "True")]
    ∧ nodes (visualizer σ2)
      = nodes (visualizer σ1)
        ++ [(node_name (node_count (visualizer σ1)),
             "If Branch: " +:+ ast_unparse test +:+ newline +:+ "Taken: True",
             "diamond")].
Proof.
  intros Heval Htrue Hσ1 condition σ2. eexists. split; [reflexivity|].
  split_and!.
  - rewrite exec_stmt_S. cbn [exec_stmt_body].
    erewrite bind_Ok; [|exact Heval]. rewrite Htrue.
    cbn [DebugTransformer.If_new_body app exec_block].
    erewrite bind_Ok; [|by apply exec_debug_condition]. cbn [exec_block].
    erewrite bind_Ok;
      [|by apply exec_debug_if_branch, api_bound_after_report].
    done.
  - unfold σ2. cbn [after_report api_log]. by rewrite <- (assoc_L (++)).
  - unfold σ2. cbn [after_report visualizer report_effect id].
    unfold add_if_branch. rewrite GraphFacts.nodes_add_node.
    cbn [stored_label]. unfold condition. by rewrite !py_str_VStr.
Qed.

End condition_facts.

(** ** Sessions *)

Section session_facts.
Context `{PyText}.
Import DebugFlowVisualizer.


Lemma set_visualizer_same σ : set_visualizer (visualizer σ) σ = σ.
Proof. by destruct σ. Qed.


End session_facts.

(** ** The print wrapper *)

Section print_facts.
Context `{PyText}.
Import DebugFlowVisualizer.

(** [print] ends, with a value or with an exception, and touches neither
    the builder nor the log. *)
Lemma py_print_final args kwargs σ :
  ∃ σ', final_state (py_print args kwargs σ) = Some σ'
    ∧ visualizer σ' = visualizer σ ∧ api_log σ' = api_log σ
    ∧ globals σ' = globals σ ∧ locals σ' = locals σ.
Proof.
  unfold py_print. destruct (forallb _ _); [|by eexists].
  unfold mbind, M_bind, from_option.
  destruct (print_text_option "sep" _ _); [|by eexists].
  destruct (print_text_option "end" _ _); [|by eexists].
  destruct (print_file _); by eexists.
Qed.

Lemma nodes_add_node' label result shape g :
  nodes (add_node label result shape g).2
  = nodes g ++ [(node_name (node_count g), stored_label label result, shape)].
Proof. apply GraphFacts.nodes_add_node. Qed.

(** C10: whatever the keyword arguments, the node [debug_print] creates is
    labelled with the [repr] of the positional arguments joined by spaces;
    the text written depends on the keywords, so two calls with the same
    label can write different texts. *)
Theorem debug_print_label_ignores_keywords :
  (∀ args kwargs σ, ∃ σ',
      final_state (debug_print args kwargs σ) = Some σ'
      ∧ nodes (visualizer σ')
        = nodes (visualizer σ)
          ++ [(node_name (node_count (visualizer σ)),
               "Print: " +:+ join " " (py_repr <$> args), "oval")])
  ∧ (∀ σ, ∃ σ1 σ2,
      debug_print [VStr "a"; VStr "b"] [] σ = Ok VNone σ1
      ∧ debug_print [VStr "a"; VStr "b"] [("sep", VStr "-")] σ = Ok VNone σ2
      ∧ labels (visualizer σ1) = labels (visualizer σ2)
      ∧ output σ1 = output σ ++ [("stdout", "a b" +:+ newline)]
      ∧ output σ2 = output σ ++ [("stdout", "a-b" +:+ newline)]
      ∧ output σ1 ≠ output σ2).
Proof.
  split.
  - intros args kwargs σ. rewrite debug_print_run.
    destruct (py_print_final args kwargs (after_report (print_call args kwargs) σ))
      as (σ' & Hf & Hv & _).
    exists σ'. split; [done|]. rewrite Hv. cbn [after_report visualizer report_effect].
    unfold add_print. by rewrite nodes_add_node'.
  - intros σ. eexists _, _.
    split; [reflexivity|]. split; [reflexivity|].
    cbn. rewrite !py_str_VStr. split_and!; try done.
    intros Heq. apply app_inv_head in Heq. discriminate Heq.
Qed.

End print_facts.

(** ** Parse errors *)

Section parse_facts.
Context `{PyText}.

(** C8: when the text of the file does not parse, [instrument_file] raises
    the syntax error in the state it was called in, whatever the fuel: no
    tree is visited, no statement is executed, and the builder, the output
    and the namespace are what they were. *)
Theorem instrument_file_parse_error fuel files filename source σ :
  files !! filename = Some source →
  ast_parse source = None →
  instrument_file fuel files filename σ = Raise "SyntaxError" σ.
Proof. intros Hfile Hparse. unfold instrument_file. by rewrite Hfile, Hparse. Qed.

End parse_facts.

Lemma instrument_file_parse_error_witness :
  @instrument_file data.text 5 {["broken.py" := "def ("]} "broken.py"
    initial_state
  = Raise "SyntaxError" initial_state.
Proof.
  apply (@instrument_file_parse_error data.text 5 _ _ "def (");
    vm_compute; reflexivity.
Defined.

(** ** The function wrapper *)

Section wrapper_facts.
Context `{PyText}.
Import DebugFlowVisualizer.

Lemma wrapper_call n func args kwargs σ name :
  get_name func = Some name →
  call_value (S n) (VWrapper func) args kwargs σ
  = match call_value n func args kwargs
            (after_report (function_enter name args kwargs) σ) with
    | Ok result σ' => Ok result (after_report (function_exit result) σ')
    | Raise exc σ' => Raise exc σ'
    | OutOfFuel => OutOfFuel
    end.
Proof.
  intros Hname. cbn [call_value call_value_body].
  unfold debug_function_wrapper, mbind, M_bind, from_option.
  rewrite Hname. reflexivity.
Qed.

Lemma edges_add_node label result shape g :
  edges (add_node label result shape g).2
  = edges g ++ match last (execution_path g) with
               | Some prev => [(prev, node_name (node_count g))]
               | None => []
               end.
Proof.
  unfold edges. cbn [add_node snd dot].
  destruct (last (execution_path g)); rewrite !omap_app; simpl;
    by rewrite ?app_nil_r.
Qed.

Lemma last_path_add_node label result shape g :
  last (execution_path (add_node label result shape g).2)
  = Some (node_name (node_count g)).
Proof. cbn [add_node snd execution_path]. apply last_snoc. Qed.

(** Running the definition [visit_FunctionDef] returns binds the name to the
    wrapper of the function, whose body is the visited body. *)
Lemma decorated_def_binds_wrapper n name params body σ :
  api_bound σ →
  DebugTransformer.visit_stmt (ast.FunctionDef name params body [])
  = [ast.FunctionDef name params (DebugTransformer.visit_block body)
       [ast.Name "debug_function"]]
  ∧ exec_stmt (S (S n))
      (ast.FunctionDef name params (DebugTransformer.visit_block body)
         [ast.Name "debug_function"]) σ
    = (store_name name
         (VWrapper (VFunction name params (DebugTransformer.visit_block body)));;
       mret Normal) σ.
Proof.
  intros Hapi. split; [done|].
  assert (Hf : lookup_name "debug_function" σ = Ok (VBuiltin "debug_function") σ).
  { apply Hapi. unfold api_names. set_solver. }
  cbn [exec_stmt exec_stmt_body mapM eval_expr eval_expr_body].
  unfold mbind at 1. unfold M_bind at 1. unfold mbind at 1. unfold M_bind at 1.
  rewrite Hf. reflexivity.
Qed.

(** C5 (amended): a call of the wrapper that [debug_function] builds first
    reports the name and the arguments, then calls the original function
    with the same arguments, then reports the value it returned and returns
    that value; when the original function executes no report of its own,
    the call adds exactly two nodes, "Function:" and "Return:", and the
    edge between them (besides the edge from the node that came before). *)
Theorem debug_function_wrapper_call n func name args kwargs σ result σ1 :
  get_name func = Some name →
  call_value n func args kwargs
    (after_report (function_enter name args kwargs) σ) = Ok result σ1 →
  let σ2 := after_report (function_exit result) σ1 in
  let k := node_count (visualizer σ) in
  call_value (S n) (VWrapper func) args kwargs σ = Ok result σ2
  ∧ api_log σ2 = api_log σ1 ++ [function_exit result]
  ∧ (visualizer σ1 = visualizer (after_report (function_enter name args kwargs) σ) →
     nodes (visualizer σ2)
     = nodes (visualizer σ)
       ++ [(node_name k,
            "Function: " +:+ name +:+ "("
            +:+ join ", " (((λ kv, kv.1 +:+ "=" +:+ py_repr kv.2) <$> kwargs)
                           ++ (py_repr <$> args)) +:+ ")",
            "ellipse");
           (node_name (S k), "Return: " +:+ py_repr result, "diamond")]
     ∧ edges (visualizer σ2)
       = edges (visualizer σ)
         ++ match last (execution_path (visualizer σ)) with
            | Some prev => [(prev, node_name k)]
            | None => []
            end
         ++ [(node_name k, node_name (S k))]).
Proof.
  intros Hname Hcall σ2 k. split_and!.
  - by rewrite (wrapper_call _ _ _ _ _ name), Hcall.
  - done.
  - intros Hquiet. unfold σ2. cbn [after_report visualizer report_effect].
    rewrite Hquiet. cbn [after_report visualizer report_effect].
    unfold end_function, start_function.
    change (nodes (set_current_function ?f ?g)) with (nodes g).
    change (edges (set_current_function ?f ?g)) with (edges g).
    rewrite !GraphFacts.nodes_add_node, !edges_add_node, last_path_add_node.
    cbn [stored_label]. change (nodes (set_current_function ?f ?g)) with (nodes g).
    change (edges (set_current_function ?f ?g)) with (edges g).
    cbn [add_node snd node_count set_current_function execution_path].
    by rewrite <- !(assoc_L (++)).
Qed.

End wrapper_facts.

Lemma debug_function_wrapper_call_witness :
  @call_value data.text 4
    (VWrapper (VFunction "identity" ["a"] [ast.Return (Some (ast.Name "a"))]))
    [VInt 7] [] initial_state
  = Ok (VInt 7)
      (@after_report data.text (function_exit (VInt 7))
         (@after_report data.text (function_enter "identity" [VInt 7] [])
            initial_state)).
Proof.
  apply (@debug_function_wrapper_call data.text 3
           (VFunction "identity" ["a"] [ast.Return (Some (ast.Name "a"))])
           "identity" [VInt 7] [] initial_state (VInt 7));
    vm_compute; reflexivity.
Defined.

(** ** Runs of the example programs *)

Module Examples.
Import DebugFlowVisualizer.
#[local] Existing Instance data.text.


(** C3 at [x = 5; if x > 0: y = 1 else: y = 2]: the call
    [debug_condition('x > 0')] is executed, but no "Condition:" node is
    created; the branch report is the only node of the conditional. *)
Lemma branch_has_no_condition_node :
  ∃ σ, programs.run programs.branch = Ok Normal σ
    ∧ api_log σ
      = [variable_bound (VStr "x") (VInt 5);
         condition_call (VStr "x > 0");
         if_branch (VStr "x > 0") (VStr "True");
         variable_bound (VStr "y") (VInt 1)]
    ∧ labels (visualizer σ)
      = ["Variable: x = 5";
         "If Branch: x > 0" +:+ newline +:+ "Taken: True";
         "Variable: y = 1"].
Proof.
  eexists. split; [vm_compute; reflexivity|].
  split; vm_compute; reflexivity.
Qed.

(** C4 at [if True: pass]: two reports are executed and one node is
    created. *)
Lemma if_pass_two_reports_one_node :
  ∃ σ, programs.run programs.if_pass = Ok Normal σ
    ∧ api_log σ
      = [condition_call (VStr "True"); if_branch (VStr "True") (VStr "True")]
    ∧ length (api_log σ) = 2
    ∧ length (nodes (visualizer σ)) = 1.
Proof.
  eexists. split; [vm_compute; reflexivity|].
  split_and!; vm_compute; reflexivity.
Qed.

(** C5, as stated, fails on [def greet(): print('hi')]: the body has no
    loop, conditional or assignment, and the call gives three nodes. *)
Lemma greet_has_three_nodes :
  ∃ σ, programs.run programs.call_greet = Ok Normal σ
    ∧ labels (visualizer σ)
      = ["Function: greet()"; "Print: 'hi'"; "Return: None"]
    ∧ length (nodes (visualizer σ)) ≠ 2.
Proof.
  eexists. split; [vm_compute; reflexivity|].
  split; [vm_compute; reflexivity|vm_compute; lia].
Qed.


(** C7 at [x = print('hi')]: the call is still a call of [print] after the
    visit; the run writes the text and creates no "Print:" node. *)
Lemma assigned_print_is_not_rewritten :
  DebugTransformer.visit_Module programs.assigned_print
  = [ast.Assign (ast.Name "x") []
       (ast.Call (ast.Name "print") [programs.text "hi"] []);
     DebugTransformer.report_stmt "debug_variable"
       [ast.Constant (ast.CStr "x"); ast.Name "x"]]
  ∧ ∃ σ, programs.run programs.assigned_print = Ok Normal σ
    ∧ output σ = [("stdout", "hi" +:+ newline)]
    ∧ api_log σ = [variable_bound (VStr "x") VNone]
    ∧ labels (visualizer σ) = ["Variable: x = None"].
Proof.
  split; [reflexivity|].
  eexists. split; [vm_compute; reflexivity|].
  split_and!; vm_compute; reflexivity.
Qed.

End Examples.

(** ** The graph of a whole run *)

Section run_facts.
Context `{PyText}.
Import DebugFlowVisualizer.

Lemma chain_report_effect r g : chain g → chain (report_effect r g).
Proof.
  intros Hg.
  destruct r; cbn [report_effect]; try done;
    unfold start_function, end_function, start_loop, loop_iteration, end_loop,
      add_condition, add_variable, add_print, add_if_branch;
    by apply GraphFacts.chain_add_node.
Qed.

Lemma chain_replay_reports rs g : chain g → chain (replay_reports rs g).
Proof.
  revert g. induction rs as [|r rs IH]; intros g Hg; [done|].
  apply IH. by apply chain_report_effect.
Qed.

Lemma dot_prefix_report_effect r g : dot g `prefix_of` dot (report_effect r g).
Proof.
  assert (Hadd : ∀ label result shape g',
             dot g' `prefix_of` dot (add_node label result shape g').2).
  { intros label result shape g'. cbn [add_node snd dot].
    destruct (last (execution_path g')).
    - rewrite <- (assoc_L (++)). by apply prefix_app_r.
    - by apply prefix_app_r. }
  destruct r; cbn [report_effect]; try done;
    unfold start_function, end_function, start_loop, loop_iteration, end_loop,
      add_condition, add_variable, add_print, add_if_branch;
    first [ apply Hadd
          | apply (Hadd _ _ _ (set_current_function _ g))
          | apply (Hadd _ VNone "diamond" g) ].
Qed.

Lemma dot_prefix_replay_reports rs g :
  dot g `prefix_of` dot (replay_reports rs g).
Proof.
  revert g. induction rs as [|r rs IH]; intros g; [done|].
  etrans; [apply (dot_prefix_report_effect r)|apply IH].
Qed.

(** Where a computation that does not read the builder leaves it. *)
Lemma oblivious_final {A} (m : M A) σ σ' :
  oblivious m →
  final_state (m σ) = Some σ' →
  ∃ rs, api_log σ' = api_log σ ++ rs
    ∧ visualizer σ' = replay_reports rs (visualizer σ).
Proof.
  intros Hm Hfin. destruct (Hm σ) as (rs & Hg & Hlog).
  exists rs. split; [by apply Hlog|].
  specialize (Hg (visualizer σ)). rewrite set_visualizer_same in Hg.
  rewrite Hg in Hfin.
  by destruct (m σ) as [a τ|exc τ|]; cbn [map_state final_state] in Hfin;
    simplify_eq/=.
Qed.



End run_facts.




(** ** More on the wrappers of the runtime API *)

Section more_wrapper_facts.
Context `{PyText}.
Import DebugFlowVisualizer.


Lemma condition_wrapper_call n condition func args kwargs σ :
  call_value (S n) (VConditionWrapper condition func) args kwargs σ
  = match call_value n func args kwargs σ with
    | Ok result σ' =>
      Ok result (after_report (condition_result condition result) σ')
    | Raise exc σ' => Raise exc σ'
    | OutOfFuel => OutOfFuel
    end.
Proof. done. Qed.

(** X4: [debug_condition] used as the decorator it is written as.
    [debug_condition(condition)(func)] is a wrapper that calls [func] first
    and reports afterwards: it returns the result of [func] unchanged and
    adds one diamond node "Condition: ..." that carries the result, or no
    result line when [func] returned [None]. *)
Theorem debug_condition_decorated_call n condition func args kwargs σ result σ1 :
  call_value n func args kwargs σ = Ok result σ1 →
  call_value (S (S n)) (VBuiltin "debug_condition") [condition] [] σ
  = Ok (VConditionDecorator condition)
       (after_report (condition_call condition) σ)
  ∧ call_value (S n) (VConditionDecorator condition) [func] [] σ
    = Ok (VConditionWrapper condition func) σ
  ∧ call_value (S n) (VConditionWrapper condition func) args kwargs σ
    = Ok result (after_report (condition_result condition result) σ1)
  ∧ nodes (visualizer (after_report (condition_result condition result) σ1))
    = nodes (visualizer σ1)
      ++ [(node_name (node_count (visualizer σ1)),
           match result with
           | VNone => "Condition: " +:+ py_str condition
           | _ => "Condition: " +:+ py_str condition +:+ newline
                  +:+ "Result: " +:+ py_str result
           end,
           "diamond")].
Proof.
  intros Hcall. split_and!.
  - rewrite call_value_S. cbn [call_value_body].
    change (call_builtin "debug_condition" [condition] [])
      with (debug_condition condition).
    apply debug_condition_run.
  - reflexivity.
  - by rewrite condition_wrapper_call, Hcall.
  - cbn [after_report visualizer report_effect]. unfold add_condition.
    by rewrite GraphFacts.nodes_add_node.
Qed.


End more_wrapper_facts.


Lemma debug_condition_decorated_call_witness :
  @call_value data.text 4
    (VConditionWrapper (VStr "ready")
       (VFunction "check" [] [ast.Return (Some (programs.int 1))]))
    [] [] initial_state
  = Ok (VInt 1)
      (@after_report data.text (condition_result (VStr "ready") (VInt 1))
         initial_state).
Proof.
  apply (@debug_condition_decorated_call data.text 3 (VStr "ready")
           (VFunction "check" [] [ast.Return (Some (programs.int 1))])
           [] [] initial_state (VInt 1) initial_state).
  vm_compute. reflexivity.
Defined.


(** ** Instrumented statements, one by one *)

Section statement_facts.
Context `{PyText}.
Import DebugFlowVisualizer.


Lemma bind_Raise {A B} (m : M A) (f : A → M B) σ exc σ' :
  m σ = Raise exc σ' → (m ≫= f) σ = Raise exc σ'.
Proof. intros Hm. unfold mbind, M_bind. by rewrite Hm. Qed.

Lemma exec_block_cons_Normal exec s rest σ σ' :
  exec s σ = Ok Normal σ' →
  exec_block exec (s :: rest) σ = exec_block exec rest σ'.
Proof. intros Hs. cbn [exec_block]. erewrite bind_Ok; [|exact Hs]. done. Qed.

Lemma exec_block_single exec s σ : exec_block exec [s] σ = exec s σ.
Proof.
  cbn [exec_block]. unfold mbind, M_bind.
  destruct (exec s σ) as [[|v] σ'|exc σ'|]; done.
Qed.

Lemma exec_call_stmt n f args vs callee σ :
  lookup_name f σ = Ok callee σ →
  mapM (eval_expr (S n)) args σ = Ok vs σ →
  exec_stmt (S (S (S n))) (DebugTransformer.report_stmt f args) σ
  = (call_value (S n) callee vs [];; mret Normal) σ.
Proof.
  intros Hf Hargs. unfold DebugTransformer.report_stmt.
  rewrite exec_stmt_S. cbn [exec_stmt_body].
  rewrite eval_expr_S. cbn [eval_expr_body].
  unfold mbind at 1. unfold M_bind at 1.
  erewrite bind_Ok; [|by rewrite eval_expr_S].
  erewrite bind_Ok; [|done].
  erewrite bind_Ok; [|done]. done.
Qed.

(** X13: the rewritten program runs in the namespace of the runtime API.
    The assignment of a number to the name [debug_variable] succeeds in the
    original program; in the instrumented program the inserted call then
    calls that number and raises [TypeError]. *)
Theorem assignment_to_api_name_breaks n rhs σ z σ1 :
  eval_expr (S (S n)) rhs σ = Ok (VInt z) σ1 →
  exec_block (exec_stmt (S (S (S n))))
    [ast.Assign (ast.Name "debug_variable") [] rhs] σ
  = Ok Normal (with_name "debug_variable" (VInt z) σ1)
  ∧ exec_block (exec_stmt (S (S (S n))))
      (DebugTransformer.visit_stmt
         (ast.Assign (ast.Name "debug_variable") [] rhs)) σ
    = Raise "TypeError" (with_name "debug_variable" (VInt z) σ1).
Proof.
  intros Hrhs.
  pose proof (exec_assign_name (S (S n)) "debug_variable" rhs _ _ _ Hrhs) as Hx.
  split.
  - cbn [exec_block]. erewrite bind_Ok; [|exact Hx]. done.
  - cbn [DebugTransformer.visit_stmt DebugTransformer.visit_Assign exec_block].
    erewrite bind_Ok; [|exact Hx]. cbn [exec_block].
    apply bind_Raise.
    rewrite (exec_call_stmt _ _ _ [VStr "debug_variable"; VInt z] (VInt z)).
    + done.
    + apply lookup_with_name_eq.
    + cbn [mapM]. erewrite bind_Ok; [|by rewrite eval_expr_S].
      erewrite bind_Ok; [done|].
      erewrite bind_Ok; [done|].
      rewrite eval_expr_S. apply lookup_with_name_eq.
Qed.

(** X8: every report of an instrumented loop is inside its body.  When the
    iterable is empty the loop executes no report and adds no node, not
    even "Loop Start" or "Loop End": the run goes straight on with the
    [else] part. *)
Theorem empty_loop_leaves_no_trace n target iter body orelse σ items σ1 :
  eval_expr n (DebugTransformer.visit_expr iter) σ = Ok items σ1 →
  iterate items σ1 = Ok [] σ1 →
  ∃ node,
    DebugTransformer.visit_stmt (ast.For target iter body orelse) = [node]
    ∧ exec_stmt (S n) node σ
      = exec_block (exec_stmt n) (DebugTransformer.visit_block orelse) σ1
    ∧ (orelse = [] → exec_stmt (S n) node σ = Ok Normal σ1).
Proof.
  intros Hiter Hitems.
  exists (ast.For (DebugTransformer.visit_expr target)
            (DebugTransformer.visit_expr iter)
            (DebugTransformer.For_new_body
               (ast_unparse target +:+ " in " +:+ ast_unparse iter)
               (DebugTransformer.loop_iteration_arg target)
               (DebugTransformer.visit_block body))
            (DebugTransformer.visit_block orelse)).
  split; [reflexivity|].
  assert (Hrun : ∀ new_body,
            exec_stmt (S n)
              (ast.For (DebugTransformer.visit_expr target)
                 (DebugTransformer.visit_expr iter) new_body
                 (DebugTransformer.visit_block orelse)) σ
            = exec_block (exec_stmt n) (DebugTransformer.visit_block orelse) σ1).
  { intros new_body. rewrite exec_stmt_S. cbn [exec_stmt_body].
    erewrite bind_Ok; [|exact Hiter].
    erewrite bind_Ok; [|exact Hitems]. done. }
  split; [apply Hrun|]. intros Hnil. rewrite Hrun. by rewrite Hnil.
Qed.

(** X9: the reports of a conditional sit inside its branches.  When the
    test is false and there is no [else], the conditional executes no
    report at all, not even [debug_condition]; with an [else], the only
    report is the branch report "Taken: False", and the run goes on with
    the visited [else] part. *)
Theorem visit_If_false_run n test body orelse σ v σ1 :
  eval_expr (S (S (S n))) (DebugTransformer.visit_expr test) σ = Ok v σ1 →
  truthy v = false →
  api_bound σ1 →
  ∃ node,
    DebugTransformer.visit_stmt (ast.If test body orelse) = [node]
    ∧ (orelse = [] → exec_stmt (S (S (S (S n)))) node σ = Ok Normal σ1)
    ∧ (orelse ≠ [] →
       exec_stmt (S (S (S (S n)))) node σ
       = exec_block (exec_stmt (S (S (S n))))
           (DebugTransformer.visit_block orelse)
           (after_report
              (if_branch (VStr (ast_unparse test)) (VStr "False")) σ1)).
Proof.
  intros Heval Hfalse Hσ1.
  exists (ast.If (DebugTransformer.visit_expr test)
            (DebugTransformer.If_new_body (ast_unparse test)
               (DebugTransformer.visit_block body))
            (DebugTransformer.If_new_orelse (ast_unparse test)
               (DebugTransformer.visit_block orelse))).
  split; [reflexivity|].
  assert (Hrun : ∀ new_body new_orelse,
            exec_stmt (S (S (S (S n))))
              (ast.If (DebugTransformer.visit_expr test) new_body new_orelse) σ
            = exec_block (exec_stmt (S (S (S n)))) new_orelse σ1).
  { intros new_body new_orelse. rewrite exec_stmt_S. cbn [exec_stmt_body].
    erewrite bind_Ok; [|exact Heval]. by rewrite Hfalse. }
  rewrite Hrun. split.
  - by intros ->.
  - intros Hne. destruct orelse as [|s orelse]; [done|].
    pose proof (visit_block_nonempty s orelse) as Hvis.
    destruct (DebugTransformer.visit_block (s :: orelse))
      as [|s' rest]; [done|].
    cbn [DebugTransformer.If_new_orelse].
    by apply exec_block_cons_Normal, exec_debug_if_branch.
Qed.

Lemma py_print_output args kwargs σ :
  match py_print args kwargs σ with
  | Ok _ τ => ∃ text, output τ = output σ ++ [text]
  | Raise _ τ => τ = σ
  | OutOfFuel => False
  end.
Proof.
  unfold py_print. destruct (forallb _ _); [|done].
  unfold mbind, M_bind, from_option.
  destruct (print_text_option "sep" _ _); [|done].
  destruct (print_text_option "end" _ _); [|done].
  destruct (print_file _); [|done]. cbn. by eexists.
Qed.

Lemma py_print_after_report args kwargs r σ :
  py_print args kwargs (after_report r σ)
  = map_state (after_report r) (py_print args kwargs σ).
Proof.
  unfold py_print. destruct (forallb _ _); [|done].
  unfold mbind, M_bind, from_option.
  destruct (print_text_option "sep" _ _); [|done].
  destruct (print_text_option "end" _ _); [|done].
  by destruct (print_file _).
Qed.

(** X10: an instrumented [print] statement behaves as the original one.
    Once the arguments are evaluated, the rewritten statement ends as the
    original does, with the same text written to the same stream or the
    same exception, and the same namespace; the only difference is the one
    executed report. *)
Theorem instrumented_print_statement n args keywords σ vs σ1 vkws σ2 :
  lookup_name "print" σ = Ok (VBuiltin "print") σ →
  api_bound σ →
  mapM (eval_expr (S n)) args σ = Ok vs σ1 →
  mapM (λ kw, v ← eval_expr (S n) kw.2; mret (kw.1, v)) keywords σ1
  = Ok vkws σ2 →
  let original := ast.Expr (ast.Call (ast.Name "print") args keywords) in
  exec_block (exec_stmt (S (S (S n)))) (DebugTransformer.visit_stmt original) σ
  = map_state (after_report (print_call vs vkws))
      (exec_block (exec_stmt (S (S (S n)))) [original] σ)
  ∧ ∃ τ, final_state (exec_block (exec_stmt (S (S (S n)))) [original] σ)
         = Some τ
      ∧ output τ
        = output σ2
          ++ match py_print vs vkws σ2 with
             | Ok _ τ' => drop (length (output σ2)) (output τ')
             | _ => []
             end.
Proof.
  intros Hprint Hσ Hargs Hkws original.
  assert (Hdebug : lookup_name "debug_print" σ = Ok (VBuiltin "debug_print") σ).
  { apply Hσ. unfold api_names. set_solver. }
  assert (Horig : exec_stmt (S (S (S n))) original σ
                  = (py_print vs vkws;; mret Normal) σ2).
  { unfold original. rewrite exec_stmt_S. cbn [exec_stmt_body].
    rewrite eval_expr_S. cbn [eval_expr_body].
    unfold mbind at 1. unfold M_bind at 1.
    erewrite bind_Ok; [|by rewrite eval_expr_S].
    erewrite bind_Ok; [|exact Hargs].
    erewrite bind_Ok; [|exact Hkws]. by rewrite call_value_S. }
  assert (Hinst : exec_stmt (S (S (S n)))
                    (ast.Expr (ast.Call (ast.Name "debug_print") args keywords)) σ
                  = (debug_print vs vkws;; mret Normal) σ2).
  { rewrite exec_stmt_S. cbn [exec_stmt_body].
    rewrite eval_expr_S. cbn [eval_expr_body].
    unfold mbind at 1. unfold M_bind at 1.
    erewrite bind_Ok; [|by rewrite eval_expr_S].
    erewrite bind_Ok; [|exact Hargs].
    erewrite bind_Ok; [|exact Hkws]. by rewrite call_value_S. }
  destruct (py_print_final vs vkws σ2) as (τ0 & Hfin & _).
  assert (Hvisit : DebugTransformer.visit_stmt original
                   = [ast.Expr (ast.Call (ast.Name "debug_print") args keywords)])
    by reflexivity.
  rewrite Hvisit, !exec_block_single, Horig, Hinst.
  unfold mbind, M_bind. rewrite debug_print_run, py_print_after_report.
  split.
  - by destruct (py_print vs vkws σ2).
  - pose proof (py_print_output vs vkws σ2) as Hout.
    destruct (py_print vs vkws σ2) as [a τ'|exc τ'|]; [| |done].
    + exists τ'. split; [done|]. destruct Hout as [text ->].
      by rewrite drop_app_length.
    + exists τ'. split; [done|]. by rewrite app_nil_r, Hout.
Qed.

(** X11: [debug_print] reports before it prints.  When [print] rejects the
    keywords, here one that [print] does not know, the exception leaves
    [debug_print] with the "Print:" node already in the graph and nothing
    written. *)
Theorem debug_print_unknown_keyword args kwargs σ :
  (∃ kv, kv ∈ kwargs ∧ kv.1 ∉ ["sep"; "end"; "file"; "flush"]) →
  let σ1 := after_report (print_call args kwargs) σ in
  debug_print args kwargs σ = Raise "TypeError" σ1
  ∧ output σ1 = output σ
  ∧ last (labels (visualizer σ1))
    = Some ("Print: " +:+ join " " (py_repr <$> args)).
Proof.
  intros (kv & Hin & Hkey) σ1. split_and!.
  - rewrite debug_print_run. unfold py_print.
    destruct (forallb _ kwargs) eqn:E; [|done].
    rewrite forallb_forall in E. apply list_elem_of_In, E in Hin.
    by apply bool_decide_eq_true_1 in Hin.
  - done.
  - unfold σ1. cbn [after_report visualizer report_effect].
    unfold add_print, labels. rewrite GraphFacts.nodes_add_node, fmap_app.
    apply last_snoc.
Qed.

End statement_facts.


Lemma assignment_to_api_name_breaks_witness :
  @exec_block (exec_stmt (H:=data.text) 3)
    (@DebugTransformer.visit_stmt data.text
       (ast.Assign (ast.Name "debug_variable") [] (programs.int 1)))
    initial_state
  = Raise "TypeError" (with_name "debug_variable" (VInt 1) initial_state).
Proof.
  apply (@assignment_to_api_name_breaks data.text 0 (programs.int 1)
           initial_state 1 initial_state).
  reflexivity.
Defined.

Lemma empty_loop_leaves_no_trace_witness :
  ∃ node,
    @DebugTransformer.visit_stmt data.text
      (ast.For (ast.Name "i") (ast.List []) [ast.Pass] []) = [node]
    ∧ @exec_stmt data.text 3 node initial_state
      = @exec_block (exec_stmt (H:=data.text) 2)
          (@DebugTransformer.visit_block data.text []) initial_state
    ∧ (@nil ast.stmt = [] → @exec_stmt data.text 3 node initial_state
                 = Ok Normal initial_state).
Proof.
  apply (@empty_loop_leaves_no_trace data.text 2 (ast.Name "i") (ast.List [])
           [ast.Pass] [] initial_state (VList []) initial_state);
    reflexivity.
Defined.

Lemma visit_If_false_run_witness :
  ∃ node,
    @DebugTransformer.visit_stmt data.text
      (ast.If (ast.Constant (ast.CBool false)) [ast.Pass] []) = [node]
    ∧ (@nil ast.stmt = [] → @exec_stmt data.text 4 node initial_state
                 = Ok Normal initial_state)
    ∧ (@nil ast.stmt ≠ [] →
       @exec_stmt data.text 4 node initial_state
       = @exec_block (exec_stmt (H:=data.text) 3)
           (@DebugTransformer.visit_block data.text [])
           (@after_report data.text
              (if_branch
                 (VStr (@ast_unparse data.text (ast.Constant (ast.CBool false))))
                 (VStr "False")) initial_state)).
Proof.
  apply (@visit_If_false_run data.text 0 (ast.Constant (ast.CBool false))
           [ast.Pass] [] initial_state (VBool false) initial_state).
  - reflexivity.
  - reflexivity.
  - apply api_bound_initial_state.
Defined.

Lemma instrumented_print_statement_witness :
  @exec_block (exec_stmt (H:=data.text) 3)
    (@DebugTransformer.visit_stmt data.text
       (ast.Expr (ast.Call (ast.Name "print") [programs.text "hi"] [])))
    initial_state
  = map_state (@after_report data.text (print_call [VStr "hi"] []))
      (@exec_block (exec_stmt (H:=data.text) 3)
         [ast.Expr (ast.Call (ast.Name "print") [programs.text "hi"] [])]
         initial_state).
Proof.
  apply (@instrumented_print_statement data.text 0 [programs.text "hi"] []
           initial_state [VStr "hi"] initial_state [] initial_state).
  - reflexivity.
  - apply api_bound_initial_state.
  - reflexivity.
  - reflexivity.
Defined.

Lemma debug_print_unknown_keyword_witness :
  @debug_print data.text [] [("colour", VInt 1)] initial_state
  = Raise "TypeError"
      (@after_report data.text (print_call [] [("colour", VInt 1)])
         initial_state).
Proof.
  apply (@debug_print_unknown_keyword data.text [] [("colour", VInt 1)]
           initial_state).
  exists ("colour", VInt 1). split.
  - apply list_elem_of_here.
  - apply (bool_decide_unpack _). vm_compute. exact I.
Defined.

(** ** The command line *)

Section command_line_facts.
Context `{PyText}.
Import DebugFlowVisualizer.

(** X12: without a file name on the command line, the script writes the
    usage line to standard output and exits with status 1; no file is read
    and the graph is untouched. *)
Theorem main_usage fuel files argv σ :
  length argv < 2 →
  ∃ σ', main fuel files argv σ = Exit 1 σ'
    ∧ output σ' = output σ ++ [("stdout", usage +:+ newline)]
    ∧ visualizer σ' = visualizer σ
    ∧ globals σ' = globals σ
    ∧ api_log σ' = api_log σ.
Proof.
  intros Hargv. unfold main. rewrite bool_decide_eq_true_2 by done.
  eexists. split; [reflexivity|]. cbn. by rewrite py_str_VStr.
Qed.


End command_line_facts.

Lemma main_usage_witness :
  ∃ σ', @main data.text 5 ∅ ["debug_analizer.py"] initial_state = Exit 1 σ'
    ∧ output σ' = output initial_state ++ [("stdout", usage +:+ newline)]
    ∧ visualizer σ' = visualizer initial_state
    ∧ globals σ' = globals initial_state
    ∧ api_log σ' = api_log initial_state.
Proof.
  apply (@main_usage data.text 5 ∅ ["debug_analizer.py"] initial_state).
  vm_compute. lia.
Defined.


(** ** The visit reaches every statement *)

Section traversal_facts.
Context `{PyText}.
Import DebugTransformer.

Lemma forallb_traced_flat_map body :
  (∀ s, s ∈ body → forallb traced (visit_stmt s) = true) →
  forallb traced (visit_block body) = true.
Proof.
  unfold visit_block. induction body as [|s body IH]; intros Hbody; [done|].
  cbn [flat_map]. rewrite forallb_app, Hbody, IH; [done| |by left].
  intros s' Hs'. apply Hbody. by right.
Qed.

(** Induction on statements, with the statements of the nested bodies as
    induction hypotheses. *)
Section stmt_induction.
Variable P : ast.stmt → Prop.
Hypothesis HFunctionDef : ∀ name args body decorator_list,
  Forall P body → P (ast.FunctionDef name args body decorator_list).
Hypothesis HFor : ∀ target iter body orelse,
  Forall P body → Forall P orelse → P (ast.For target iter body orelse).
Hypothesis HWhile : ∀ test body orelse,
  Forall P body → Forall P orelse → P (ast.While test body orelse).
Hypothesis HIf : ∀ test body orelse,
  Forall P body → Forall P orelse → P (ast.If test body orelse).
Hypothesis HAssign : ∀ target0 targets value,
  P (ast.Assign target0 targets value).
Hypothesis HExpr : ∀ value, P (ast.Expr value).
Hypothesis HReturn : ∀ value, P (ast.Return value).
Hypothesis HPass : P ast.Pass.

Fixpoint stmt_nested_ind (s : ast.stmt) : P s :=
  let all :=
    fix all (l : list ast.stmt) : Forall P l :=
      match l with
      | [] => @List.Forall_nil _ P
      | x :: l' => @List.Forall_cons _ P x l' (stmt_nested_ind x) (all l')
      end in
  match s with
  | ast.FunctionDef name args body decorator_list =>
    HFunctionDef name args body decorator_list (all body)
  | ast.For target iter body orelse =>
    HFor target iter body orelse (all body) (all orelse)
  | ast.While test body orelse =>
    HWhile test body orelse (all body) (all orelse)
  | ast.If test body orelse => HIf test body orelse (all body) (all orelse)
  | ast.Assign target0 targets value => HAssign target0 targets value
  | ast.Expr value => HExpr value
  | ast.Return value => HReturn value
  | ast.Pass => HPass
  end.

End stmt_induction.

Lemma visit_block_traced body :
  Forall (λ s, forallb traced (visit_stmt s) = true) body →
  forallb traced (visit_block body) = true.
Proof.
  intros Hbody. apply forallb_traced_flat_map. intros s Hs.
  by apply (proj1 (Forall_forall _ _) Hbody).
Qed.

Lemma visit_stmt_traced s : forallb traced (visit_stmt s) = true.
Proof.
  induction s as [name args body decorator_list Hbody
                 |target iter body orelse Hbody Horelse
                 |test body orelse Hbody Horelse
                 |test body orelse Hbody Horelse
                 |target0 targets value|value|value|] using stmt_nested_ind.
  - apply visit_block_traced in Hbody.
    cbn [visit_stmt forallb traced]. rewrite map_app. cbn [map].
    rewrite last_snoc.
    cbn [visit_expr bool_decide]. rewrite andb_true_r.
    change (flat_map visit_stmt body) with (visit_block body).
    by rewrite Hbody.
  - apply visit_block_traced in Hbody, Horelse.
    cbn [visit_stmt forallb traced]. rewrite andb_true_r.
    change (flat_map visit_stmt ?b) with (visit_block b).
    unfold For_new_body. cbn [app]. rewrite last_snoc.
    cbn [is_call_stmt report_stmt].
    rewrite !bool_decide_eq_true_2 by done.
    cbn [forallb traced andb]. by rewrite forallb_app, Hbody, Horelse.
  - apply visit_block_traced in Hbody, Horelse.
    cbn [visit_stmt forallb traced]. rewrite andb_true_r.
    change (flat_map visit_stmt ?b) with (visit_block b).
    by rewrite Hbody, Horelse.
  - apply visit_block_traced in Hbody, Horelse.
    cbn [visit_stmt forallb traced]. rewrite andb_true_r.
    change (flat_map visit_stmt ?b) with (visit_block b).
    unfold If_new_body. cbn [app is_call_stmt report_stmt].
    rewrite !bool_decide_eq_true_2 by done.
    cbn [forallb traced andb]. rewrite Hbody.
    unfold If_new_orelse. destruct (visit_block orelse) as [|s' rest].
    + done.
    + cbn [is_call_stmt report_stmt]. rewrite bool_decide_eq_true_2 by done.
      cbn [forallb traced andb]. cbn [forallb] in Horelse. by rewrite Horelse.
  - cbn [visit_stmt]. unfold visit_Assign. by destruct target0.
  - done.
  - done.
  - done.
Qed.


End traversal_facts.

Lemma visit_If_true_run_witness :
  ∃ node,
    @DebugTransformer.visit_stmt data.text
      (ast.If (ast.Constant (ast.CBool true)) [ast.Pass] []) = [node]
    ∧ @exec_stmt data.text 4 node initial_state
      = @exec_block (exec_stmt (H:=data.text) 3)
          (@DebugTransformer.visit_block data.text [ast.Pass])
          (@after_report data.text (if_branch (VStr "True") (VStr "True"))
             (@after_report data.text (condition_call (VStr "True"))
                initial_state)).
Proof.
  destruct (@visit_If_true_run data.text 0 (ast.Constant (ast.CBool true))
              [ast.Pass] [] initial_state (VBool true) initial_state
              eq_refl eq_refl api_bound_initial_state)
    as (node & Hvisit & Hrun & _).
  exists node. split; [exact Hvisit|exact Hrun].
Defined.

(** ** The instrumented program does what the program does *)

Section preservation_facts.
Context `{PyText}.

Lemma sim_ret {A B} (RA : A → B → Prop) a b :
  RA a b → simulates RA (mret a) (λ _, mret b).
Proof. intros Hab σo σi Hσ _. exists 0, (Ok b σi). by split. Qed.

Lemma sim_raise {A B} (RA : A → B → Prop) exc :
  simulates RA (raise exc) (λ _, raise exc).
Proof. intros σo σi Hσ _. exists 0, (Raise exc σi). by split. Qed.

Lemma sim_bind {A B A' B'} (RA : A → A' → Prop) (RB : B → B' → Prop)
    (o : M A) (i : nat → M A') (fo : A → M B) (fi : nat → A' → M B') :
  simulates RA o i →
  (∀ a a', RA a a' → simulates RB (fo a) (λ k, fi k a')) →
  simulates RB (o ≫= fo) (λ k, i k ≫= fi k).
Proof.
  intros Ho Hf σo σi Hσ Hend. unfold mbind, M_bind in *.
  destruct (Ho σo σi Hσ) as (m1 & r1 & Hr1 & Hk1).
  { intros E. by rewrite E in Hend. }
  destruct (o σo) as [a σo'|exc σo'|] eqn:Eo; [| |done].
  - destruct r1 as [a' σi'|?|]; [|done..]. destruct Hr1 as [Ha Hσ'].
    destruct (Hf a a' Ha σo' σi' Hσ' Hend) as (m2 & r2 & Hr2 & Hk2).
    exists (m1 `max` m2), r2. split; [done|]. intros k Hk.
    rewrite Hk1 by lia. apply Hk2. lia.
  - destruct r1 as [|exc' σi'|]; [done| |done]. destruct Hr1 as [<- Hσ'].
    exists m1, (Raise exc σi'). split; [done|]. intros k Hk.
    by rewrite Hk1.
Qed.

Lemma reserved_api x : x ∈ api_names → x ∈ reserved.
Proof. intros. by right. Qed.

(** *** States *)

Lemma state_rel_after_report r σo σi : state_rel σo σi → state_rel σo (after_report r σi).
Proof. intros []. by split. Qed.

Lemma frame_rel_insert x v v' lo li :
  x ∉ reserved → value_rel v v' → frame_rel lo li →
  frame_rel (<[x:=v]> lo) (<[x:=v']> li).
Proof.
  intros Hx Hv Hl y. destruct (decide (x = y)) as [->|Hne].
  - rewrite !lookup_insert_eq. split; [by constructor|done].
  - rewrite !lookup_insert_ne by done. apply Hl.
Qed.

Lemma state_rel_with_name x v v' σo σi :
  x ∉ reserved → value_rel v v' → state_rel σo σi →
  state_rel (with_name x v σo) (with_name x v' σi).
Proof.
  intros Hx Hv [Hg Ha Hp Hl Ho]. unfold with_name.
  destruct Hl as [lo li Hl|].
  - split; cbn; [done..| |done]. constructor. by apply frame_rel_insert.
  - split; cbn; [| | |constructor|done].
    + intros y Hy. destruct (decide (x = y)) as [->|Hne].
      * rewrite !lookup_insert_eq. by constructor.
      * rewrite !lookup_insert_ne by done. by apply Hg.
    + intros f Hf. rewrite lookup_insert_ne; [by apply Ha|].
      intros ->. by apply Hx, reserved_api.
    + rewrite lookup_insert_ne; [done|]. intros ->. apply Hx. by left.
Qed.

Lemma state_rel_set_locals lo li σo σi (Hl : option_Forall2 frame_rel lo li) :
  state_rel σo σi →
  ∃ σo' σi', set_locals lo σo = Ok () σo' ∧ set_locals li σi = Ok () σi'
    ∧ state_rel σo' σi'.
Proof. intros []. eexists _, _. split_and!; [done..|]. by split. Qed.

Lemma lookup_rel x σo σi :
  state_rel σo σi → x ∉ api_names →
  result_rel value_rel (lookup_name x σo) (lookup_name x σi).
Proof.
  intros Hσ Hx. pose proof Hσ as [Hg Ha Hp Hl Ho]. unfold lookup_name.
  assert (Hloc : option_Forall2 value_rel (locals σo ≫= (.!! x)) (locals σi ≫= (.!! x))).
  { destruct Hl as [lo li Hl|]; [apply Hl|constructor]. }
  destruct Hloc as [v v' Hv|]; [done|].
  destruct (Hg x Hx) as [v v' Hv|]; [done|].
  unfold builtins. case_bool_decide; [|done]. split; [constructor|done].
Qed.

Lemma lookup_api f σo σi :
  state_rel σo σi → f ∈ api_names → lookup_name f σi = Ok (VBuiltin f) σi.
Proof.
  intros [Hg Ha Hp Hl Ho] Hf. unfold lookup_name.
  assert (Hloc : locals σi ≫= (.!! f) = None).
  { destruct Hl as [lo li Hl|]; [|done]. cbn.
    by destruct (Hl f) as [_ [_ ?]]; [apply reserved_api|]. }
  by rewrite Hloc, (Ha f Hf).
Qed.

Lemma sim_pure {A B} (RA : A → B → Prop) (o : M A) (i : M B) :
  (∀ σo σi, state_rel σo σi → result_rel RA (o σo) (i σi)) → simulates RA o (λ _, i).
Proof. intros Hr σo σi Hσ _. exists 0, (i σi). split; [by apply Hr|done]. Qed.

Lemma sim_lookup_name x :
  x ∉ api_names → simulates value_rel (lookup_name x) (λ _, lookup_name x).
Proof. intros Hx. apply sim_pure. intros. by apply lookup_rel. Qed.

Lemma sim_store_name x v v' :
  x ∉ reserved → value_rel v v' →
  simulates (λ _ _, True) (store_name x v) (λ _, store_name x v').
Proof.
  intros Hx Hv. apply sim_pure. intros σo σi Hσ.
  rewrite !store_name_run. split; [done|]. by apply state_rel_with_name.
Qed.

Lemma sim_from_option {A B} (RA : A → B → Prop) exc o o' :
  option_Forall2 RA o o' → simulates RA (from_option exc o) (λ _, from_option exc o').
Proof. intros [a b Hab|]; [by apply sim_ret|apply sim_raise]. Qed.

(** *** Values *)

Lemma truthy_rel v v' : value_rel v v' → truthy v = truthy v'.
Proof.
  intros Hv. destruct Hv as [| | | |l l' Hl|l l' Hl| | | |]; try done;
    by destruct Hl.
Qed.

Lemma as_int_rel v v' : value_rel v v' → as_int v = as_int v'.
Proof. by intros []. Qed.

Lemma sim_binop op a a' b b' :
  value_rel a a' → value_rel b b' → simulates value_rel (binop op a b) (λ _, binop op a' b').
Proof.
  intros Ha Hb. apply sim_pure. intros σo σi Hσ.
  destruct Ha, Hb, op; cbn; try (split; [by constructor|done]); try done.
  all: try (split; [|done]; constructor; by apply Forall2_app).
  all: try (destruct b0; split; [by constructor|done]).
  all: try (destruct b; split; [by constructor|done]).
Qed.

Lemma sim_compare op a a' b b' :
  value_rel a a' → value_rel b b' → simulates value_rel (compare op a b) (λ _, compare op a' b').
Proof.
  intros Ha Hb. apply sim_pure. intros σo σi Hσ. unfold compare.
  rewrite <- (as_int_rel a a'), <- (as_int_rel b b') by done.
  destruct (as_int a), (as_int b); try done. split; [constructor|done].
Qed.

Lemma sim_getattr v v' attr :
  value_rel v v' → simulates value_rel (getattr v attr) (λ _, getattr v' attr).
Proof.
  intros Hv. apply sim_pure. intros σo σi Hσ.
  destruct Hv; cbn; try done.
  repeat case_bool_decide; try done; (split; [apply value_rel_stream|done]).
Qed.

Lemma getitem_rel l l' (z : Z) σo σi :
  Forall2 value_rel l l' → state_rel σo σi →
  result_rel value_rel ((let k := (if bool_decide (z < 0) then Z.of_nat (length l) + z else z)%Z in
          if bool_decide (0 ≤ k)%Z
          then from_option "IndexError" (l !! Z.to_nat k)
          else raise "IndexError") σo)
        ((let k := (if bool_decide (z < 0) then Z.of_nat (length l') + z else z)%Z in
          if bool_decide (0 ≤ k)%Z
          then from_option "IndexError" (l' !! Z.to_nat k)
          else raise "IndexError") σi).
Proof.
  intros Hl Hσ. cbn zeta. rewrite <- (Forall2_length _ _ _ Hl).
  case_bool_decide; [|done].
  match goal with
  | |- context [l !! ?k] => destruct (proj1 (Forall2_lookup _ l l') Hl k) as [x y Hxy|]
  end; by cbn.
Qed.

Lemma sim_getitem v v' i i' :
  value_rel v v' → value_rel i i' → simulates value_rel (getitem v i) (λ _, getitem v' i').
Proof.
  intros Hv Hi. apply sim_pure. intros σo σi Hσ.
  destruct Hv as [| | | |l l' Hl|l l' Hl| | | |], Hi; try done.
  all: by apply getitem_rel.
Qed.

Lemma sim_iterate v v' :
  value_rel v v' → simulates (Forall2 value_rel) (iterate v) (λ _, iterate v').
Proof.
  intros Hv. apply sim_pure. intros σo σi Hσ.
  destruct Hv; cbn; try done. split; [|done].
  induction (String.list_ascii_of_string s); constructor; [constructor|done].
Qed.

(** *** Calls of [print] and binding of parameters *)

Lemma kw_lookup_rel key kws kws' :
  Forall2 keyword_rel kws kws' → option_Forall2 value_rel (kw_lookup key kws) (kw_lookup key kws').
Proof.
  induction 1 as [|[k v] [k' v'] kws kws' [Hk Hv] _ IH]; [constructor|].
  cbn in *. subst k'. case_bool_decide; [by constructor|done].
Qed.

Lemma keyword_rel_keys (P : string → bool) kws kws' :
  Forall2 keyword_rel kws kws' →
  forallb (λ kv, P kv.1) kws = forallb (λ kv, P kv.1) kws'.
Proof.
  induction 1 as [|[k v] [k' v'] kws kws' [Hk Hv] _ IH]; [done|].
  cbn in *. by rewrite Hk, IH.
Qed.

Lemma print_text_option_rel key default kws kws' :
  Forall2 keyword_rel kws kws' →
  print_text_option key default kws = print_text_option key default kws'.
Proof.
  intros Hk. unfold print_text_option.
  destruct (kw_lookup_rel key _ _ Hk) as [v v' Hv|]; [|done]. by destruct Hv.
Qed.

Lemma print_file_rel kws kws' :
  Forall2 keyword_rel kws kws' → print_file kws = print_file kws'.
Proof.
  intros Hk. unfold print_file.
  destruct (kw_lookup_rel "file" _ _ Hk) as [v v' Hv|]; [|done]. by destruct Hv.
Qed.

Lemma py_print_rel args args' kws kws' σo σi :
  text_respects → Forall2 value_rel args args' → Forall2 keyword_rel kws kws' → state_rel σo σi →
  result_rel value_rel (py_print args kws σo) (py_print args' kws' σi).
Proof.
  intros Ht Ha Hk Hσ. unfold py_print.
  pose proof (keyword_rel_keys (λ k, bool_decide (k ∈ ["sep"; "end"; "file"; "flush"])) _ _ Hk)
    as Hkeys.
  cbn beta in Hkeys. rewrite <- Hkeys. clear Hkeys.
  destruct (forallb _ kws); [|done].
  rewrite <- !(print_text_option_rel _ _ _ _ Hk), <- (print_file_rel _ _ Hk).
  assert ((py_str <$> args) = (py_str <$> args')) as <-.
  { induction Ha as [|???? Hv _ IH]; [done|]. cbn. by rewrite (Ht _ _ Hv), IH. }
  destruct (print_text_option "sep" _ kws); [|done].
  destruct (print_text_option "end" _ kws); [|done].
  destruct (print_file kws); [|done].
  cbn. split; [constructor|]. destruct Hσ. split; cbn; [done..|]. congruence.
Qed.

Lemma bind_params_rel params args args' kws kws' :
  Forall2 value_rel args args' → Forall2 keyword_rel kws kws' →
  option_Forall2 (Forall2 keyword_rel) (bind_params params args kws)
    (bind_params params args' kws').
Proof.
  intros Ha Hk. unfold bind_params.
  rewrite <- (Forall2_length _ _ _ Ha).
  case_bool_decide; [|constructor].
  pose proof (keyword_rel_keys (λ k, bool_decide (k ∈ drop (length args) params)) _ _ Hk)
    as Hkeys.
  cbn beta in Hkeys. rewrite <- Hkeys. clear Hkeys.
  destruct (forallb _ kws); [|constructor].
  assert (Hrest : option_Forall2 (Forall2 keyword_rel)
            (mapM (λ p, v ← kw_lookup p kws; Some (p, v)) (drop (length args) params))
            (mapM (λ p, v ← kw_lookup p kws'; Some (p, v)) (drop (length args) params))).
  { induction (drop (length args) params) as [|p ps IH]; [by repeat constructor|].
    cbn. destruct (kw_lookup_rel p _ _ Hk) as [v v' Hv|]; [|constructor].
    cbn. destruct IH as [r r' Hr|]; [|constructor].
    simpl. apply Some_Forall2. by constructor. }
  destruct Hrest as [r r' Hr|]; [|constructor].
  cbn. constructor. apply Forall2_app; [|done].
  clear -Ha. revert params. induction Ha as [|v v' args args' Hv _ IH];
    intros [|p ps]; cbn; try constructor; [done|apply IH].
Qed.

Lemma bind_params_keys params args kws bound :
  bind_params params args kws = Some bound → bound.*1 ⊆ params.
Proof.
  unfold bind_params. intros Hb.
  case_bool_decide; [|done]. destruct (forallb _ kws); [|done].
  destruct (mapM _ _) as [rest|] eqn:Hrest; [|done]. cbn in Hb.
  injection Hb as <-. rewrite fmap_app.
  intros x [Hx|Hx]%elem_of_app.
  - rewrite fst_zip in Hx.
    + by eapply subseteq_take, Hx.
    + rewrite length_take. lia.
  - assert (rest.*1 = drop (length args) params) as Heq.
    { clear -Hrest. revert rest Hrest.
      induction (drop (length args) params) as [|p ps IH]; intros rest Hrest.
      - by injection Hrest as <-.
      - cbn in Hrest. destruct (kw_lookup p kws); [|done]. cbn in Hrest.
        destruct (mapM _ ps) as [r|]; [|done]. cbn in Hrest.
        injection Hrest as <-. cbn. f_equal. by apply IH. }
    rewrite Heq in Hx. by eapply subseteq_drop, Hx.
Qed.

Lemma frame_rel_list_to_map bound bound' :
  Forall2 keyword_rel bound bound' → Forall (λ p, p ∉ reserved) bound.*1 →
  frame_rel (list_to_map bound) (list_to_map bound').
Proof.
  induction 1 as [|[k v] [k' v'] b b' [Hk Hv] _ IH]; cbn.
  - intros _ x. rewrite !lookup_empty. split; [constructor|done].
  - cbn in *. subst k'. intros [Hn Hb]%Forall_cons.
    apply frame_rel_insert; auto.
Qed.

(** *** Steps of the evaluator *)

Lemma sim_out_of_fuel {A B} (RA : A → B → Prop) i : simulates RA out_of_fuel i.
Proof. intros σo σi _ Hend. by destruct Hend. Qed.

Lemma sim_step {A B} (RA : A → B → Prop) o (i j : nat → M B) :
  (∀ k, i (S k) = j k) → simulates RA o j → simulates RA o i.
Proof.
  intros Hij Ho σo σi Hσ Hend. destruct (Ho σo σi Hσ Hend) as (m & r & Hr & Hk).
  exists (S m), r. split; [done|]. intros [|k] Hle; [lia|].
  rewrite Hij. apply Hk. lia.
Qed.

Lemma sim_ext {A B} (RA : A → B → Prop) o (i j : nat → M B) :
  (∀ k σ, i k σ = j k σ) → simulates RA o j → simulates RA o i.
Proof.
  intros Hij Ho σo σi Hσ Hend. destruct (Ho σo σi Hσ Hend) as (m & r & Hr & Hk).
  exists m, r. split; [done|]. intros k Hle. rewrite Hij. by apply Hk.
Qed.

Lemma sim_mapM {A A' B B'} (RB : B → B' → Prop) (fo : A → M B)
    (fi : nat → A' → M B') l l' :
  Forall2 (λ a a', simulates RB (fo a) (λ k, fi k a')) l l' →
  simulates (Forall2 RB) (mapM fo l) (λ k, mapM (fi k) l').
Proof.
  induction 1 as [|a a' l l' Ha _ IH]; cbn [mapM].
  - by apply sim_ret.
  - eapply sim_bind; [exact Ha|]. intros b b' Hb.
    eapply sim_bind; [exact IH|]. intros bs bs' Hbs.
    apply sim_ret. by constructor.
Qed.

Lemma sim_get_locals :
  simulates (option_Forall2 frame_rel) get_locals (λ _, get_locals).
Proof. apply sim_pure. intros σo σi Hσ. split; [apply Hσ|done]. Qed.

Lemma sim_set_locals lo li :
  option_Forall2 frame_rel lo li →
  simulates (λ _ _, True) (set_locals lo) (λ _, set_locals li).
Proof.
  intros Hl. apply sim_pure. intros σo σi Hσ.
  destruct (state_rel_set_locals lo li σo σi Hl Hσ) as (σo' & σi' & -> & -> & Hσ').
  by split.
Qed.

(** *** Blocks *)

Lemma exec_block_app exec l1 l2 σ :
  exec_block exec (l1 ++ l2) σ
  = match exec_block exec l1 σ with
    | Ok Normal σ' => exec_block exec l2 σ'
    | r => r
    end.
Proof.
  revert σ. induction l1 as [|s l1 IH]; intros σ; [done|].
  cbn [app exec_block]. unfold mbind, M_bind.
  destruct (exec s σ) as [[|v] σ'|exc σ'|]; [apply IH|done..].
Qed.

Lemma sim_single o s :
  simulates outcome_rel o (λ k, exec_stmt k s) ↔ simulates outcome_rel o (λ k, exec_block (exec_stmt k) [s]).
Proof.
  split; apply sim_ext; intros k σ; by rewrite exec_block_single.
Qed.

Lemma sim_exec_block (fo : ast.stmt → M outcome) body :
  Forall (λ s, simulates outcome_rel (fo s)
                 (λ k, exec_block (exec_stmt k) (DebugTransformer.visit_stmt s)))
    body →
  simulates outcome_rel (exec_block fo body)
    (λ k, exec_block (exec_stmt k) (DebugTransformer.visit_block body)).
Proof.
  induction 1 as [|s body Hs _ IH]; [by apply sim_ret, outcome_rel_normal|].
  intros σo σi Hσ Hend. cbn [exec_block] in *. unfold mbind, M_bind in *.
  destruct (Hs σo σi Hσ) as (m1 & r1 & Hr1 & Hk1).
  { intros E. by rewrite E in Hend. }
  unfold DebugTransformer.visit_block. cbn [flat_map].
  destruct (fo s σo) as [[|v] σo'|exc σo'|] eqn:Eo; [| | |done].
  - destruct r1 as [out' σi'|?|]; [|done..]. destruct Hr1 as [Hout Hσ'].
    inversion Hout; subst.
    destruct (IH σo' σi' Hσ' Hend) as (m2 & r2 & Hr2 & Hk2).
    exists (m1 `max` m2), r2. split; [done|]. intros k Hk.
    rewrite exec_block_app, Hk1 by lia. apply Hk2. lia.
  - destruct r1 as [out' σi'|?|]; [|done..]. destruct Hr1 as [Hout Hσ'].
    inversion Hout; subst.
    exists m1, (Ok (Returned v') σi'). split; [by split|]. intros k Hk.
    by rewrite exec_block_app, Hk1.
  - destruct r1 as [|exc' σi'|]; [done| |done]. destruct Hr1 as [<- Hσ'].
    exists m1, (Raise exc σi'). split; [done|]. intros k Hk.
    by rewrite exec_block_app, Hk1.
Qed.

Lemma sim_prefix pre rest o σo σi (Q : state → Prop) :
  reports_only pre Q → state_rel σo σi → Q σi →
  simulates outcome_rel o (λ k, exec_block (exec_stmt k) rest) →
  o σo ≠ OutOfFuel →
  ∃ m ri, result_rel outcome_rel (o σo) ri
    ∧ ∀ k, m ≤ k → exec_block (exec_stmt k) (pre ++ rest) σi = ri.
Proof.
  intros Hpre Hσ HQ Ho Hend.
  destruct (Hpre σo σi Hσ HQ) as (σi' & Hσ' & Hrun).
  destruct (Ho σo σi' Hσ' Hend) as (m & r & Hr & Hk).
  exists (m `max` 3), r. split; [done|]. intros k Hle.
  rewrite exec_block_app, Hrun by lia. apply Hk. lia.
Qed.

Lemma sim_suffix post o body :
  reports_only post (λ _, True) →
  simulates outcome_rel o (λ k, exec_block (exec_stmt k) body) →
  simulates outcome_rel o (λ k, exec_block (exec_stmt k) (body ++ post)).
Proof.
  intros Hpost Ho σo σi Hσ Hend.
  destruct (Ho σo σi Hσ Hend) as (m & r & Hr & Hk).
  destruct (o σo) as [[|v] σo'|exc σo'|] eqn:Eo; [| | |done].
  - destruct r as [out' σi'|?|]; [|done..]. destruct Hr as [Hout Hσ'].
    inversion Hout; subst.
    destruct (Hpost σo' σi' Hσ' I) as (σi'' & Hσ'' & Hrun).
    exists (m `max` 3), (Ok Normal σi''). split; [by split|]. intros k Hle.
    rewrite exec_block_app, Hk by lia. apply Hrun. lia.
  - destruct r as [out' σi'|?|]; [|done..]. destruct Hr as [Hout Hσ'].
    inversion Hout; subst.
    exists m, (Ok (Returned v') σi'). split; [by split|]. intros k Hle.
    by rewrite exec_block_app, Hk.
  - destruct r as [|exc' σi'|]; [done| |done]. destruct Hr as [<- Hσ'].
    exists m, (Raise exc σi'). split; [done|]. intros k Hle.
    by rewrite exec_block_app, Hk.
Qed.

Lemma state_rel_api_bound σo σi : state_rel σo σi → api_bound σi.
Proof. intros Hσ f Hf. by eapply lookup_api. Qed.

Lemma fuel3 k : 3 ≤ k → ∃ n, k = S (S (S n)).
Proof. intros Hk. exists (k - 3). lia. Qed.

(** *** Expressions and calls *)

Lemma Forall2_map_forallb {A B} (P : A → bool) (R : A → B → Prop) g l :
  forallb P l = true → (∀ a, P a = true → R a (g a)) → Forall2 R l (map g l).
Proof.
  intros Hl HR. induction l as [|a l IH]; [constructor|].
  cbn in Hl. apply andb_true_iff in Hl as [Ha Hl]. constructor; auto.
Qed.

Lemma Forall2_diag_forallb {A} (P : A → bool) (R : A → A → Prop) l :
  forallb P l = true → (∀ a, P a = true → R a a) → Forall2 R l l.
Proof.
  intros Hl HR. rewrite <- (map_id l) at 2. by eapply Forall2_map_forallb.
Qed.

Lemma value_rel_constant c : value_rel (constant_value c) (constant_value c).
Proof. destruct c; constructor. Qed.

Lemma sim_keywords n g keywords :
  forallb (λ kw, free_of api_names kw.2) keywords = true →
  (∀ e, free_of api_names e = true →
     simulates value_rel (eval_expr n e) (λ k, eval_expr k (g e))) →
  simulates (Forall2 keyword_rel)
    (mapM (λ kw, v ← eval_expr n kw.2; mret (kw.1, v)) keywords)
    (λ k, mapM (λ kw, v ← eval_expr k kw.2; mret (kw.1, v))
            (map (λ kw, (kw.1, g kw.2)) keywords)).
Proof.
  intros Hk He. apply sim_mapM.
  eapply Forall2_map_forallb; [exact Hk|]. intros [key e] Hfree. cbn in *.
  eapply sim_bind; [by apply He|]. intros v v' Hv. by apply sim_ret.
Qed.

Lemma sim_eval_step n : sim_eval n → sim_call n → sim_eval (S n).
Proof.
  intros HE HC e He.
  apply (sim_step _ _ _ (λ k, eval_expr_body (eval_expr k) (call_value k) e));
    [done|].
  destruct e as [c|id|func args keywords|elts|elts|lhs op rhs|lhs op rhs
                |v attr|v slice]; cbn [eval_expr_body free_of] in *.
  - apply sim_ret, value_rel_constant.
  - apply sim_lookup_name. by apply bool_decide_eq_true in He.
  - apply andb_true_iff in He as [[Hf Ha]%andb_true_iff Hk].
    eapply sim_bind; [by apply HE|]. intros f f' Hff.
    eapply sim_bind.
    { apply sim_mapM. eapply Forall2_diag_forallb; [exact Ha|]. apply HE. }
    intros vs vs' Hvs.
    eapply sim_bind.
    { pose proof (sim_keywords n (λ e, e) keywords Hk HE) as Hs.
      assert (map (λ kw : string * ast.expr, (kw.1, kw.2)) keywords = keywords)
        as Heq.
      { clear. induction keywords as [|[??] ? IH]; [done|]. cbn. by rewrite IH. }
      cbn beta in Hs. by rewrite Heq in Hs. }
    intros ks ks' Hks. by apply HC.
  - eapply sim_bind.
    { apply sim_mapM. eapply Forall2_diag_forallb; [exact He|]. apply HE. }
    intros vs vs' Hvs. apply sim_ret. by constructor.
  - eapply sim_bind.
    { apply sim_mapM. eapply Forall2_diag_forallb; [exact He|]. apply HE. }
    intros vs vs' Hvs. apply sim_ret. by constructor.
  - apply andb_true_iff in He as [Hl Hr].
    eapply sim_bind; [by apply HE|]. intros a a' Ha.
    eapply sim_bind; [by apply HE|]. intros b b' Hb.
    by apply sim_binop.
  - apply andb_true_iff in He as [Hl Hr].
    eapply sim_bind; [by apply HE|]. intros a a' Ha.
    eapply sim_bind; [by apply HE|]. intros b b' Hb.
    by apply sim_compare.
  - eapply sim_bind; [by apply HE|]. intros a a' Ha. by apply sim_getattr.
  - apply andb_true_iff in He as [Hl Hr].
    eapply sim_bind; [by apply HE|]. intros a a' Ha.
    eapply sim_bind; [by apply HE|]. intros b b' Hb.
    by apply sim_getitem.
Qed.

Lemma lookup_print σo σi :
  state_rel σo σi → lookup_name "print" σo = Ok (VBuiltin "print") σo.
Proof.
  intros [Hg Ha Hp Hl Ho]. unfold lookup_name.
  assert (Hloc : locals σo ≫= (.!! "print") = None).
  { destruct Hl as [lo li Hl|]; [|done]. cbn.
    by destruct (Hl "print") as [_ [? _]]; [left|]. }
  by rewrite Hloc, Hp.
Qed.

Lemma sim_print_call n args args' kws kws' :
  text_respects → Forall2 value_rel args args' → Forall2 keyword_rel kws kws' →
  simulates value_rel (call_value n (VBuiltin "print") args kws)
    (λ k, call_value k (VBuiltin "debug_print") args' kws').
Proof.
  intros Ht Ha Hk. destruct n as [|n]; [apply sim_out_of_fuel|].
  apply (sim_step _ _ _ (λ _, debug_print args' kws')); [done|].
  apply sim_pure. intros σo σi Hσ. rewrite debug_print_run.
  apply py_print_rel; [done..|]. by apply state_rel_after_report.
Qed.

Lemma sim_eval_visited_step n :
  text_respects → sim_eval n → sim_eval (S n) → sim_eval_visited n → sim_call n → sim_eval_visited (S n).
Proof.
  intros Ht HE0 HE0' HE HC e He.
  destruct e as [c|id|func args keywords|elts|elts|lhs op rhs|lhs op rhs
                |v attr|v slice];
    cbn [DebugTransformer.visit_expr DebugTransformer.visit_Call free_of] in *;
    try (by apply HE0').
  - destruct func as [|id| | | | | | |]; try (by apply HE0').
    case_bool_decide as Hid; [subst id|by apply HE0'].
    apply andb_true_iff in He as [[_ Ha]%andb_true_iff Hk].
    apply (sim_step _ _ _ (λ k, eval_expr_body (eval_expr k) (call_value k)
                                  (ast.Call (ast.Name "debug_print") args keywords)));
      [done|].
    cbn [eval_expr_body].
    eapply (sim_bind (λ f f', f = VBuiltin "print" ∧ f' = VBuiltin "debug_print")).
    { destruct n as [|n]; [apply sim_out_of_fuel|].
      apply (sim_step _ _ _ (λ _, lookup_name "debug_print")); [done|].
      apply sim_pure. intros σo σi Hσ. cbn [eval_expr eval_expr_body].
      rewrite (lookup_print σo σi Hσ), (lookup_api "debug_print" σo σi Hσ).
      - done.
      - apply (bool_decide_unpack _). by vm_compute. }
    intros f f' [-> ->].
    eapply sim_bind.
    { apply sim_mapM. eapply Forall2_diag_forallb; [exact Ha|]. apply HE0. }
    intros vs vs' Hvs.
    eapply sim_bind.
    { pose proof (sim_keywords n (λ e, e) keywords Hk HE0) as Hs.
      assert (map (λ kw : string * ast.expr, (kw.1, kw.2)) keywords = keywords)
        as Heq.
      { clear. induction keywords as [|[??] ? IH]; [done|]. cbn. by rewrite IH. }
      cbn beta in Hs. by rewrite Heq in Hs. }
    intros ks ks' Hks. by apply sim_print_call.
  - apply (sim_step _ _ _ (λ k, eval_expr_body (eval_expr k) (call_value k)
      (ast.List (map DebugTransformer.visit_expr elts)))); [done|].
    cbn [eval_expr_body]. eapply sim_bind.
    { apply sim_mapM. eapply Forall2_map_forallb; [exact He|]. apply HE. }
    intros vs vs' Hvs. apply sim_ret. by constructor.
  - apply (sim_step _ _ _ (λ k, eval_expr_body (eval_expr k) (call_value k)
      (ast.Tuple (map DebugTransformer.visit_expr elts)))); [done|].
    cbn [eval_expr_body]. eapply sim_bind.
    { apply sim_mapM. eapply Forall2_map_forallb; [exact He|]. apply HE. }
    intros vs vs' Hvs. apply sim_ret. by constructor.
  - apply andb_true_iff in He as [Hl Hr].
    apply (sim_step _ _ _ (λ k, eval_expr_body (eval_expr k) (call_value k)
      (ast.BinOp (DebugTransformer.visit_expr lhs) op
         (DebugTransformer.visit_expr rhs)))); [done|].
    cbn [eval_expr_body].
    eapply sim_bind; [by apply HE|]. intros a a' Ha.
    eapply sim_bind; [by apply HE|]. intros b b' Hb.
    by apply sim_binop.
  - apply andb_true_iff in He as [Hl Hr].
    apply (sim_step _ _ _ (λ k, eval_expr_body (eval_expr k) (call_value k)
      (ast.Compare (DebugTransformer.visit_expr lhs) op
         (DebugTransformer.visit_expr rhs)))); [done|].
    cbn [eval_expr_body].
    eapply sim_bind; [by apply HE|]. intros a a' Ha.
    eapply sim_bind; [by apply HE|]. intros b b' Hb.
    by apply sim_compare.
  - apply (sim_step _ _ _ (λ k, eval_expr_body (eval_expr k) (call_value k)
      (ast.Attribute (DebugTransformer.visit_expr v) attr))); [done|].
    cbn [eval_expr_body].
    eapply sim_bind; [by apply HE|]. intros a a' Ha. by apply sim_getattr.
  - apply andb_true_iff in He as [Hl Hr].
    apply (sim_step _ _ _ (λ k, eval_expr_body (eval_expr k) (call_value k)
      (ast.Subscript (DebugTransformer.visit_expr v)
         (DebugTransformer.visit_expr slice)))); [done|].
    cbn [eval_expr_body].
    eapply sim_bind; [by apply HE|]. intros a a' Ha.
    eapply sim_bind; [by apply HE|]. intros b b' Hb.
    by apply sim_getitem.
Qed.

Lemma sim_wrapper {A} (R : A → value → Prop) (o : M A) func args kws name :
  get_name func = Some name →
  simulates R o (λ k, call_value k func args kws) →
  simulates R o (λ k, call_value k (VWrapper func) args kws).
Proof.
  intros Hname Ho σo σi Hσ Hend.
  destruct (Ho σo (after_report (function_enter name args kws) σi))
    as (m & r & Hr & Hk); [by apply state_rel_after_report|done|].
  exists (S m),
    (match r with
     | Ok result σ' => Ok result (after_report (function_exit result) σ')
     | _ => r
     end).
  split.
  - unfold result_rel in *. destruct (o σo), r; try done.
    destruct Hr as [? ?]. split; [done|]. by apply state_rel_after_report.
  - intros [|k] Hle; [lia|]. rewrite (wrapper_call _ _ _ _ _ name) by done.
    rewrite Hk by lia. by destruct r.
Qed.

Lemma bind_params_sound params args args' kws kws' :
  Forall2 value_rel args args' → Forall2 keyword_rel kws kws' →
  option_Forall2 (λ b b', Forall2 keyword_rel b b' ∧ b.*1 ⊆ params)
    (bind_params params args kws) (bind_params params args' kws').
Proof.
  intros Ha Hk. pose proof (bind_params_rel params _ _ _ _ Ha Hk) as Hb.
  destruct (bind_params params args kws) as [b|] eqn:E.
  - inversion Hb; subst. constructor. split; [done|].
    by eapply bind_params_keys.
  - inversion Hb; subst. constructor.
Qed.

Lemma forallb_elem {A} (P : A → bool) l x :
  forallb P l = true → x ∈ l → P x = true.
Proof.
  intros Hl Hx. induction Hx as [x l|x y l _ IH]; cbn in Hl;
    apply andb_true_iff in Hl as [? ?]; auto.
Qed.

Lemma sim_call_step n : text_respects → sim_exec n → sim_call n → sim_call (S n).
Proof.
  intros Ht HS HC f f' args args' kws kws' Hf Ha Hk.
  destruct Hf as [| | | | | |name params body Hbody Hparams| | |];
    try (apply (sim_step _ _ _ (λ _, raise "TypeError")); [done|];
         apply sim_raise).
  - apply (sim_wrapper _ _ _ _ _ name); [done|].
    apply (sim_step _ _ _ (λ k, call_value_body (exec_stmt k) (call_value k)
      (VFunction name params (DebugTransformer.visit_block body)) args' kws'));
      [done|].
    cbn [call_value call_value_body].
    eapply sim_bind.
    { apply sim_from_option. by apply bind_params_sound. }
    intros b b' [Hb Hkeys].
    eapply sim_bind; [apply sim_get_locals|]. intros caller caller' Hcaller.
    eapply sim_bind.
    { apply sim_set_locals. constructor. apply frame_rel_list_to_map; [done|].
      apply Forall_forall. intros p Hp%Hkeys.
      pose proof (forallb_elem _ _ _ Hparams Hp) as Hin.
      by apply bool_decide_eq_true in Hin. }
    intros _ _ _.
    eapply sim_bind.
    { apply sim_exec_block. apply Forall_forall. intros s Hs.
      apply HS. by eapply forallb_elem. }
    intros out out' Hout.
    eapply sim_bind; [by apply sim_set_locals|]. intros _ _ _.
    apply sim_ret. destruct Hout; [constructor|done].
  - apply (sim_step _ _ _ (λ _, py_print args' kws')); [done|].
    apply sim_pure. intros σo σi Hσ. by apply py_print_rel.
Qed.

(** *** Statements *)

Lemma sim_with_prefix pre rest o :
  reports_only pre (λ _, True) →
  simulates outcome_rel o (λ k, exec_block (exec_stmt k) rest) →
  simulates outcome_rel o (λ k, exec_block (exec_stmt k) (pre ++ rest)).
Proof. intros Hpre Ho σo σi Hσ Hend. by eapply sim_prefix. Qed.

Lemma reports_if_true condition :
  reports_only
    [DebugTransformer.report_stmt "debug_condition"
       [ast.Constant (ast.CStr condition)];
     DebugTransformer.report_stmt "debug_if_branch"
       [ast.Constant (ast.CStr condition); ast.Constant (ast.CStr "True")]]
    (λ _, True).
Proof.
  intros σo σi Hσ _. eexists. split.
  - apply state_rel_after_report, state_rel_after_report, Hσ.
  - intros k [j ->]%fuel3.
    erewrite exec_block_cons_Normal;
      [|apply exec_debug_condition; by eapply state_rel_api_bound].
    rewrite exec_block_single. apply exec_debug_if_branch.
    apply api_bound_after_report. by eapply state_rel_api_bound.
Qed.

Lemma reports_if_false condition :
  reports_only
    [DebugTransformer.report_stmt "debug_if_branch"
       [ast.Constant (ast.CStr condition); ast.Constant (ast.CStr "False")]]
    (λ _, True).
Proof.
  intros σo σi Hσ _. eexists. split.
  - apply state_rel_after_report, Hσ.
  - intros k [j ->]%fuel3.
    rewrite exec_block_single. apply exec_debug_if_branch.
    by eapply state_rel_api_bound.
Qed.

Lemma reports_loop_end :
  reports_only [DebugTransformer.report_stmt "debug_loop_end" []] (λ _, True).
Proof.
  intros σo σi Hσ _. eexists. split.
  - apply state_rel_after_report, Hσ.
  - intros k [j ->]%fuel3.
    rewrite exec_block_single. apply exec_debug_loop_end.
    by eapply state_rel_api_bound.
Qed.

Lemma reports_loop_start loop_info x v :
  reports_only
    [DebugTransformer.report_stmt "debug_loop"
       [ast.Constant (ast.CStr loop_info)];
     DebugTransformer.report_stmt "debug_loop_iteration" [ast.Name x]]
    (λ σ, lookup_name x σ = Ok v σ).
Proof.
  intros σo σi Hσ Hx. eexists. split.
  - apply state_rel_after_report, state_rel_after_report, Hσ.
  - intros k [j ->]%fuel3.
    erewrite exec_block_cons_Normal;
      [|apply exec_debug_loop; by eapply state_rel_api_bound].
    rewrite exec_block_single. apply exec_debug_loop_iteration.
    + apply api_bound_after_report. by eapply state_rel_api_bound.
    + by rewrite lookup_after_report, Hx.
Qed.

Lemma reports_variable x :
  reports_only
    [DebugTransformer.report_stmt "debug_variable"
       [ast.Constant (ast.CStr x); ast.Name x]]
    (λ σ, ∃ v, lookup_name x σ = Ok v σ).
Proof.
  intros σo σi Hσ [v Hx]. eexists. split.
  - apply state_rel_after_report, Hσ.
  - intros k [j ->]%fuel3.
    rewrite exec_block_single. apply exec_debug_variable; [|done].
    by eapply state_rel_api_bound.
Qed.

Lemma sim_round n x item item' body loop_info :
  x ∉ reserved → value_rel item item' →
  simulates outcome_rel (exec_block (exec_stmt n) body)
    (λ k, exec_block (exec_stmt k) (DebugTransformer.visit_block body)) →
  simulates outcome_rel (assign (ast.Name x) item;; exec_block (exec_stmt n) body)
    (λ k, assign (ast.Name x) item';;
          exec_block (exec_stmt k)
            (DebugTransformer.For_new_body loop_info (ast.Name x)
               (DebugTransformer.visit_block body))).
Proof.
  intros Hx Hv Hbody σo σi Hσ Hend. cbn [assign] in *.
  rewrite (bind_Ok _ _ _ _ _ (store_name_run x item σo)) in Hend |- *.
  destruct (sim_prefix _ _ _ _ (with_name x item' σi) _
              (reports_loop_start loop_info x item')
              (state_rel_with_name x item item' σo σi Hx Hv Hσ)
              (lookup_with_name_eq x item' σi)
              (sim_suffix _ _ _ reports_loop_end Hbody) Hend)
    as (m & ri & Hr & Hk).
  exists m, ri. split; [done|]. intros k Hle.
  rewrite (bind_Ok _ _ _ _ _ (store_name_run x item' σi)).
  by apply Hk.
Qed.

Lemma sim_for_each round (round' : nat → value → M outcome) items items' :
  Forall2 value_rel items items' →
  (∀ item item', value_rel item item' → simulates outcome_rel (round item) (λ k, round' k item')) →
  simulates outcome_rel (for_each round items) (λ k, for_each (round' k) items').
Proof.
  intros Hitems Hround.
  induction Hitems as [|item item' items items' Hi _ IH]; cbn [for_each].
  - apply sim_ret, outcome_rel_normal.
  - eapply sim_bind; [by apply Hround|]. intros out out' Hout.
    destruct Hout; [done|]. apply sim_ret. by constructor.
Qed.

(** *** Assignments *)

Lemma sim_assign_name target v v' :
  free_of reserved target = true → value_rel v v' →
  simulates (λ _ _, True) (assign_name target v) (λ _, assign_name target v').
Proof.
  intros Ht Hv. destruct target; cbn [assign_name]; try apply sim_raise.
  apply sim_store_name; [|done]. by apply bool_decide_eq_true in Ht.
Qed.

Lemma sim_unpack elts items items' :
  forallb (free_of reserved) elts = true → Forall2 value_rel items items' →
  simulates (λ _ _, True)
    (if bool_decide (length elts = length items)
     then mapM (λ p, assign_name p.1 p.2) (zip elts items);; mret ()
     else raise "ValueError")
    (λ _, if bool_decide (length elts = length items')
          then mapM (λ p, assign_name p.1 p.2) (zip elts items');; mret ()
          else raise "ValueError").
Proof.
  intros He Hi. rewrite <- (Forall2_length _ _ _ Hi).
  case_bool_decide; [|apply sim_raise].
  eapply sim_bind; [|intros; by apply sim_ret].
  apply (sim_mapM (λ _ _, True) (λ p, assign_name p.1 p.2)
           (λ _ p, assign_name p.1 p.2)).
  clear -He Hi. revert elts He.
  induction Hi as [|v v' items items' Hv _ IH]; intros [|e elts] He;
    cbn [zip zip_with]; try constructor.
  - cbn in He. apply andb_true_iff in He as [He _]. by apply sim_assign_name.
  - cbn in He. apply andb_true_iff in He as [_ He]. by apply IH.
Qed.

Lemma sim_assign target v v' :
  free_of reserved target = true → value_rel v v' →
  simulates (λ _ _, True) (assign target v) (λ _, assign target v').
Proof.
  intros Ht Hv. destruct target; cbn [assign free_of] in *; try apply sim_raise.
  - apply sim_store_name; [|done]. by apply bool_decide_eq_true in Ht.
  - eapply sim_bind; [by apply sim_iterate|]. intros items items' Hi.
    by apply sim_unpack.
  - eapply sim_bind; [by apply sim_iterate|]. intros items items' Hi.
    by apply sim_unpack.
Qed.

Lemma sim_Assign n target0 targets value :
  sim_eval n → clean (ast.Assign target0 targets value) = true →
  simulates outcome_rel (exec_stmt (S n) (ast.Assign target0 targets value))
    (λ k, exec_stmt k (ast.Assign target0 targets value)).
Proof.
  intros HE Hs. cbn [clean] in Hs.
  apply andb_true_iff in Hs as [[H0 Hts]%andb_true_iff Hv].
  apply (sim_step _ _ _ (λ k, exec_stmt_body (eval_expr k) (exec_stmt k)
    (call_value k) (ast.Assign target0 targets value))); [done|].
  cbn [exec_stmt exec_stmt_body].
  eapply sim_bind; [by apply HE|]. intros v v' Hvv.
  eapply sim_bind; [by apply sim_assign|]. intros _ _ _.
  eapply sim_bind; [|intros; apply sim_ret, outcome_rel_normal].
  apply (sim_mapM (λ _ _, True) (λ target, assign target v)
           (λ _ target, assign target v')).
  eapply Forall2_diag_forallb; [exact Hts|]. intros t Ht. by apply sim_assign.
Qed.

Lemma bound_with_name x y v σ : is_bound x σ → is_bound x (with_name y v σ).
Proof.
  intros [w Hw]. destruct (decide (y = x)) as [->|Hne].
  - eexists. apply lookup_with_name_eq.
  - exists w. by rewrite lookup_with_name_ne, Hw.
Qed.

Lemma mapM_Ok_inv {A B} (f : A → M B) (Q : state → Prop) l σ vs σ' :
  (∀ a σ1 b σ2, f a σ1 = Ok b σ2 → Q σ1 → Q σ2) →
  mapM f l σ = Ok vs σ' → Q σ → Q σ'.
Proof.
  intros Hf. revert σ vs. induction l as [|a l IH]; intros σ vs Hrun HQ.
  - unfold mapM, mret, M_ret in Hrun. by simplify_eq.
  - cbn [mapM] in Hrun. unfold mbind, M_bind in Hrun.
    destruct (f a σ) as [b σ1| |] eqn:Ea; [|done..].
    destruct (mapM f l σ1) as [bs σ2| |] eqn:El; [|done..].
    unfold mret, M_ret in Hrun. simplify_eq. eapply IH; [done|]. by eapply Hf.
Qed.

Lemma bound_assign_name x target v σ u σ' :
  assign_name target v σ = Ok u σ' → is_bound x σ → is_bound x σ'.
Proof.
  destruct target; try done. cbn [assign_name]. rewrite store_name_run.
  intros ?; simplify_eq. apply bound_with_name.
Qed.

Lemma iterate_Ok v σ items σ' : iterate v σ = Ok items σ' → σ' = σ.
Proof. destruct v; cbn; unfold mret, M_ret, raise; congruence. Qed.

Lemma bound_unpack x elts items σ u σ' :
  (if bool_decide (length elts = length items)
   then mapM (λ p, assign_name p.1 p.2) (zip elts items);; mret ()
   else raise "ValueError") σ = Ok u σ' →
  is_bound x σ → is_bound x σ'.
Proof.
  case_bool_decide; [|done]. unfold mbind, M_bind, mret, M_ret.
  destruct (@mapM M _ _ _ _ _ _ σ) as [vs σ1| |] eqn:E; [|done..].
  intros ?; simplify_eq. eapply mapM_Ok_inv; [|exact E].
  intros [t w] σa b σb. apply bound_assign_name.
Qed.

Lemma bound_assign x target v σ u σ' :
  assign target v σ = Ok u σ' → is_bound x σ → is_bound x σ'.
Proof.
  destruct target; try done; cbn [assign].
  - rewrite store_name_run. intros ?; simplify_eq. apply bound_with_name.
  - unfold mbind at 1, M_bind at 1.
    destruct (iterate v σ) as [items σ1| |] eqn:E; [|done..].
    apply iterate_Ok in E as ->. apply bound_unpack.
  - unfold mbind at 1, M_bind at 1.
    destruct (iterate v σ) as [items σ1| |] eqn:E; [|done..].
    apply iterate_Ok in E as ->. apply bound_unpack.
Qed.

Lemma bound_after_Assign k x targets value σ out σ' :
  exec_stmt k (ast.Assign (ast.Name x) targets value) σ = Ok out σ' →
  is_bound x σ'.
Proof.
  destruct k as [|k]; [done|]. cbn [exec_stmt exec_stmt_body].
  unfold mbind, M_bind, mret, M_ret.
  destruct (eval_expr k value σ) as [v σ1| |]; [|done..].
  cbn [assign]. rewrite store_name_run.
  destruct (@mapM M _ _ _ _ _ targets _) as [vs σ2| |] eqn:E; [|done..].
  intros ?; simplify_eq. eapply mapM_Ok_inv; [|exact E|].
  - intros t σa b σb. apply bound_assign.
  - eexists. apply lookup_with_name_eq.
Qed.

Lemma sim_then_report o s r (Q : state → Prop) :
  simulates outcome_rel o (λ k, exec_stmt k s) →
  (∀ k σ out σ', exec_stmt k s σ = Ok out σ' → Q σ') →
  reports_only [r] Q →
  simulates outcome_rel o (λ k, exec_block (exec_stmt k) [s; r]).
Proof.
  intros Ho HQ Hr σo σi Hσ Hend.
  destruct (Ho σo σi Hσ Hend) as (m & ri & Hri & Hk).
  destruct (o σo) as [[|v] σo'|exc σo'|] eqn:Eo; [| | |done].
  - destruct ri as [out' σi'|?|]; [|done..]. destruct Hri as [Hout Hσ'].
    inversion Hout; subst.
    destruct (Hr σo' σi' Hσ') as (σi'' & Hσ'' & Hrun).
    { eapply HQ. by apply (Hk m). }
    exists (m `max` 3), (Ok Normal σi''). split; [by split|]. intros k Hle.
    erewrite exec_block_cons_Normal; [|apply Hk; lia]. apply Hrun. lia.
  - destruct ri as [out' σi'|?|]; [|done..]. destruct Hri as [Hout Hσ'].
    inversion Hout; subst.
    exists m, (Ok (Returned v') σi'). split; [by split|]. intros k Hle.
    cbn [exec_block]. unfold mbind, M_bind. by rewrite Hk.
  - destruct ri as [|exc' σi'|]; [done| |done]. destruct Hri as [<- Hσ'].
    exists m, (Raise exc σi'). split; [done|]. intros k Hle.
    cbn [exec_block]. unfold mbind, M_bind. by rewrite Hk.
Qed.

(** *** Function definitions *)

Lemma mapM_snoc {A B} (f : A → M B) l x σ :
  mapM f (l ++ [x]) σ
  = match mapM f l σ with
    | Ok vs σ' =>
      match f x σ' with
      | Ok v σ'' => Ok (vs ++ [v]) σ''
      | Raise exc σ'' => Raise exc σ''
      | OutOfFuel => OutOfFuel
      end
    | Raise exc σ' => Raise exc σ'
    | OutOfFuel => OutOfFuel
    end.
Proof.
  revert σ. induction l as [|a l IH]; intros σ; cbn [app mapM].
  - unfold mbind, M_bind, mret, M_ret. by destruct (f x σ).
  - unfold mbind, M_bind, mret, M_ret in *.
    destruct (f a σ) as [b σ1| |]; [|done..]. rewrite IH.
    destruct (mapM f l σ1) as [bs σ2| |]; [|done..].
    by destruct (f x σ2).
Qed.

Lemma sim_decorators n decorator_list :
  sim_eval_visited n → forallb (free_of api_names) decorator_list = true →
  simulates (λ vs vs', ∃ vs0, Forall2 value_rel vs vs0
                        ∧ vs' = vs0 ++ [VBuiltin "debug_function"])
    (mapM (eval_expr n) decorator_list)
    (λ k, mapM (eval_expr k)
            (map DebugTransformer.visit_expr
               (decorator_list ++ [ast.Name "debug_function"]))).
Proof.
  intros HE Hds σo σi Hσ Hend.
  assert (Hsim : simulates (Forall2 value_rel) (mapM (eval_expr n) decorator_list)
            (λ k, mapM (eval_expr k)
                    (map DebugTransformer.visit_expr decorator_list))).
  { apply sim_mapM. eapply Forall2_map_forallb; [exact Hds|]. apply HE. }
  destruct (Hsim σo σi Hσ Hend) as (m & r & Hr & Hk).
  unfold result_rel in *.
  destruct (mapM (eval_expr n) decorator_list σo) as [vs σo'|exc σo'|],
    r as [vs0 σi'|exc' σi'|]; try done.
  - destruct Hr as [Hvs Hσ'].
    exists (m `max` 1), (Ok (vs0 ++ [VBuiltin "debug_function"]) σi').
    split; [split; [by exists vs0|done]|].
    intros k Hle. rewrite map_app. cbn [map DebugTransformer.visit_expr].
    rewrite mapM_snoc, Hk by lia.
    destruct k as [|k]; [lia|]. cbn [eval_expr eval_expr_body].
    rewrite (lookup_api "debug_function" _ _ Hσ'); [done|].
    apply (bool_decide_unpack _). by vm_compute.
  - exists m, (Raise exc' σi'). split; [done|].
    intros k Hle. rewrite map_app. cbn [map DebugTransformer.visit_expr].
    by rewrite mapM_snoc, Hk.
Qed.

Lemma sim_apply_decorators n ds ds' acc (acc' : nat → M value) :
  sim_call n → Forall2 value_rel ds ds' → simulates value_rel acc acc' →
  simulates value_rel (foldr (λ d acc, f ← acc; call_value n d [f] []) acc ds)
    (λ k, foldr (λ d acc, f ← acc; call_value k d [f] []) (acc' k) ds').
Proof.
  intros HC Hds Hacc. induction Hds as [|d d' ds ds' Hd _ IH]; cbn [foldr].
  - done.
  - eapply sim_bind; [exact IH|]. intros f f' Hf.
    apply HC; [done| |constructor]. by repeat constructor.
Qed.

Lemma sim_exec_step n :
  text_respects → sim_eval n → sim_eval_visited n → sim_exec n → sim_call n → sim_exec (S n).
Proof.
  intros Ht HE0 HE HS HC s Hs.
  assert (Hblock : ∀ body, forallb clean body = true →
    simulates outcome_rel (exec_block (exec_stmt n) body)
      (λ k, exec_block (exec_stmt k) (DebugTransformer.visit_block body))).
  { intros body Hbody. apply sim_exec_block. apply Forall_forall.
    intros s' Hs'. apply HS. by eapply forallb_elem. }
  destruct s as [name params body ds|target iter body orelse
                |test body orelse|test body orelse|target0 targets value
                |value|value|]; cbn [clean] in Hs.
  - (* FunctionDef *)
    apply andb_true_iff in Hs as [[[Hname Hparams]%andb_true_iff
                                     Hbody]%andb_true_iff Hds].
    apply bool_decide_eq_true in Hname.
    cbn [DebugTransformer.visit_stmt]. apply sim_single.
    apply (sim_step _ _ _ (λ k, exec_stmt_body (eval_expr k) (exec_stmt k)
      (call_value k)
      (ast.FunctionDef name params (DebugTransformer.visit_block body)
         (map DebugTransformer.visit_expr (ds ++ [ast.Name "debug_function"])))));
      [done|].
    cbn [exec_stmt exec_stmt_body].
    eapply sim_bind; [by apply sim_decorators|].
    intros vs vs' (vs0 & Hvs & ->).
    eapply sim_bind.
    { unfold apply_decorators. 
      eapply sim_ext; [intros k σ; by rewrite foldr_app|].
      apply sim_apply_decorators; [done..|]. cbn [foldr].
      apply (sim_step _ _ _ (λ _, mret (VWrapper
        (VFunction name params (DebugTransformer.visit_block body)))));
        [done|].
      apply sim_ret. by constructor. }
    intros f f' Hf.
    eapply sim_bind; [by apply sim_store_name|]. intros _ _ _.
    apply sim_ret, outcome_rel_normal.
  - (* For *)
    destruct target as [|x| | | | | | |]; try done.
    apply andb_true_iff in Hs as [[[[_ Hx]%andb_true_iff
                                      Hiter]%andb_true_iff
                                     Hbody]%andb_true_iff Horelse].
    cbn [free_of] in Hx. apply bool_decide_eq_true in Hx.
    cbn [DebugTransformer.visit_stmt DebugTransformer.visit_expr
         DebugTransformer.loop_iteration_arg].
    apply sim_single.
    set (loop_info := ast_unparse (ast.Name x) +:+ " in " +:+ ast_unparse iter).
    apply (sim_step _ _ _ (λ k, exec_stmt_body (eval_expr k) (exec_stmt k)
      (call_value k)
      (ast.For (ast.Name x) (DebugTransformer.visit_expr iter)
         (DebugTransformer.For_new_body loop_info (ast.Name x)
            (DebugTransformer.visit_block body))
         (DebugTransformer.visit_block orelse)))); [done|].
    cbn [exec_stmt exec_stmt_body].
    eapply sim_bind; [by apply HE|]. intros v v' Hv.
    eapply sim_bind; [by apply sim_iterate|]. intros items items' Hitems.
    eapply sim_bind.
    { apply (sim_for_each _ (λ k item, assign (ast.Name x) item;;
               exec_block (exec_stmt k)
                 (DebugTransformer.For_new_body loop_info (ast.Name x)
                    (DebugTransformer.visit_block body)))); [done|].
      intros item item' Hitem. apply sim_round; auto. }
    intros out out' Hout. destruct Hout; [by apply Hblock|].
    apply sim_ret. by constructor.
  - (* While *)
    pose proof Hs as Hclean.
    apply andb_true_iff in Hs as [[Htest Hbody]%andb_true_iff Horelse].
    cbn [DebugTransformer.visit_stmt]. apply sim_single.
    apply (sim_step _ _ _ (λ k, exec_stmt_body (eval_expr k) (exec_stmt k)
      (call_value k)
      (ast.While (DebugTransformer.visit_expr test)
         (DebugTransformer.visit_block body)
         (DebugTransformer.visit_block orelse)))); [done|].
    cbn [exec_stmt exec_stmt_body].
    eapply sim_bind; [by apply HE|]. intros v v' Hv.
    rewrite <- (truthy_rel v v' Hv). destruct (truthy v); [|by apply Hblock].
    eapply sim_bind; [by apply Hblock|]. intros out out' Hout.
    destruct Hout; [|apply sim_ret; by constructor].
    apply sim_single. by apply (HS (ast.While test body orelse)).
  - (* If *)
    apply andb_true_iff in Hs as [[Htest Hbody]%andb_true_iff Horelse].
    cbn [DebugTransformer.visit_stmt]. apply sim_single.
    set (condition := ast_unparse test).
    apply (sim_step _ _ _ (λ k, exec_stmt_body (eval_expr k) (exec_stmt k)
      (call_value k)
      (ast.If (DebugTransformer.visit_expr test)
         (DebugTransformer.If_new_body condition
            (DebugTransformer.visit_block body))
         (DebugTransformer.If_new_orelse condition
            (DebugTransformer.visit_block orelse))))); [done|].
    cbn [exec_stmt exec_stmt_body].
    eapply sim_bind; [by apply HE|]. intros v v' Hv.
    rewrite <- (truthy_rel v v' Hv). destruct (truthy v).
    + apply sim_with_prefix; [apply reports_if_true|by apply Hblock].
    + unfold DebugTransformer.If_new_orelse.
      destruct (DebugTransformer.visit_block orelse) as [|s' rest] eqn:E.
      * rewrite <- E. by apply Hblock.
      * apply (sim_with_prefix [_]); [apply reports_if_false|].
        rewrite <- E. by apply Hblock.
  - (* Assign *)
    pose proof (sim_Assign n target0 targets value HE0 Hs) as HA.
    cbn [DebugTransformer.visit_stmt DebugTransformer.visit_Assign].
    destruct target0 as [|x| | | | | | |]; try (by apply sim_single).
    apply (sim_then_report _ _ _ (is_bound x)); [done| |apply reports_variable].
    intros k σ out σ'. apply bound_after_Assign.
  - (* Expr *)
    cbn [DebugTransformer.visit_stmt]. apply sim_single.
    apply (sim_step _ _ _ (λ k, exec_stmt_body (eval_expr k) (exec_stmt k)
      (call_value k) (ast.Expr (DebugTransformer.visit_expr value)))); [done|].
    cbn [exec_stmt exec_stmt_body].
    eapply sim_bind; [by apply HE|]. intros v v' Hv. apply sim_ret, outcome_rel_normal.
  - (* Return *)
    cbn [DebugTransformer.visit_stmt]. apply sim_single.
    destruct value as [value|].
    + apply (sim_step _ _ _ (λ k, exec_stmt_body (eval_expr k) (exec_stmt k)
        (call_value k) (ast.Return (Some (DebugTransformer.visit_expr value)))));
        [done|].
      cbn [exec_stmt exec_stmt_body].
      eapply sim_bind; [by apply HE|]. intros v v' Hv.
      apply sim_ret. by constructor.
    + apply (sim_step _ _ _ (λ _, mret (Returned VNone))); [done|].
      apply sim_ret. repeat constructor.
  - (* Pass *)
    cbn [DebugTransformer.visit_stmt]. apply sim_single.
    apply (sim_step _ _ _ (λ _, mret Normal)); [done|].
    apply sim_ret, outcome_rel_normal.
Qed.

Lemma sim_interpreter n : text_respects → sim_eval n ∧ sim_eval_visited n ∧ sim_exec n ∧ sim_call n.
Proof.
  intros Ht. induction n as [|n (HE0 & HE1 & HS & HC)].
  - split_and!; intros ?; intros; apply sim_out_of_fuel.
  - pose proof (sim_eval_step n HE0 HC) as HE0'. split_and!; [done|..].
    + by apply sim_eval_visited_step.
    + by apply sim_exec_step.
    + by apply sim_call_step.
Qed.


End preservation_facts.

Section value_rel_induction.
Context `{PyText}.
Variable P : value → value → Prop.
Hypothesis Pnone : P VNone VNone.
Hypothesis Pbool : ∀ b, P (VBool b) (VBool b).
Hypothesis Pint : ∀ z, P (VInt z) (VInt z).
Hypothesis Pstr : ∀ s, P (VStr s) (VStr s).
Hypothesis Plist : ∀ l l', Forall2 P l l' → P (VList l) (VList l').
Hypothesis Ptuple : ∀ l l', Forall2 P l l' → P (VTuple l) (VTuple l').
Hypothesis Pfunction : ∀ name params body,
  P (VFunction name params body)
    (VWrapper (VFunction name params (DebugTransformer.visit_block body))).
Hypothesis Pprint : P (VBuiltin "print") (VBuiltin "print").
Hypothesis Pstream : ∀ name, P (VStream name) (VStream name).
Hypothesis Pmodule : ∀ name, P (VModule name) (VModule name).

Fixpoint value_rel_nested_ind (v v' : value) (Hv : value_rel v v') {struct Hv} : P v v' :=
  match Hv with
  | value_rel_none => Pnone
  | value_rel_bool b => Pbool b
  | value_rel_int z => Pint z
  | value_rel_str s => Pstr s
  | value_rel_list l l' Hl =>
    Plist l l'
      ((fix all l l' (Hl : Forall2 value_rel l l') : Forall2 P l l' :=
          match Hl in List.Forall2 _ l l' return Forall2 P l l' with
          | @List.Forall2_nil _ _ _ => @List.Forall2_nil _ _ P
          | @List.Forall2_cons _ _ _ x y l l' Hx Hl =>
            @List.Forall2_cons _ _ P x y l l' (value_rel_nested_ind x y Hx)
              (all l l' Hl)
          end) l l' Hl)
  | value_rel_tuple l l' Hl =>
    Ptuple l l'
      ((fix all l l' (Hl : Forall2 value_rel l l') : Forall2 P l l' :=
          match Hl in List.Forall2 _ l l' return Forall2 P l l' with
          | @List.Forall2_nil _ _ _ => @List.Forall2_nil _ _ P
          | @List.Forall2_cons _ _ _ x y l l' Hx Hl =>
            @List.Forall2_cons _ _ P x y l l' (value_rel_nested_ind x y Hx)
              (all l l' Hl)
          end) l l' Hl)
  | value_rel_function name params body _ _ => Pfunction name params body
  | value_rel_print => Pprint
  | value_rel_stream name => Pstream name
  | value_rel_module name => Pmodule name
  end.

End value_rel_induction.

Lemma data_repr_rel v v' : @value_rel data.text v v' → data.repr v = data.repr v'.
Proof.
  apply (@value_rel_nested_ind data.text (λ v v', data.repr v = data.repr v'));
    try done.
  - intros l l' Hl.
    assert (map data.repr l = map data.repr l') as Heq.
    { induction Hl as [|x y l l' Hx _ IH]; [done|]. cbn [map]. by rewrite Hx, IH. }
    change (data.repr (VList l))
      with ("[" +:+ join ", " (map data.repr l) +:+ "]").
    by rewrite Heq.
  - intros l l' Hl.
    assert (map data.repr l = map data.repr l') as Heq.
    { induction Hl as [|x y l l' Hx _ IH]; [done|]. cbn [map]. by rewrite Hx, IH. }
    change (data.repr (VTuple l)) with (data.tuple_text (map data.repr l)).
    by rewrite Heq.
Qed.

Lemma data_text_respects : @text_respects data.text.
Proof.
  intros v v' Hv. pose proof (data_repr_rel v v' Hv) as Hr.
  destruct Hv; try done.
Qed.

Lemma state_rel_initial_state : @state_rel data.text initial_state initial_state.
Proof.
  split; try done.
  - intros x Hx. cbn [globals initial_state].
    destruct (module_globals !! x) as [v|] eqn:E; [|constructor].
    constructor. apply elem_of_list_to_map_2 in E.
    unfold api_names in Hx.
    repeat (apply elem_of_cons in E as [E|E];
            [injection E as -> ->; try constructor;
             exfalso; apply Hx; set_solver|]).
    by apply elem_of_nil in E.
  - intros f Hf. unfold api_names in Hf.
    repeat (apply elem_of_cons in Hf as [->|Hf]; [by vm_compute|]).
    by apply elem_of_nil in Hf.
  - constructor.
Qed.




(** ** Everything written goes through [debug_print] *)

Section printing_facts.
Context `{PyText}.

#[local] Abbreviation guarded_values := (Forall (λ v : value, guarded v = true)).
#[local] Abbreviation guarded_kwargs :=
  (Forall (λ kv : string * value, guarded kv.2 = true)).

Lemma traced_prints_refl σ : traced_prints σ σ.
Proof. exists []. by rewrite !app_nil_r. Qed.

Lemma traced_prints_trans σ1 σ2 σ3 :
  traced_prints σ1 σ2 → traced_prints σ2 σ3 → traced_prints σ1 σ3.
Proof.
  intros (rs1 & Hl1 & Ho1) (rs2 & Hl2 & Ho2). exists (rs1 ++ rs2).
  rewrite Hl2, Hl1, Ho2, Ho1, omap_app. by rewrite !(assoc_L (++)).
Qed.

Lemma keeps_ret {A} (G : A → Prop) a : G a → keeps G (mret a).
Proof. intros Ha σ Hσ. split_and!; [done..|apply traced_prints_refl]. Qed.

Lemma keeps_raise {A} (G : A → Prop) exc : keeps G (raise exc).
Proof. intros σ Hσ. split; [done|apply traced_prints_refl]. Qed.

Lemma keeps_out_of_fuel {A} (G : A → Prop) : keeps G out_of_fuel.
Proof. by intros σ Hσ. Qed.

Lemma keeps_bind {A B} (G : A → Prop) (G' : B → Prop) (m : M A) (f : A → M B) :
  keeps G m → (∀ a, G a → keeps G' (f a)) → keeps G' (m ≫= f).
Proof.
  intros Hm Hf σ Hσ. specialize (Hm σ Hσ). unfold mbind, M_bind.
  destruct (m σ) as [a σ1|exc σ1|]; [|done..].
  destruct Hm as (Ha & Hσ1 & Ht1). specialize (Hf a Ha σ1 Hσ1).
  destruct (f a σ1) as [b σ2|exc σ2|]; [| |done].
  - destruct Hf as (Hb & Hσ2 & Ht2). split_and!; [done..|].
    by eapply traced_prints_trans.
  - destruct Hf as (Hσ2 & Ht2). split; [done|]. by eapply traced_prints_trans.
Qed.

Lemma keeps_weaken {A} (G G' : A → Prop) (m : M A) :
  (∀ a, G a → G' a) → keeps G m → keeps G' m.
Proof.
  intros HG Hm σ Hσ. specialize (Hm σ Hσ).
  destruct (m σ); [|done..]. destruct Hm as (? & ? & ?). auto.
Qed.

Lemma keeps_mapM {A B} (G : B → Prop) (f : A → M B) l :
  (∀ x, x ∈ l → keeps G (f x)) → keeps (Forall G) (mapM f l).
Proof.
  induction l as [|x l IH]; intros Hf; cbn [mapM].
  - by apply keeps_ret.
  - eapply keeps_bind; [apply Hf; by left|]. intros y Hy.
    eapply keeps_bind; [apply IH; intros; apply Hf; by right|]. intros k Hk.
    apply keeps_ret. by constructor.
Qed.

(** A step that leaves the log and the output alone. *)
Lemma keeps_silent {A} (G : A → Prop) (m : M A) :
  (∀ σ, guarded_state σ →
     match m σ with
     | Ok a σ' => G a ∧ guarded_state σ' ∧ api_log σ' = api_log σ
                  ∧ output σ' = output σ
     | Raise _ σ' => σ' = σ
     | OutOfFuel => False
     end) →
  keeps G m.
Proof.
  intros Hm σ Hσ. specialize (Hm σ Hσ). destruct (m σ) as [a σ'|exc σ'|].
  - destruct Hm as (Ha & Hσ' & Hl & Ho). split_and!; [done..|].
    exists []. by rewrite !app_nil_r.
  - subst. split; [done|apply traced_prints_refl].
  - done.
Qed.

Lemma keeps_from_option {A} (G : A → Prop) exc (o : option A) :
  (∀ a, o = Some a → G a) → keeps G (from_option exc o).
Proof.
  intros Ho. destruct o as [a|]; [apply keeps_ret; auto|apply keeps_raise].
Qed.

Lemma keeps_lookup_name id : id ≠ "print" → keeps (λ v, guarded v = true) (lookup_name id).
Proof.
  intros Hid. apply keeps_silent. intros σ Hσ. pose proof Hσ as [Hg Hl].
  unfold lookup_name.
  destruct (locals σ) as [frame|] eqn:E; cbn.
  - destruct (frame !! id) as [v|] eqn:Ef; [by split_and!; [eapply Hl|..]|].
    destruct (globals σ !! id) as [v|] eqn:Eg; [by split_and!; [eapply Hg|..]|].
    unfold builtins. by rewrite bool_decide_false.
  - destruct (globals σ !! id) as [v|] eqn:Eg; [by split_and!; [eapply Hg|..]|].
    unfold builtins. by rewrite bool_decide_false.
Qed.

Lemma guarded_frame_insert x v frame :
  guarded v = true → guarded_frame frame → guarded_frame (<[x:=v]> frame).
Proof.
  intros Hv Hf y w. destruct (decide (x = y)) as [->|Hne].
  - rewrite lookup_insert_eq. by intros [= <-].
  - rewrite lookup_insert_ne by done. apply Hf.
Qed.

Lemma keeps_store_name id v :
  guarded v = true → keeps (λ _, True) (store_name id v).
Proof.
  intros Hv. apply keeps_silent. intros σ Hσ. pose proof Hσ as [Hg Hl].
  unfold store_name.
  destruct (locals σ) as [frame|] eqn:E; split_and!; try done; split; cbn;
    try done.
  - intros ? [= <-]. apply guarded_frame_insert; auto.
  - by apply guarded_frame_insert.
Qed.

Lemma keeps_get_locals : keeps guarded_locals get_locals.
Proof. apply keeps_silent. intros σ Hσ. pose proof Hσ as [Hg Hl]. by split_and!. Qed.

Lemma keeps_set_locals fr :
  guarded_locals fr → keeps (λ _, True) (set_locals fr).
Proof.
  intros Hfr. apply keeps_silent. intros σ Hσ. pose proof Hσ as [Hg Hl].
  by split_and!.
Qed.


(** *** Values and assignments *)

Lemma forallb_Forall {A} (P : A → bool) l :
  forallb P l = true ↔ Forall (λ x, P x = true) l.
Proof.
  induction l as [|x l IH]; cbn; [by split|].
  rewrite andb_true_iff, Forall_cons. by rewrite IH.
Qed.

Lemma keeps_binop op a b :
  guarded a = true → guarded b = true →
  keeps (λ v, guarded v = true) (binop op a b).
Proof.
  intros Ha Hb. apply keeps_silent. intros σ Hσ.
  destruct op, a, b; cbn; try (destruct (as_int _)); try done;
    split_and!; try done; cbn in *; by rewrite forallb_app, Ha, Hb.
Qed.

Lemma keeps_compare op a b : keeps (λ v, guarded v = true) (compare op a b).
Proof.
  apply keeps_silent. intros σ Hσ. unfold compare.
  destruct (as_int a), (as_int b); by cbn.
Qed.

Lemma keeps_getattr v attr : keeps (λ v, guarded v = true) (getattr v attr).
Proof.
  apply keeps_silent. intros σ Hσ. destruct v; cbn; try done.
  repeat case_bool_decide; by cbn.
Qed.

Lemma keeps_getitem v i :
  guarded v = true → keeps (λ v, guarded v = true) (getitem v i).
Proof.
  intros Hv. apply keeps_silent. intros σ Hσ.
  destruct v, i; cbn; try done; cbn in Hv.
  all: case_bool_decide; [|done].
  all: match goal with
       | |- context [?l !! ?k] => destruct (l !! k) as [x|] eqn:E
       end; cbn; [|done].
  all: split_and!; try done.
  all: eapply forallb_elem; [exact Hv|]; by eapply list_elem_of_lookup_2.
Qed.

Lemma keeps_iterate v :
  guarded v = true →
  keeps (Forall (λ v, guarded v = true)) (iterate v).
Proof.
  intros Hv. apply keeps_silent. intros σ Hσ.
  destruct v; cbn; try done; cbn in Hv; split_and!; try done.
  - apply Forall_fmap, Forall_forall. by intros.
  - by apply forallb_Forall.
  - by apply forallb_Forall.
Qed.

Lemma keeps_assign_name target v :
  guarded v = true → keeps (λ _, True) (assign_name target v).
Proof.
  intros Hv. destruct target; cbn [assign_name]; try apply keeps_raise.
  by apply keeps_store_name.
Qed.

Lemma keeps_assign target v :
  guarded v = true → keeps (λ _, True) (assign target v).
Proof.
  intros Hv.
  assert (Hunpack : ∀ elts,
    keeps (λ _, True)
      (items ← iterate v;
       if bool_decide (length elts = length items)
       then mapM (λ p, assign_name p.1 p.2) (zip elts items);; mret ()
       else raise "ValueError")).
  { intros elts. eapply keeps_bind; [by apply keeps_iterate|].
    intros items Hitems. case_bool_decide; [|apply keeps_raise].
    eapply keeps_bind; [|intros; by apply keeps_ret].
    apply (keeps_mapM (λ _, True)). intros [t w] Hin. apply keeps_assign_name.
    apply elem_of_zip_r in Hin. cbn in *.
    by eapply (proj1 (Forall_forall _ _) Hitems). }
  destruct target; cbn [assign]; try apply keeps_raise; [|done..].
  by apply keeps_store_name.
Qed.

(** *** The runtime API *)

Lemma guarded_state_after_report r σ :
  guarded_state σ → guarded_state (after_report r σ).
Proof. by intros []. Qed.

Lemma keeps_report {A} (G : A → Prop) r a :
  G a → written r = None → keeps G (λ σ, Ok a (after_report r σ)).
Proof.
  intros Ha Hr σ Hσ. split_and!; [done|by apply guarded_state_after_report|].
  exists [r]. cbn. by rewrite Hr, app_nil_r.
Qed.

Lemma py_print_print_text args kwargs σ :
  match py_print args kwargs σ with
  | Ok v σ' =>
    ∃ w, v = VNone ∧ print_text args kwargs = Some w
         ∧ output σ' = output σ ++ [w] ∧ api_log σ' = api_log σ
         ∧ globals σ' = globals σ ∧ locals σ' = locals σ
  | Raise _ σ' => print_text args kwargs = None ∧ σ' = σ
  | OutOfFuel => False
  end.
Proof.
  unfold py_print, print_text. destruct (forallb _ _); [|done].
  unfold mbind at 1 2 3, M_bind, from_option.
  destruct (print_text_option "sep" _ _); [|done].
  destruct (print_text_option "end" _ _); [|done].
  destruct (print_file _); [|done]. cbn. eexists. by split_and!.
Qed.

Lemma keeps_debug_print args kwargs :
  keeps (λ v, guarded v = true) (debug_print args kwargs).
Proof.
  intros σ Hσ. rewrite debug_print_run.
  pose proof (py_print_print_text args kwargs
                (after_report (print_call args kwargs) σ)) as Hp.
  destruct (py_print _ _ _) as [v σ'|exc σ'|]; [| |done].
  - destruct Hp as (w & -> & Hw & Ho & Hl & Hg & Hloc). split_and!; [done| |].
    + unfold guarded_state. rewrite Hg, Hloc. apply Hσ.
    + exists [print_call args kwargs]. cbn. by rewrite Hw, Ho, Hl.
  - destruct Hp as [Hw ->]. split; [by apply guarded_state_after_report|].
    exists [print_call args kwargs]. cbn. by rewrite Hw, app_nil_r.
Qed.


Lemma bind_params_guarded params args kwargs bound :
  bind_params params args kwargs = Some bound →
  Forall (λ v, guarded v = true) args →
  Forall (λ kv, guarded kv.2 = true) kwargs →
  Forall (λ kv, guarded kv.2 = true) bound.
Proof.
  unfold bind_params. intros Hb Ha Hk.
  case_bool_decide; [|done]. destruct (forallb _ kwargs); [|done].
  destruct (mapM _ _) as [rest|] eqn:Hrest; [|done]. cbn in Hb.
  injection Hb as <-. apply Forall_app. split.
  - apply Forall_forall. intros [p v] Hin%elem_of_zip_r.
    by eapply (proj1 (Forall_forall _ _) Ha).
  - clear -Hrest Hk. revert rest Hrest.
    induction (drop (length args) params) as [|p ps IH]; intros rest Hrest.
    + injection Hrest as <-. constructor.
    + cbn in Hrest. destruct (kw_lookup p kwargs) as [v|] eqn:Ev; [|done].
      cbn in Hrest. destruct (mapM _ ps) as [r|]; [|done]. cbn in Hrest.
      injection Hrest as <-. constructor; [|by apply IH]. cbn.
      clear -Ev Hk. induction Hk as [|[k w] kws Hw _ IH]; [done|].
      cbn in Ev. case_bool_decide; [by injection Ev as <-|by apply IH].
Qed.

Lemma guarded_frame_list_to_map bound :
  Forall (λ kv, guarded kv.2 = true) bound →
  guarded_frame (list_to_map bound).
Proof.
  intros Hb x v Hx%elem_of_list_to_map_2.
  by apply (proj1 (Forall_forall _ _) Hb (x, v)).
Qed.

Lemma keeps_call_builtin name args kwargs :
  name ≠ "print" →
  Forall (λ v, guarded v = true) args →
  Forall (λ kv, guarded kv.2 = true) kwargs →
  keeps (λ v, guarded v = true) (call_builtin name args kwargs).
Proof.
  intros Hname Ha Hk. unfold call_builtin.
  rewrite bool_decide_false by done.
  repeat case_bool_decide; try apply keeps_raise;
    try apply keeps_debug_print.
  all: destruct (bind_params _ args kwargs) as [bound|] eqn:Hb;
    [|apply keeps_raise].
  all: pose proof (bind_params_guarded _ _ _ _ Hb Ha Hk) as Hg.
  all: repeat (let p := fresh "p" in
               destruct bound as [|[? p] bound]; try apply keeps_raise).
  all: repeat match goal with
              | H : Forall _ (_ :: _) |- _ =>
                  apply Forall_cons in H as [? H]; cbn in *
              end.
  - by apply keeps_ret.
  - by apply (keeps_report _ (loop_start _)).
  - by apply (keeps_report _ (loop_iterate _)).
  - by apply (keeps_report _ loop_end).
  - eapply keeps_weaken; [|apply (keeps_report (λ v, guarded v = true)
                                     (condition_call p) (VConditionDecorator p))];
      [done|done|done].
  - by apply (keeps_report _ (variable_bound _ _)).
  - by apply (keeps_report _ (if_branch _ _)).
Qed.


Lemma keeps_log r : written r = None → keeps (λ _, True) (log r).
Proof.
  intros Hr σ Hσ. split_and!; [done|by destruct Hσ|].
  exists [r]. cbn. by rewrite Hr, app_nil_r.
Qed.

Lemma keeps_on_visualizer method : keeps (λ _, True) (on_visualizer method).
Proof. apply keeps_silent. intros σ Hσ. by destruct Hσ. Qed.

Lemma keeps_debug_function_wrapper call func args kwargs :
  keeps_calls call →
  guarded func = true → guarded_values args → guarded_kwargs kwargs →
  keeps (λ v, guarded v = true)
    (debug_function_wrapper call func args kwargs).
Proof.
  intros Hcall Hf Ha Hk. unfold debug_function_wrapper.
  eapply keeps_bind; [by apply (keeps_from_option (λ _, True))|]. intros name _.
  eapply keeps_bind; [by apply keeps_log|]. intros _ _.
  eapply keeps_bind; [apply keeps_on_visualizer|]. intros _ _.
  eapply keeps_bind; [by apply Hcall|]. intros result Hresult.
  eapply keeps_bind; [by apply keeps_log|]. intros _ _.
  eapply keeps_bind; [apply keeps_on_visualizer|]. intros _ _.
  by apply keeps_ret.
Qed.

Lemma keeps_debug_condition_wrapper call condition func args kwargs :
  keeps_calls call →
  guarded func = true → guarded_values args → guarded_kwargs kwargs →
  keeps (λ v, guarded v = true)
    (debug_condition_wrapper call condition func args kwargs).
Proof.
  intros Hcall Hf Ha Hk. unfold debug_condition_wrapper.
  eapply keeps_bind; [by apply Hcall|]. intros result Hresult.
  eapply keeps_bind; [by apply keeps_log|]. intros _ _.
  eapply keeps_bind; [apply keeps_on_visualizer|]. intros _ _.
  by apply keeps_ret.
Qed.

(** *** The evaluator *)

Lemma keeps_exec_block exec body :
  keeps_execs exec → forallb print_free body = true →
  keeps guarded_outcome (exec_block exec body).
Proof.
  intros Hexec. induction body as [|s body IH]; intros Hbody; cbn [exec_block].
  - by apply keeps_ret.
  - cbn in Hbody. apply andb_true_iff in Hbody as [Hs Hbody].
    eapply keeps_bind; [by apply Hexec|]. intros [|v] Hout; [by apply IH|].
    by apply keeps_ret.
Qed.

Lemma keeps_for_each round items :
  (∀ item, guarded item = true → keeps guarded_outcome (round item)) →
  guarded_values items →
  keeps guarded_outcome (for_each round items).
Proof.
  intros Hround Hitems.
  induction Hitems as [|item items Hitem _ IH]; cbn [for_each].
  - by apply keeps_ret.
  - eapply keeps_bind; [by apply Hround|]. intros [|v] Hout; [done|].
    by apply keeps_ret.
Qed.

Lemma keeps_apply_decorators call decorators func :
  keeps_calls call → guarded_values decorators → guarded func = true →
  keeps (λ v, guarded v = true) (apply_decorators call decorators func).
Proof.
  intros Hcall Hds Hf. unfold apply_decorators.
  induction Hds as [|d ds Hd _ IH]; cbn [foldr].
  - by apply keeps_ret.
  - eapply keeps_bind; [exact IH|]. intros f Hf'.
    apply Hcall; [done| |constructor]. by repeat constructor.
Qed.

Lemma keeps_eval_list eval elts :
  keeps_evals eval → forallb (free_of ["print"]) elts = true →
  keeps guarded_values (mapM eval elts).
Proof.
  intros Heval He. apply keeps_mapM. intros e Hin.
  apply Heval. by eapply forallb_elem.
Qed.

Lemma keeps_eval_expr_body eval call e :
  keeps_evals eval → keeps_calls call → free_of ["print"] e = true →
  keeps (λ v, guarded v = true) (eval_expr_body eval call e).
Proof.
  intros Heval Hcall He.
  destruct e as [c|id|func args keywords|elts|elts|lhs op rhs|lhs op rhs
                |v attr|v slice]; cbn [eval_expr_body free_of] in *.
  - apply keeps_ret. by destruct c.
  - apply keeps_lookup_name. apply bool_decide_eq_true in He.
    intros ->. apply He. by left.
  - apply andb_true_iff in He as [[Hf Ha]%andb_true_iff Hk].
    eapply keeps_bind; [by apply Heval|]. intros f Hf'.
    eapply keeps_bind; [by apply keeps_eval_list|]. intros vargs Hvargs.
    eapply keeps_bind; [|intros vkwargs Hvk; by apply Hcall].
    apply keeps_mapM. intros kw Hin.
    eapply keeps_bind.
    + apply Heval. by apply (forallb_elem _ _ _ Hk Hin).
    + intros w Hw. by apply keeps_ret.
  - eapply keeps_bind; [by apply keeps_eval_list|]. intros items Hitems.
    apply keeps_ret. by apply forallb_Forall.
  - eapply keeps_bind; [by apply keeps_eval_list|]. intros items Hitems.
    apply keeps_ret. by apply forallb_Forall.
  - apply andb_true_iff in He as [Hl Hr].
    eapply keeps_bind; [by apply Heval|]. intros a Ha.
    eapply keeps_bind; [by apply Heval|]. intros b Hb.
    by apply keeps_binop.
  - apply andb_true_iff in He as [Hl Hr].
    eapply keeps_bind; [by apply Heval|]. intros a Ha.
    eapply keeps_bind; [by apply Heval|]. intros b Hb.
    apply keeps_compare.
  - eapply keeps_bind; [by apply Heval|]. intros a Ha. apply keeps_getattr.
  - apply andb_true_iff in He as [Hl Hr].
    eapply keeps_bind; [by apply Heval|]. intros a Ha.
    eapply keeps_bind; [by apply Heval|]. intros b Hb.
    by apply keeps_getitem.
Qed.

Lemma keeps_exec_stmt_body eval exec call s :
  keeps_evals eval → keeps_execs exec → keeps_calls call →
  print_free s = true →
  keeps guarded_outcome (exec_stmt_body eval exec call s).
Proof.
  intros Heval Hexec Hcall Hs.
  pose proof (keeps_exec_block exec) as Hblock.
  destruct s as [name params body ds|target iter body orelse
                |test body orelse|test body orelse|target0 targets value
                |value|value|]; cbn [exec_stmt_body].
  - cbn [print_free] in Hs. apply andb_true_iff in Hs as [Hbody Hds].
    eapply keeps_bind; [by apply keeps_eval_list|]. intros decorators Hdecs.
    eapply keeps_bind; [by apply keeps_apply_decorators|]. intros func Hfunc.
    eapply keeps_bind; [by apply keeps_store_name|]. intros _ _.
    by apply keeps_ret.
  - cbn [print_free] in Hs.
    apply andb_true_iff in Hs as [[Hiter Hbody]%andb_true_iff Horelse].
    eapply keeps_bind; [by apply Heval|]. intros v Hv.
    eapply keeps_bind; [by apply keeps_iterate|]. intros items Hitems.
    eapply keeps_bind.
    + apply keeps_for_each; [|done]. intros item Hitem.
      eapply keeps_bind; [by apply keeps_assign|]. intros _ _. by apply Hblock.
    + intros [|v'] Hout; [by apply Hblock|by apply keeps_ret].
  - pose proof Hs as Hwhile. cbn [print_free] in Hs.
    apply andb_true_iff in Hs as [[Htest Hbody]%andb_true_iff Horelse].
    eapply keeps_bind; [by apply Heval|]. intros v Hv.
    destruct (truthy v); [|by apply Hblock].
    eapply keeps_bind; [by apply Hblock|].
    intros [|v'] Hout; [by apply Hexec|by apply keeps_ret].
  - cbn [print_free] in Hs.
    apply andb_true_iff in Hs as [[Htest Hbody]%andb_true_iff Horelse].
    eapply keeps_bind; [by apply Heval|]. intros v Hv.
    destruct (truthy v); by apply Hblock.
  - cbn [print_free] in Hs.
    eapply keeps_bind; [by apply Heval|]. intros v Hv.
    eapply keeps_bind; [by apply keeps_assign|]. intros _ _.
    eapply keeps_bind; [|intros; by apply keeps_ret].
    apply (keeps_mapM (λ _, True)). intros target _. by apply keeps_assign.
  - cbn [print_free] in Hs.
    eapply keeps_bind; [by apply Heval|]. intros v Hv. by apply keeps_ret.
  - destruct value as [value|]; [|by apply keeps_ret].
    cbn [print_free] in Hs.
    eapply keeps_bind; [by apply Heval|]. intros v Hv. by apply keeps_ret.
  - by apply keeps_ret.
Qed.

Lemma keeps_call_value_body exec call f args kwargs :
  keeps_execs exec → keeps_calls call →
  guarded f = true → guarded_values args → guarded_kwargs kwargs →
  keeps (λ v, guarded v = true) (call_value_body exec call f args kwargs).
Proof.
  intros Hexec Hcall Hf Ha Hk.
  destruct f; cbn [call_value_body guarded] in *; try apply keeps_raise.
  - eapply (keeps_bind guarded_kwargs).
    { apply keeps_from_option. intros bound Hb.
      by eapply bind_params_guarded. }
    intros bound Hbound.
    eapply keeps_bind; [apply keeps_get_locals|]. intros caller Hcaller.
    eapply keeps_bind.
    { apply keeps_set_locals. intros frame [= <-].
      by apply guarded_frame_list_to_map. }
    intros _ _.
    eapply keeps_bind; [by apply keeps_exec_block|]. intros out Hout.
    eapply keeps_bind; [by apply keeps_set_locals|]. intros _ _.
    apply keeps_ret. by destruct out.
  - apply keeps_call_builtin; [|done..]. by apply bool_decide_eq_true in Hf.
  - by apply keeps_debug_function_wrapper.
  - destruct (bind_params _ args kwargs) as [bound|] eqn:Hb;
      [|apply keeps_raise].
    pose proof (bind_params_guarded _ _ _ _ Hb Ha Hk) as Hg.
    destruct bound as [|[? func] [|]]; try apply keeps_raise.
    apply Forall_cons in Hg as [Hfunc _]. apply keeps_ret. cbn in *.
    by rewrite Hf, Hfunc.
  - apply andb_true_iff in Hf as [Hc Hf].
    by apply keeps_debug_condition_wrapper.
Qed.

Lemma keeps_interpreter fuel :
  keeps_evals (eval_expr fuel) ∧ keeps_execs (exec_stmt fuel)
  ∧ keeps_calls (call_value fuel).
Proof.
  induction fuel as [|n (IHeval & IHexec & IHcall)].
  { split_and!; intros ?; intros; apply keeps_out_of_fuel. }
  split_and!; intros ?; intros.
  - by apply keeps_eval_expr_body.
  - by apply keeps_exec_stmt_body.
  - by apply keeps_call_value_body.
Qed.


End printing_facts.

Lemma guarded_initial_state : guarded_state initial_state.
Proof.
  split; [|done]. intros x v Hx. cbn [globals initial_state] in Hx.
  apply elem_of_list_to_map_2 in Hx.
  repeat (apply elem_of_cons in Hx as [Hx|Hx]; [by injection Hx as -> ->|]).
  by apply elem_of_nil in Hx.
Qed.

